(** * geoflow: well-log data, section view and workspace state

    A shallow embedding of the well-log core of geoflow
    ([geoflow/well_data.py], [geoflow/ui/well_section.py],
    [geoflow/ui/workspace.py]) and the properties its specification
    states about it.

    Numbers.  Curve samples, depths and track widths are Python/numpy
    floats.  They are modelled by [float64]: the special values NaN and
    the two infinities, which LAS null samples, divisions by zero and
    overflows produce, and finite values as rationals.  A finite result
    beyond the range of binary64 becomes an infinity; the rounding of a
    result within the range, and the sign of zero, are outside the
    model.  Calibration constants of the petrophysical formulas are
    finite.

    matplotlib.  An axis is modelled by what the canvas writes to it.
    The calls into matplotlib are taken to return; where matplotlib
    raises instead (limits that are NaN or infinite, width ratios that
    sum to zero) the method stops there, and the properties below that
    speak of a call that returns, or that hold at every point where a
    method can stop, are the ones that carry over. *)

From Stdlib Require Import QArith Qminmax Lqa Ascii String.
From stdpp Require Import gmap strings list fin_maps pretty.

Set Warnings "-register-all".

Open Scope string_scope.

(** ** Numbers *)

Inductive float64 : Type :=
| NaN
| NInf
| Fin (q : Q)
| PInf.

Definition Qltb (a b : Q) : bool := negb (Qle_bool b a).

(** The largest binary64 number is [2^1024 - 2^971]; a result halfway
    to [2^1024] or beyond overflows. *)
Definition overflow_bound : Q := inject_Z (2 ^ 1024 - 2 ^ 970).

Arguments overflow_bound : simpl never.

(** The value of an operation whose exact result is [q]. *)
Definition finite (q : Q) : float64 :=
  if Qle_bool overflow_bound q then PInf
  else if Qle_bool q (- overflow_bound) then NInf
  else Fin q.

(** [x - y] *)
Definition fsub (x y : float64) : float64 :=
  match x, y with
  | NaN, _ | _, NaN => NaN
  | Fin a, Fin b => finite (a - b)
  | PInf, PInf | NInf, NInf => NaN
  | PInf, _ | _, NInf => PInf
  | NInf, _ | _, PInf => NInf
  end.

(** [x + y] *)
Definition fadd (x y : float64) : float64 :=
  match x, y with
  | NaN, _ | _, NaN => NaN
  | Fin a, Fin b => finite (a + b)
  | PInf, NInf | NInf, PInf => NaN
  | PInf, _ | _, PInf => PInf
  | NInf, _ | _, NInf => NInf
  end.

(** The sign of a value: [Lt] negative, [Eq] zero (or NaN), [Gt] positive. *)
Definition fsign (x : float64) : comparison :=
  match x with
  | NaN => Eq
  | NInf => Lt
  | PInf => Gt
  | Fin a => a ?= 0
  end%Q.

(** The infinity of a given sign; an undetermined sign gives NaN. *)
Definition inf_of_sign (s : comparison) : float64 :=
  match s with Lt => NInf | Eq => NaN | Gt => PInf end.

(** [x * y] *)
Definition fmul (x y : float64) : float64 :=
  match x, y with
  | NaN, _ | _, NaN => NaN
  | Fin a, Fin b => finite (a * b)
  | PInf, _ => inf_of_sign (fsign y)
  | NInf, _ => inf_of_sign (CompOpp (fsign y))
  | _, PInf => inf_of_sign (fsign x)
  | _, NInf => inf_of_sign (CompOpp (fsign x))
  end.

(** [x / y] on arrays: a division by zero raises nothing, it yields an
    infinity or NaN.  A zero divisor divides like [+0.0]. *)
Definition fdiv (x y : float64) : float64 :=
  match x, y with
  | NaN, _ | _, NaN => NaN
  | Fin a, Fin b =>
      if Qeq_bool b 0 then inf_of_sign (fsign x) else finite (a / b)
  | Fin _, _ => Fin 0
  | PInf, Fin b => if Qltb b 0 then NInf else PInf
  | NInf, Fin b => if Qltb b 0 then PInf else NInf
  | _, _ => NaN
  end.

(** [x < y], [x <= y], [x == y]: false as soon as one side is NaN. *)
Definition fltb (x y : float64) : bool :=
  match x, y with
  | NaN, _ | _, NaN => false
  | _, NInf => false
  | NInf, _ => true
  | PInf, _ => false
  | _, PInf => true
  | Fin a, Fin b => Qltb a b
  end.

Definition fleb (x y : float64) : bool :=
  match x, y with
  | NaN, _ | _, NaN => false
  | NInf, _ => true
  | _, NInf => false
  | _, PInf => true
  | PInf, _ => false
  | Fin a, Fin b => Qle_bool a b
  end.

Definition feqb (x y : float64) : bool :=
  match x, y with
  | NInf, NInf | PInf, PInf => true
  | Fin a, Fin b => Qeq_bool a b
  | _, _ => false
  end.

Definition isnan (x : float64) : bool :=
  match x with NaN => true | _ => false end.

(** Python's builtin [max(a, b)]: the first argument unless the second
    is strictly greater. *)
Definition py_max (a b : float64) : float64 :=
  if fltb a b then b else a.

(** [np.maximum], [np.minimum]: element-wise, NaN wins. *)
Definition np_maximum (a b : float64) : float64 :=
  if isnan a then a else if isnan b then b else if fltb a b then b else a.

Definition np_minimum (a b : float64) : float64 :=
  if isnan a then a else if isnan b then b else if fltb b a then b else a.

(** [np.clip(a, a_min, a_max)] on one element, which numpy documents as
    [np.minimum(a_max, np.maximum(a, a_min))]. *)
Definition np_clip (a a_min a_max : float64) : float64 :=
  np_minimum a_max (np_maximum a a_min).

(** A numpy array of floats. *)
Abbreviation ndarray := (list float64).

(** [x] lies in the closed interval [[0,1]]. *)
Definition in_unit (x : float64) : bool :=
  fleb (Fin 0) x && fleb x (Fin 1).

(** ** geoflow/well_data.py *)

Module WellLogData.

(** [pd.DataFrame(data_dict)]: the columns, kept by mnemonic. *)
Abbreviation DataFrame := (gmap string (option ndarray)).

Record t : Type := mk {
  name : string;
  data : option DataFrame;
  curves : gmap string ndarray;
  units : gmap string string;
  descriptions : gmap string string;
}.

Definition __init__ (name : string) : t :=
  {| name := name; data := None; curves := ∅; units := ∅; descriptions := ∅ |}.

Definition default_name : string := "Unknown Well".

Definition get_curve_names (self : t) : list string :=
  (map_to_list (curves self)).*1.

Definition get_curve_data (self : t) (curve_name : string) : option ndarray :=
  curves self !! curve_name.

(** The methods below receive [self] and return it next to their result:
    what they return as first component is the object after the call. *)

Definition calculate_shale_volume (self : t) (gr_curve : string)
    (gr_clean gr_shale : Q) : t * option ndarray :=
  match curves self !! gr_curve with
  | None => (self, None)
  | Some gr =>
      let vsh := (fun g => fdiv (fsub g (Fin gr_clean))
                                (fsub (Fin gr_shale) (Fin gr_clean))) <$> gr in
      let vsh := (fun v => np_clip v (Fin 0) (Fin 1)) <$> vsh in
      (self, Some vsh)
  end.

Definition calculate_porosity (self : t) (density_curve : string)
    (fluid_density matrix_density : Q) : t * option ndarray :=
  match curves self !! density_curve with
  | None => (self, None)
  | Some rhob =>
      let phi := (fun r => fdiv (fsub (Fin matrix_density) r)
                                (fsub (Fin matrix_density) (Fin fluid_density))) <$> rhob in
      let phi := (fun v => np_clip v (Fin 0) (Fin 1)) <$> phi in
      (self, Some phi)
  end.

(** Default arguments of the two derivations. *)
Definition default_gr_curve : string := "GR".
Definition default_gr_clean : Q := 30.
Definition default_gr_shale : Q := 150.
Definition default_density_curve : string := "RHOB".
Definition default_fluid_density : Q := 1.
Definition default_matrix_density : Q := 2.65.

Definition depth_candidates : list string := ["DEPT"; "DEPTH"; "MD"; "TVD"].

(** The [for candidate in depth_candidates] loop. *)
Fixpoint first_candidate (cs : gmap string ndarray) (candidates : list string)
    : option string :=
  match candidates with
  | [] => None
  | candidate :: rest =>
      if decide (is_Some (cs !! candidate)) then Some candidate
      else first_candidate cs rest
  end.

Definition _find_depth_curve (self : t) : option string :=
  first_candidate (curves self) depth_candidates.

End WellLogData.

(** ** The derivations as the specification writes them

    [Vsh = clip((GR - gr_clean) / (gr_shale - gr_clean), 0, 1)] and
    [Phi = clip((matrix_density - RHOB) / (matrix_density - fluid_density), 0, 1)],
    for one sample. *)

Definition Vsh (GR : float64) (gr_clean gr_shale : Q) : float64 :=
  np_clip (fdiv (fsub GR (Fin gr_clean)) (fsub (Fin gr_shale) (Fin gr_clean)))
          (Fin 0) (Fin 1).

Definition Phi (RHOB : float64) (matrix_density fluid_density : Q) : float64 :=
  np_clip (fdiv (fsub (Fin matrix_density) RHOB)
                (fsub (Fin matrix_density) (Fin fluid_density)))
          (Fin 0) (Fin 1).

(** Two arrays are equal element by element ([==] of numpy). *)
Definition array_eq (a b : ndarray) : Prop :=
  Forall2 (fun x y => feqb x y = true) a b.

(** A well with a null (NaN) gamma-ray sample, as lasio returns for a
    null entry of the file. *)
Definition well_with_null : WellLogData.t :=
  let cs : gmap string ndarray :=
    {[ "DEPT" := [Fin 1000; Fin 1000.5; Fin 1001];
       "GR" := [Fin 45; NaN; Fin 120];
       "RHOB" := [Fin 2.65; Fin 2.32; NaN] ]} in
  {| WellLogData.name := "W-1";
     WellLogData.data := Some (Some <$> cs);
     WellLogData.curves := cs;
     WellLogData.units := {[ "DEPT" := "M"; "GR" := "GAPI"; "RHOB" := "G/C3" ]};
     WellLogData.descriptions := ∅ |}.

(** The well of the specification's example. *)
Definition well_example : WellLogData.t :=
  let cs : gmap string ndarray := {[ "GR" := [Fin 30; Fin 90; Fin 150] ]} in
  {| WellLogData.name := "W-2";
     WellLogData.data := Some (Some <$> cs);
     WellLogData.curves := cs;
     WellLogData.units := {[ "GR" := "GAPI" ]};
     WellLogData.descriptions := ∅ |}.

(** ** Loading LAS files *)

(** What [lasio.read] returns, as far as the loader looks at it. *)
Module lasio.

Record CurveItem : Type := {
  mnemonic : string;
  unit : option string;
  descr : option string;
  data : option ndarray;
}.

Record LASFile : Type := {
  (** [las.well.WELL.value], when the well section has a WELL item *)
  well_WELL : option string;
  curves : list CurveItem;
}.

End lasio.

(** [pd.DataFrame(data_dict)] raises ValueError when the arrays do not
    all have the same length, and when every value is a scalar (None)
    and there is no index. *)
Definition pd_DataFrame (data_dict : gmap string (option ndarray))
    : option WellLogData.DataFrame :=
  match length <$> omap id (map_to_list data_dict).*2 with
  | [] => if decide (data_dict = ∅) then Some data_dict else None
  | n :: lens => if forallb (Nat.eqb n) lens then Some data_dict else None
  end.

(** [len(df)]: the number of rows. *)
Definition DataFrame_len (df : WellLogData.DataFrame) : nat :=
  match omap id (map_to_list df).*2 with
  | [] => 0
  | column :: _ => length column
  end.

Module WellLogDataLoader.
Section loader.

(** [lasio.read]: None when it raises; [Path(file_path).stem]. *)
Variable lasio_read : string -> option lasio.LASFile.
Variable Path_stem : string -> string.

(** The body of the [for curve in las.curves] loop: the local
    [data_dict] and the object under construction. *)
Definition add_curve (acc : gmap string (option ndarray) * WellLogData.t)
    (curve : lasio.CurveItem) : gmap string (option ndarray) * WellLogData.t :=
  let '(data_dict, self) := acc in
  let curve_name := lasio.mnemonic curve in
  (<[curve_name := lasio.data curve]> data_dict,
   {| WellLogData.name := WellLogData.name self;
      WellLogData.data := WellLogData.data self;
      WellLogData.curves := WellLogData.curves self;
      WellLogData.units :=
        <[curve_name := default "" (lasio.unit curve)]> (WellLogData.units self);
      WellLogData.descriptions :=
        <[curve_name := default "" (lasio.descr curve)]>
          (WellLogData.descriptions self) |}).

(** Returns the object after the call and the success flag.  When an
    exception is caught, what was assigned before it stays assigned. *)
Definition load_from_las (self : WellLogData.t) (file_path : string)
    : WellLogData.t * bool :=
  match lasio_read file_path with
  | None => (self, false)
  | Some las =>
      let self :=
        {| WellLogData.name := default (Path_stem file_path) (lasio.well_WELL las);
           WellLogData.data := WellLogData.data self;
           WellLogData.curves := WellLogData.curves self;
           WellLogData.units := WellLogData.units self;
           WellLogData.descriptions := WellLogData.descriptions self |} in
      let '(data_dict, self) := foldl add_curve (∅, self) (lasio.curves las) in
      match pd_DataFrame data_dict with
      | None => (self, false)
      | Some df =>
          ({| WellLogData.name := WellLogData.name self;
              WellLogData.data := Some df;
              WellLogData.curves := omap id data_dict;
              WellLogData.units := WellLogData.units self;
              WellLogData.descriptions := WellLogData.descriptions self |}, true)
      end
  end.

End loader.
End WellLogDataLoader.

Module WellDataManager.

Record t : Type := mk {
  wells : gmap string WellLogData.t;
}.

Definition __init__ : t := {| wells := ∅ |}.

Section loader.

Variable lasio_read : string -> option lasio.LASFile.
Variable Path_stem : string -> string.

Definition load_well (self : t) (file_path : string) : t * option string :=
  let well := WellLogData.__init__ WellLogData.default_name in
  let '(well, ok) :=
    WellLogDataLoader.load_from_las lasio_read Path_stem well file_path in
  if ok then
    ({| wells := <[WellLogData.name well := well]> (wells self) |},
     Some (WellLogData.name well))
  else (self, None).

End loader.

Definition get_well (self : t) (name : string) : option WellLogData.t :=
  wells self !! name.

Definition get_well_names (self : t) : list string :=
  (map_to_list (wells self)).*1.

End WellDataManager.

(** ** State and exceptions

    The widgets are objects mutated in place by methods that may raise.
    A method is a function from the object before the call to the object
    after it and either the exception raised or the value returned; an
    exception keeps the assignments made before it. *)

Inductive exn : Type :=
| IndexError
| AttributeError
| TypeError
| ValueError
| KeyError
| ZeroDivisionError.

Global Instance exn_eq_dec : EqDecision exn.
Proof. solve_decision. Defined.

Definition M (S A : Type) : Type := S -> S * (exn + A).

Global Instance M_ret {S} : MRet (M S) := fun A a s => (s, inr a).

Global Instance M_bind {S} : MBind (M S) := fun A B f m s =>
  match m s with
  | (s', inl e) => (s', inl e)
  | (s', inr a) => f a s'
  end.

Definition raise {S A} (e : exn) : M S A := fun s => (s, inl e).

Definition get {S} : M S S := fun s => (s, inr s).

Definition modify {S} (f : S -> S) : M S unit := fun s => (f s, inr ()).

(** [try: m except e: handler] *)
Definition try_except {S A} (m : M S A) (e : exn) (handler : M S A) : M S A :=
  fun s =>
    match m s with
    | (s', inl e') => if decide (e' = e) then handler s' else (s', inl e')
    | (s', inr a) => (s', inr a)
    end.

(** [for x in l: body] *)
Fixpoint for_ {S A} (l : list A) (body : A -> M S unit) : M S unit :=
  match l with
  | [] => mret ()
  | x :: rest => body x ≫= fun _ => for_ rest body
  end.

(** Nothing to do: [pass], [continue], a bare [return]. *)
Definition pass {S} : M S unit := mret ().

(** A value that must not be None where it is used as a number. *)
Definition not_None {S A} (o : option A) : M S A :=
  match o with
  | Some a => mret a
  | None => raise TypeError
  end.

(** [np.min], [np.max]: ValueError on an empty array, NaN if any. *)
Definition np_min (a : ndarray) : option float64 :=
  match a with
  | [] => None
  | x :: rest => Some (foldl np_minimum x rest)
  end.

Definition np_max (a : ndarray) : option float64 :=
  match a with
  | [] => None
  | x :: rest => Some (foldl np_maximum x rest)
  end.

(** [np.nanmin], [np.nanmax]: NaNs are skipped; NaN when all are NaN. *)
Definition np_nanmin (a : ndarray) : option float64 :=
  match a with
  | [] => None
  | _ =>
      match filter (fun x => isnan x = false) a with
      | [] => Some NaN
      | x :: rest => Some (foldl np_minimum x rest)
      end
  end.

Definition np_nanmax (a : ndarray) : option float64 :=
  match a with
  | [] => None
  | _ =>
      match filter (fun x => isnan x = false) a with
      | [] => Some NaN
      | x :: rest => Some (foldl np_maximum x rest)
      end
  end.

Definition isfinite (x : float64) : bool :=
  match x with Fin _ => true | _ => false end.

(** ** geoflow/ui/well_section.py *)

(** A matplotlib axis, as far as the canvas writes to it: the title,
    the plotted lines and the limits.  Calls into matplotlib are taken
    not to raise. *)
Module Axes.

Record Line : Type := {
  xdata : ndarray;
  ydata : ndarray;
  color : string;
  label : string;
}.

Record t : Type := mk {
  title : string;
  lines : list Line;
  xlim : float64 * float64;
  ylim : float64 * float64;
}.

(** [figure.add_subplot(...)] *)
Definition fresh : t :=
  {| title := ""; lines := []; xlim := (Fin 0, Fin 1); ylim := (Fin 0, Fin 1) |}.

Definition clear (ax : t) : t := fresh.

Definition set_title (s : string) (ax : t) : t :=
  {| title := s; lines := lines ax; xlim := xlim ax; ylim := ylim ax |}.

Definition set_xlim (lo hi : float64) (ax : t) : t :=
  {| title := title ax; lines := lines ax; xlim := (lo, hi); ylim := ylim ax |}.

Definition set_ylim (lo hi : float64) (ax : t) : t :=
  {| title := title ax; lines := lines ax; xlim := xlim ax; ylim := (lo, hi) |}.

Definition plot (l : Line) (ax : t) : t :=
  {| title := title ax; lines := lines ax ++ [l]; xlim := xlim ax; ylim := ylim ax |}.

End Axes.

Module Track.

Record t : Type := mk {
  name : string;
  width : float64;
  color : string;
  curves : list string;
  axis : option Axes.t;
}.

Definition __init__ (name : string) (width : float64) (color : string) : t :=
  {| name := name; width := width; color := color; curves := []; axis := None |}.

(** What a track is configured with (and a template stores): everything
    but the matplotlib axis. *)
Definition layout (self : t) : string * float64 * string * list string :=
  (name self, width self, color self, curves self).

Definition set_width (w : float64) (self : t) : t :=
  {| name := name self; width := w; color := color self;
     curves := curves self; axis := axis self |}.

Definition set_axis (ax : option Axes.t) (self : t) : t :=
  {| name := name self; width := width self; color := color self;
     curves := curves self; axis := ax |}.

Definition set_curves (cs : list string) (self : t) : t :=
  {| name := name self; width := width self; color := color self;
     curves := cs; axis := axis self |}.

Definition add_curve (curve_name : string) (self : t) : t :=
  if decide (curve_name ∈ curves self) then self
  else set_curves (curves self ++ [curve_name]) self.

(** [list.remove] drops the first occurrence. *)
Fixpoint list_remove (x : string) (l : list string) : list string :=
  match l with
  | [] => []
  | y :: rest => if decide (y = x) then rest else y :: list_remove x rest
  end.

Definition remove_curve (curve_name : string) (self : t) : t :=
  if decide (curve_name ∈ curves self)
  then set_curves (list_remove curve_name (curves self)) self
  else self.

End Track.

Module WellSectionCanvas.

Record t : Type := mk {
  depth_range : float64 * float64;
  tracks : list Track.t;
  well_data : option WellLogData.t;
  depth_curve : option string;
  dragging : bool;
  drag_track_idx : option nat;
  drag_start_x : option float64;
  (** [figure.get_size_inches()[0] * figure.dpi] *)
  fig_width : float64;
  (** whether a parent widget was given *)
  parent : bool;
}.

Definition set_depth_range (r : float64 * float64) (self : t) : t :=
  {| depth_range := r; tracks := tracks self; well_data := well_data self;
     depth_curve := depth_curve self; dragging := dragging self;
     drag_track_idx := drag_track_idx self; drag_start_x := drag_start_x self;
     fig_width := fig_width self; parent := parent self |}.

Definition set_tracks (ts : list Track.t) (self : t) : t :=
  {| depth_range := depth_range self; tracks := ts; well_data := well_data self;
     depth_curve := depth_curve self; dragging := dragging self;
     drag_track_idx := drag_track_idx self; drag_start_x := drag_start_x self;
     fig_width := fig_width self; parent := parent self |}.

Definition set_well (w : option WellLogData.t) (dc : option string) (self : t) : t :=
  {| depth_range := depth_range self; tracks := tracks self; well_data := w;
     depth_curve := dc; dragging := dragging self;
     drag_track_idx := drag_track_idx self; drag_start_x := drag_start_x self;
     fig_width := fig_width self; parent := parent self |}.

Definition set_drag (d : bool) (idx : option nat) (x : option float64) (self : t) : t :=
  {| depth_range := depth_range self; tracks := tracks self;
     well_data := well_data self; depth_curve := depth_curve self;
     dragging := d; drag_track_idx := idx; drag_start_x := x;
     fig_width := fig_width self; parent := parent self |}.

Definition default_tracks : list Track.t :=
  [ Track.__init__ "Depth" (Fin 0.5) "black";
    Track.__init__ "GR" (Fin 1.0) "green";
    Track.__init__ "Resistivity" (Fin 1.0) "blue";
    Track.__init__ "Density" (Fin 1.0) "red";
    Track.__init__ "Neutron" (Fin 1.0) "purple" ].

(** [self.tracks[i].axis.<call>]: IndexError when there is no track [i],
    AttributeError when its axis is still None. *)
Definition with_axis (i : nat) (call : Track.t -> Axes.t -> Axes.t) : M t unit :=
  fun self =>
    match tracks self !! i with
    | None => (self, inl IndexError)
    | Some track =>
        match Track.axis track with
        | None => (self, inl AttributeError)
        | Some ax =>
            (set_tracks
               (<[i := Track.set_axis (Some (call track ax)) track]> (tracks self))
               self,
             inr ())
        end
    end.

(** [track.axis = self.figure.add_subplot(gs[i])] and its configuration *)
Definition new_axis (r : float64 * float64) (track : Track.t) : Track.t :=
  Track.set_axis
    (Some (Axes.set_ylim r.2 r.1 (Axes.set_title (Track.name track) Axes.fresh)))
    track.

Definition setup_display : M t unit :=
  modify (fun self =>
    if decide (tracks self = []) then set_tracks default_tracks self else self);;
  self ← get;
  for_ (seq 0 (length (tracks self))) (fun i =>
    modify (fun self =>
      set_tracks (alter (new_axis (depth_range self)) i (tracks self)) self)).

Definition curve_track_map : gmap string nat :=
  list_to_map
    [ ("DEPT", 0); ("DEPTH", 0); ("MD", 0); ("TVD", 0);
      ("GR", 1); ("GR_EDTC", 1); ("CGR", 1);
      ("RT", 2); ("ILD", 2); ("LLD", 2); ("MSFL", 2); ("LLS", 2);
      ("RHOB", 3); ("RHOZ", 3); ("DRHO", 3);
      ("NPHI", 4); ("NPOR", 4); ("TNPH", 4) ]%nat.

Definition _get_track_for_curve (curve_name : string) : nat :=
  default 1%nat (curve_track_map !! curve_name).

Definition curve_colors : gmap string string :=
  list_to_map
    [ ("GR", "green"); ("GR_EDTC", "green");
      ("RHOB", "red"); ("RHOZ", "red");
      ("NPHI", "blue"); ("NPOR", "blue");
      ("RT", "purple"); ("ILD", "purple"); ("LLD", "purple");
      ("DT", "orange"); ("DTC", "orange") ].

(** [np.arange(n)] *)
Definition np_arange (n : nat) : ndarray :=
  (fun k => Fin (inject_Z (Z.of_nat k))) <$> seq 0 n.

(** Truth value of an optional string: None and the empty string are false. *)
Definition truthy (o : option string) : option string :=
  match o with
  | Some s => if decide (s = "") then None else Some s
  | None => None
  end.

(** The body of the [for curve_name in ...get_curve_names()] loop of
    [update_display]. *)
Definition plot_curve (well : WellLogData.t) (depth_data : ndarray)
    (curve_name : string) : M t unit :=
  match WellLogData.get_curve_data well curve_name with
  | None => pass
  | Some curve_data =>
      let track_idx := _get_track_for_curve curve_name in
      self ← get;
      if decide (length (tracks self) <= track_idx)%nat then pass
      else
        let color := default "black" (curve_colors !! curve_name) in
        with_axis track_idx (fun _ =>
          Axes.plot {| Axes.xdata := curve_data; Axes.ydata := depth_data;
                       Axes.color := color; Axes.label := curve_name |});;
        if decide (0 < track_idx)%nat then
          match np_nanmin curve_data, np_nanmax curve_data with
          | Some data_min, Some data_max =>
              if isfinite data_min && isfinite data_max then
                let margin := fmul (fsub data_max data_min) (Fin 0.1) in
                with_axis track_idx (fun _ =>
                  Axes.set_xlim (fsub data_min margin) (fadd data_max margin))
              else pass
          | _, _ => raise ValueError
          end
        else pass
  end.

Definition update_display : M t unit :=
  self ← get;
  match well_data self with
  | None => pass
  | Some well =>
      for_ (seq 0 (length (tracks self))) (fun i =>
        with_axis i (fun track ax =>
          Axes.set_ylim (depth_range self).2 (depth_range self).1
            (Axes.set_title (Track.name track) (Axes.clear ax))));;
      depth_data ←
        match truthy (depth_curve self) ≫= WellLogData.get_curve_data well with
        | Some depth_data => mret depth_data
        | None =>
            df ← not_None (WellLogData.data well);
            mret (np_arange (DataFrame_len df))
        end;
      for_ (WellLogData.get_curve_names well) (plot_curve well depth_data);;
      with_axis 0 (fun _ => Axes.set_xlim (Fin 0) (Fin 1));;
      for_ (seq 1 (length (tracks self) - 1)) (fun i => with_axis i (fun _ ax => ax));;
      for_ (seq 1 (length (tracks self) - 1)) (fun i => with_axis i (fun _ ax => ax))
  end.

Definition set_well_data (well : WellLogData.t) : M t unit :=
  modify (set_well (Some well) (WellLogData._find_depth_curve well));;
  self ← get;
  match truthy (depth_curve self) with
  | Some dc =>
      match WellLogData.get_curve_data well dc with
      | Some depth_data =>
          match np_min depth_data, np_max depth_data with
          | Some lo, Some hi => modify (set_depth_range (lo, hi))
          | _, _ => raise ValueError
          end
      | None => pass
      end
  | None => pass
  end;;
  update_display.

Definition zoom_to_depth_range (min_depth max_depth : float64) : M t unit :=
  modify (set_depth_range (min_depth, max_depth));;
  self ← get;
  for_ (seq 0 (length (tracks self))) (fun i =>
    with_axis i (fun _ => Axes.set_ylim max_depth min_depth)).

Definition fit_to_data : M t unit :=
  self ← get;
  match well_data self, truthy (depth_curve self) with
  | Some well, Some dc =>
      match WellLogData.get_curve_data well dc with
      | Some depth_data =>
          match np_min depth_data, np_max depth_data with
          | Some lo, Some hi =>
              modify (set_depth_range (lo, hi));;
              zoom_to_depth_range lo hi
          | _, _ => raise ValueError
          end
      | None => pass
      end
  | _, _ => pass
  end.

(** What a mouse event carries.  [button] is 1, 2, 3 for a click and
    'up' or 'down' for the wheel. *)
Inductive Button : Type :=
| MouseButton (n : nat)
| ScrollUp
| ScrollDown.

Record MouseEvent : Type := {
  button : Button;
  inaxes : bool;
  x : float64;
  xdata : option float64;
  ydata : option float64;
}.

(** Calls a handler makes on the parent widget. *)
Inductive ParentCall : Type :=
| update_depth_cursor (depth : option float64)
| update_depth_info (depth : option float64).

(** The zoom of [on_scroll] by a factor around the centre of the range. *)
Definition zoom_about_center (factor : Q) : M t unit :=
  self ← get;
  let depth_span := fsub (depth_range self).2 (depth_range self).1 in
  let center := fdiv (fadd (depth_range self).1 (depth_range self).2) (Fin 2) in
  let new_span := fmul depth_span (Fin factor) in
  zoom_to_depth_range (fsub center (fdiv new_span (Fin 2)))
                      (fadd center (fdiv new_span (Fin 2))).

Definition on_scroll (event : MouseEvent) : M t unit :=
  match button event with
  | ScrollUp => zoom_about_center 0.9
  | ScrollDown => zoom_about_center 1.1
  | MouseButton _ => pass
  end.

Definition on_release (event : MouseEvent) : M t unit :=
  self ← get;
  if dragging self && bool_decide (is_Some (drag_track_idx self)) then
    modify (set_drag false None None)
  else pass.

Definition on_motion (event : MouseEvent) : M t (option ParentCall) :=
  self ← get;
  match dragging self, drag_track_idx self, xdata event with
  | true, Some idx, Some current_x =>
      start ← not_None (drag_start_x self);
      let delta_x := fsub current_x start in
      let width_change := fmul delta_x (Fin 0.01) in
      match tracks self !! idx with
      | Some track =>
          let new_width := py_max (Fin 0.1) (fadd (Track.width track) width_change) in
          modify (set_tracks (<[idx := Track.set_width new_width track]> (tracks self)));;
          setup_display;;
          self ← get;
          match well_data self with
          | Some well => set_well_data well
          | None => pass
          end;;
          mret None
      | None => mret None
      end
  | _, _, _ =>
      if inaxes event && parent self
      then mret (Some (update_depth_info (ydata event)))
      else mret None
  end.

(** [sum(track.width for track in self.tracks)] *)
Definition total_width (tracks : list Track.t) : float64 :=
  foldl (fun acc track => fadd acc (Track.width track)) (Fin 0) tracks.

(** The loop of [_get_track_at_position] from track [i] on, whose left
    boundary is at [cumulative_width]. *)
Fixpoint track_at (x_pixel fig_width total_width cumulative_width : float64)
    (i : nat) (tracks : list Track.t) : option nat :=
  match tracks with
  | [] => None
  | track :: rest =>
      let track_width_pixels :=
        fmul (fdiv (Track.width track) total_width) fig_width in
      if fleb cumulative_width x_pixel
         && fltb x_pixel (fadd cumulative_width track_width_pixels)
      then
        if fleb (fsub (fadd cumulative_width track_width_pixels) (Fin 5)) x_pixel
        then Some i
        else None
      else
        track_at x_pixel fig_width total_width
                 (fadd cumulative_width track_width_pixels) (S i) rest
  end.

(** The widths are Python floats: the division by a total of zero, in
    the first round of the loop, raises ZeroDivisionError. *)
Definition _get_track_at_position (x_pixel : float64) (x_data : option float64)
    : M t (option nat) :=
  self ← get;
  if decide (tracks self = []) then mret None
  else if feqb (total_width (tracks self)) (Fin 0) then raise ZeroDivisionError
  else mret (track_at x_pixel (fig_width self) (total_width (tracks self))
                      (Fin 0) 0 (tracks self)).

Definition on_click (event : MouseEvent) : M t (option ParentCall) :=
  match button event, inaxes event with
  | MouseButton 1, true =>
      track_idx ← _get_track_at_position (x event) (xdata event);
      match track_idx with
      | Some (S i) =>
          modify (set_drag true (Some (S i)) (xdata event));;
          mret None
      | _ =>
          self ← get;
          if parent self
          then mret (Some (update_depth_cursor (ydata event)))
          else mret None
      end
  | _, _ => mret None
  end.

(** The canvas as [__init__] leaves it; [fig_width] is the width of the
    figure in pixels, [width * dpi]. *)
Definition __init__ (parent : bool) (fig_width : float64) : t * (exn + unit) :=
  setup_display
    {| depth_range := (Fin 0, Fin 1000); tracks := []; well_data := None;
       depth_curve := None; dragging := false; drag_track_idx := None;
       drag_start_x := None; fig_width := fig_width; parent := parent |}.

End WellSectionCanvas.

(** A canvas bound to a well whose track list is empty: what a template
    load that fails after [self.canvas.tracks = []] leaves behind. *)
Definition canvas_without_tracks : WellSectionCanvas.t :=
  {| WellSectionCanvas.depth_range := (Fin 1000, Fin 1001);
     WellSectionCanvas.tracks := [];
     WellSectionCanvas.well_data := Some well_with_null;
     WellSectionCanvas.depth_curve := Some "DEPT";
     WellSectionCanvas.dragging := false;
     WellSectionCanvas.drag_track_idx := None;
     WellSectionCanvas.drag_start_x := None;
     WellSectionCanvas.fig_width := Fin 1200;
     WellSectionCanvas.parent := true |}.

(** A canvas as the widget creates it and [setup_display] fills it,
    bound to a well. *)
Definition canvas_bound : WellSectionCanvas.t :=
  {| WellSectionCanvas.depth_range := (Fin 1000, Fin 1001);
     WellSectionCanvas.tracks :=
       WellSectionCanvas.new_axis (Fin 1000, Fin 1001)
         <$> WellSectionCanvas.default_tracks;
     WellSectionCanvas.well_data := Some well_with_null;
     WellSectionCanvas.depth_curve := Some "DEPT";
     WellSectionCanvas.dragging := false;
     WellSectionCanvas.drag_track_idx := None;
     WellSectionCanvas.drag_start_x := None;
     WellSectionCanvas.fig_width := Fin 1200;
     WellSectionCanvas.parent := true |}.

(** The bound canvas in the middle of a drag of the boundary of track 1,
    and a motion far to the left. *)
Definition canvas_dragging : WellSectionCanvas.t :=
  WellSectionCanvas.set_drag true (Some 1%nat) (Some (Fin 0.5)) canvas_bound.

Definition motion_left : WellSectionCanvas.MouseEvent :=
  {| WellSectionCanvas.button := WellSectionCanvas.MouseButton 1;
     WellSectionCanvas.inaxes := true;
     WellSectionCanvas.x := Fin 40;
     WellSectionCanvas.xdata := Some (Fin (-200));
     WellSectionCanvas.ydata := Some (Fin 1000.2) |}.

(** A directory with one readable LAS file and one that lasio rejects,
    and the stem of the paths used below. *)
Definition las_W3 : lasio.LASFile :=
  {| lasio.well_WELL := Some "W-3";
     lasio.curves :=
       [ {| lasio.mnemonic := "DEPT"; lasio.unit := Some "M";
            lasio.descr := Some "Depth"; lasio.data := Some [Fin 10; Fin 11] |};
         {| lasio.mnemonic := "GR"; lasio.unit := Some "GAPI";
            lasio.descr := None; lasio.data := Some [Fin 55; NaN] |} ] |}.

Definition demo_lasio_read (file_path : string) : option lasio.LASFile :=
  if decide (file_path = "wells/w3.las") then Some las_W3 else None.

Definition demo_Path_stem (file_path : string) : string :=
  if decide (file_path = "wells/w3.las") then "w3" else "broken".

Module EnhancedWellSectionWidget.

(** The widget, as its handlers for the depth range and the derivations
    use it: the canvas, the well selected, the two line edits and the
    labels.  [current_well], when set, is the object the canvas is bound
    to: [on_well_selected] binds it, and nothing binds the canvas to
    another well. *)
Record t : Type := mk {
  current_well : option WellLogData.t;
  canvas : WellSectionCanvas.t;
  depth_cursor : option float64;
  min_depth_edit : string;
  max_depth_edit : string;
  status_label : string;
}.

Definition set_canvas (c : WellSectionCanvas.t) (self : t) : t :=
  {| current_well := current_well self; canvas := c;
     depth_cursor := depth_cursor self;
     min_depth_edit := min_depth_edit self; max_depth_edit := max_depth_edit self;
     status_label := status_label self |}.

Definition set_status (text : string) (self : t) : t :=
  {| current_well := current_well self; canvas := canvas self;
     depth_cursor := depth_cursor self;
     min_depth_edit := min_depth_edit self; max_depth_edit := max_depth_edit self;
     status_label := text |}.

Definition set_depth_edits (lo hi : string) (self : t) : t :=
  {| current_well := current_well self; canvas := canvas self;
     depth_cursor := depth_cursor self;
     min_depth_edit := lo; max_depth_edit := hi;
     status_label := status_label self |}.

(** An assignment into the selected well is seen through the canvas,
    which holds the same object. *)
Definition set_current_well (w : WellLogData.t) (self : t) : t :=
  {| current_well := Some w;
     canvas := WellSectionCanvas.set_well (Some w)
                 (WellSectionCanvas.depth_curve (canvas self)) (canvas self);
     depth_cursor := depth_cursor self;
     min_depth_edit := min_depth_edit self; max_depth_edit := max_depth_edit self;
     status_label := status_label self |}.

(** [self.canvas.<method>(...)] *)
Definition on_canvas {A} (m : M WellSectionCanvas.t A) : M t A :=
  fun self =>
    let '(c, r) := m (canvas self) in (set_canvas c self, r).

Section text.

(** [float(text)], None when it raises ValueError, and the format
    [f"{x:.0f}"]. *)
Variable float : string -> option float64.
Variable format_0f : float64 -> string.

Definition parse_float (text : string) : M t float64 :=
  match float text with
  | Some x => mret x
  | None => raise ValueError
  end.

Definition update_depth_range : M t unit :=
  try_except
    (self ← get;
     min_depth ← parse_float (min_depth_edit self);
     max_depth ← parse_float (max_depth_edit self);
     if fltb min_depth max_depth then
       on_canvas (WellSectionCanvas.zoom_to_depth_range min_depth max_depth);;
       modify (set_status ("Depth range: " ++ format_0f min_depth ++ " - "
                           ++ format_0f max_depth ++ " ft"))
     else modify (set_status "Invalid depth range"))
    ValueError
    (modify (set_status "Invalid depth values")).

Definition update_depth_inputs : M t unit :=
  modify (fun self =>
    let '(min_d, max_d) := WellSectionCanvas.depth_range (canvas self) in
    set_depth_edits (format_0f min_d) (format_0f max_d) self).

Definition fit_to_data : M t unit :=
  on_canvas WellSectionCanvas.fit_to_data;;
  update_depth_inputs;;
  modify (set_status "Fitted to data").

Definition zoom_in : M t unit :=
  on_canvas (WellSectionCanvas.zoom_about_center 0.7);;
  update_depth_inputs.

Definition zoom_out : M t unit :=
  on_canvas (WellSectionCanvas.zoom_about_center 1.4);;
  update_depth_inputs.

End text.

(** [self.current_well.curves[name] = values] with its unit and
    description. *)
Definition store_curve (name : string) (values : ndarray) (unit descr : string)
    (well : WellLogData.t) : WellLogData.t :=
  {| WellLogData.name := WellLogData.name well;
     WellLogData.data := WellLogData.data well;
     WellLogData.curves := <[name := values]> (WellLogData.curves well);
     WellLogData.units := <[name := unit]> (WellLogData.units well);
     WellLogData.descriptions := <[name := descr]> (WellLogData.descriptions well) |}.

Definition calculate_shale_volume : M t unit :=
  self ← get;
  match current_well self with
  | None => pass
  | Some well =>
      let '(well, vsh) :=
        WellLogData.calculate_shale_volume well WellLogData.default_gr_curve
          WellLogData.default_gr_clean WellLogData.default_gr_shale in
      match vsh with
      | None => modify (set_status "GR curve not found for shale volume calculation")
      | Some vsh =>
          modify (set_current_well
                    (store_curve "VSH" vsh "fraction" "Shale Volume" well));;
          on_canvas WellSectionCanvas.update_display;;
          modify (set_status "Shale volume calculated")
      end
  end.

Definition calculate_porosity : M t unit :=
  self ← get;
  match current_well self with
  | None => pass
  | Some well =>
      let '(well, phi) :=
        WellLogData.calculate_porosity well WellLogData.default_density_curve
          WellLogData.default_fluid_density WellLogData.default_matrix_density in
      match phi with
      | None => modify (set_status "RHOB curve not found for porosity calculation")
      | Some phi =>
          modify (set_current_well (store_curve "PHI" phi "fraction" "Porosity" well));;
          on_canvas WellSectionCanvas.update_display;;
          modify (set_status "Porosity calculated")
      end
  end.

(** The dict [json.load] returns for a template file.  A key may be
    missing; the values have the types [save_template] writes. *)
Record track_data : Type := {
  track_name : option string;
  track_width : option float64;
  track_color : option string;
  track_curves : option (list string);
}.

Record template_data : Type := {
  template_name : option string;
  template_tracks : option (list track_data);
}.

(** [d[key]] *)
Definition item {S A} (entry : option A) : M S A :=
  match entry with
  | Some a => mret a
  | None => raise KeyError
  end.

(** [try: m except Exception: handler] *)
Definition try_except_Exception {S} (m handler : M S unit) : M S unit :=
  fun s =>
    match m s with
    | (s', inl _) => handler s'
    | (s', inr a) => (s', inr a)
    end.

(** [load_template] once a file is chosen in the dialog; [loaded] is what
    opening the file and [json.load] give.  The message box of the
    handler leaves the widget as it is. *)
Definition load_template (loaded : exn + template_data) : M t unit :=
  try_except_Exception
    (template_data ← match loaded with
                     | inl e => raise e
                     | inr d => mret d
                     end;
     on_canvas (modify (WellSectionCanvas.set_tracks []));;
     track_list ← item (template_tracks template_data);
     for_ track_list (fun track_data =>
       name ← item (track_name track_data);
       width ← item (track_width track_data);
       color ← item (track_color track_data);
       let track := Track.__init__ name width color in
       curves ← item (track_curves track_data);
       let track := Track.set_curves curves track in
       on_canvas (modify (fun c =>
         WellSectionCanvas.set_tracks (WellSectionCanvas.tracks c ++ [track])%list c)));;
     on_canvas WellSectionCanvas.setup_display;;
     self ← get;
     match current_well self with
     | Some well => on_canvas (WellSectionCanvas.set_well_data well)
     | None => pass
     end;;
     name ← item (template_name template_data);
     modify (set_status ("Template '" ++ name ++ "' loaded")))
    pass.

End EnhancedWellSectionWidget.

(** A widget showing the bound canvas, with a range typed into the edits. *)
Definition widget_with_edits (lo hi : string) : EnhancedWellSectionWidget.t :=
  {| EnhancedWellSectionWidget.current_well := Some well_with_null;
     EnhancedWellSectionWidget.canvas := canvas_bound;
     EnhancedWellSectionWidget.depth_cursor := None;
     EnhancedWellSectionWidget.min_depth_edit := lo;
     EnhancedWellSectionWidget.max_depth_edit := hi;
     EnhancedWellSectionWidget.status_label := "Ready" |}.

(** A template file holding a name and no tracks. *)
Definition template_without_tracks : EnhancedWellSectionWidget.template_data :=
  {| EnhancedWellSectionWidget.template_name := Some "Basic";
     EnhancedWellSectionWidget.template_tracks := None |}.

(** A template of two tracks. *)
Definition template_two_tracks : EnhancedWellSectionWidget.template_data :=
  {| EnhancedWellSectionWidget.template_name := Some "Basic";
     EnhancedWellSectionWidget.template_tracks :=
       Some [ {| EnhancedWellSectionWidget.track_name := Some "Depth";
                 EnhancedWellSectionWidget.track_width := Some (Fin 0.5);
                 EnhancedWellSectionWidget.track_color := Some "black";
                 EnhancedWellSectionWidget.track_curves := Some [] |};
              {| EnhancedWellSectionWidget.track_name := Some "GR";
                 EnhancedWellSectionWidget.track_width := Some (Fin 1);
                 EnhancedWellSectionWidget.track_color := Some "green";
                 EnhancedWellSectionWidget.track_curves := Some ["GR"] |} ] |}.

(** The values of [float] and of the [.0f] format on the texts and
    numbers of the examples. *)
Definition demo_float (text : string) : option float64 :=
  if decide (text = "100") then Some (Fin 100)
  else if decide (text = "500") then Some (Fin 500)
  else if decide (text = "1000") then Some (Fin 1000)
  else if decide (text = "nan") then Some NaN
  else None.

Definition demo_format_0f (x : float64) : string :=
  if feqb x (Fin 100) then "100"
  else if feqb x (Fin 500) then "500"
  else if feqb x (Fin 1000) then "1000"
  else "?".

(** ** Text *)

Definition newline : ascii := "010".
Definition carriage_return : ascii := "013".
Definition quote : ascii := "034".
Definition backslash : ascii := "092".
Definition slash : ascii := "/".
Definition star : ascii := "*".

(** [prefix + rest == s]: the rest of [s] after [prefix]. *)
Fixpoint strip_prefix (prefix s : string) : option string :=
  match prefix, s with
  | EmptyString, _ => Some s
  | String a prefix, String b s =>
      if Ascii.eqb a b then strip_prefix prefix s else None
  | String _ _, EmptyString => None
  end.

(** [needle in s] *)
Fixpoint contains (needle s : string) : bool :=
  match strip_prefix needle s with
  | Some _ => true
  | None =>
      match s with
      | EmptyString => false
      | String _ rest => contains needle rest
      end
  end.

(** Whitespace of [str.strip], and the line boundaries of
    [str.splitlines], among the code points below 256. *)
Definition isspace (c : ascii) : bool :=
  let n := nat_of_ascii c in
  ((9 <=? n) && (n <=? 13) || (28 <=? n) && (n <=? 32)
   || (n =? 133) || (n =? 160))%nat.

Definition is_line_boundary (c : ascii) : bool :=
  let n := nat_of_ascii c in
  ((10 <=? n) && (n <=? 13) || (28 <=? n) && (n <=? 30) || (n =? 133))%nat.

(** [bool(c.strip())]: some character is not whitespace. *)
Fixpoint strip_nonempty (c : string) : bool :=
  match c with
  | EmptyString => false
  | String a rest => negb (isspace a) || strip_nonempty rest
  end.

(** [c.splitlines()]; [line] is the current line, reversed. *)
Fixpoint splitlines_from (line s : string) : list string :=
  match s with
  | EmptyString =>
      match line with
      | EmptyString => []
      | _ => [String.rev_app line ""]
      end
  | String a rest =>
      if is_line_boundary a then
        String.rev_app line "" ::
        match a, rest with
        | "013"%char, String "010"%char rest' => splitlines_from "" rest'
        | _, _ => splitlines_from "" rest
        end
      else splitlines_from (String a line) rest
  end.

Definition splitlines (s : string) : list string := splitlines_from "" s.

(** ** JSON ([json.dump], [json.loads])

    The documents of the workspace file: null, booleans, integers,
    floats, strings, arrays and objects with their keys in insertion
    order.  Strings hold code points below 256; an escape of a code
    point beyond is not read.  The nesting is not bounded by a recursion
    limit. *)
Module json.

Inductive value : Type :=
| Null
| Bool (b : bool)
| Int (n : Z)
| Float (x : float64)
| Str (s : string)
| List (items : list value)
| Dict (items : list (string * value)).

(** [d.get(key)] on the items of a dict *)
Fixpoint lookup (key : string) (items : list (string * value)) : option value :=
  match items with
  | [] => None
  | (k, v) :: rest => if String.eqb k key then Some v else lookup key rest
  end.

(** [d[key] = v]: a key already there keeps its place. *)
Fixpoint store (key : string) (v : value) (items : list (string * value))
    : list (string * value) :=
  match items with
  | [] => [(key, v)]
  | (k, v') :: rest =>
      if String.eqb k key then (k, v) :: rest else (k, v') :: store key v rest
  end.

(** [P] holds of [v] and of every value inside it. *)
Fixpoint holds (P : value -> Prop) (v : value) : Prop :=
  P v
  /\ match v with
     | List items =>
         (fix each (l : list value) : Prop :=
            match l with
            | [] => True
            | x :: l => holds P x /\ each l
            end) items
     | Dict items =>
         (fix each (l : list (string * value)) : Prop :=
            match l with
            | [] => True
            | kv :: l => holds P kv.2 /\ each l
            end) items
     | _ => True
     end.

(** The dicts of Python hold each key once. *)
Definition keys_once (v : value) : Prop :=
  match v with
  | Dict items => NoDup items.*1
  | _ => True
  end.

Section floats.

(** [float.__repr__] on a finite float, and [float] on the text of a
    JSON number with a fraction or an exponent. *)
Variable float_repr : float64 -> string.
Variable float : string -> float64.

(** *** Writing, as [json.dump(obj, f, indent=2, ensure_ascii=False)] *)

Definition hex_digit (n : nat) : ascii :=
  match String.get n "0123456789abcdef" with
  | Some c => c
  | None => "0"%char
  end.

Definition escape_char (c : ascii) : string :=
  let n := nat_of_ascii c in
  if (n =? 92)%nat then String backslash (String backslash "")
  else if (n =? 34)%nat then String backslash (String quote "")
  else if (n =? 8)%nat then String backslash "b"
  else if (n =? 12)%nat then String backslash "f"
  else if (n =? 10)%nat then String backslash "n"
  else if (n =? 13)%nat then String backslash "r"
  else if (n =? 9)%nat then String backslash "t"
  else if (n <? 32)%nat then
    String backslash
      ("u00" ++ String (hex_digit (n / 16)) (String (hex_digit (n mod 16)) ""))
  else String c "".

Fixpoint escape (s : string) : string :=
  match s with
  | EmptyString => ""
  | String c rest => escape_char c ++ escape rest
  end.

Definition dump_string (s : string) : string :=
  String quote (escape s ++ String quote "").

(** [floatstr] of the encoder *)
Definition floatstr (x : float64) : string :=
  match x with
  | NaN => "NaN"
  | PInf => "Infinity"
  | NInf => "-Infinity"
  | Fin _ => float_repr x
  end.

(** A newline and the indentation of a nesting level. *)
Fixpoint spaces (n : nat) : string :=
  match n with
  | O => ""
  | S n => String " " (spaces n)
  end.

Definition newline_indent (level : nat) : string :=
  String newline (spaces (2 * level)).

Fixpoint join (sep : string) (parts : list string) : string :=
  match parts with
  | [] => ""
  | [p] => p
  | p :: rest => p ++ sep ++ join sep rest
  end.

Fixpoint dump (level : nat) (v : value) : string :=
  match v with
  | Null => "null"
  | Bool true => "true"
  | Bool false => "false"
  | Int n => pretty n
  | Float x => floatstr x
  | Str s => dump_string s
  | List [] => "[]"
  | List items =>
      "[" ++ newline_indent (S level)
      ++ join ("," ++ newline_indent (S level)) (map (dump (S level)) items)
      ++ newline_indent level ++ "]"
  | Dict [] => "{}"
  | Dict items =>
      "{" ++ newline_indent (S level)
      ++ join ("," ++ newline_indent (S level))
           (map (fun kv => dump_string kv.1 ++ ": " ++ dump (S level) kv.2) items)
      ++ newline_indent level ++ "}"
  end.

Definition dumps (v : value) : string := dump 0 v.

(** *** Reading, as [json.loads(text)] *)

Definition is_ws (c : ascii) : bool :=
  let n := nat_of_ascii c in
  ((n =? 32) || (n =? 9) || (n =? 10) || (n =? 13))%nat.

Fixpoint skip_ws (s : string) : string :=
  match s with
  | String c rest => if is_ws c then skip_ws rest else s
  | EmptyString => s
  end.

Definition hex_value (c : ascii) : option nat :=
  let n := nat_of_ascii c in
  if ((48 <=? n) && (n <=? 57))%nat then Some (n - 48)%nat
  else if ((97 <=? n) && (n <=? 102))%nat then Some (n - 87)%nat
  else if ((65 <=? n) && (n <=? 70))%nat then Some (n - 55)%nat
  else None.

(** The character of a [\uXXXX] escape, for code points below 256. *)
Definition parse_u (s : string) : option (ascii * string) :=
  match s with
  | String a (String b (String c (String d rest))) =>
      match hex_value a, hex_value b, hex_value c, hex_value d with
      | Some 0%nat, Some 0%nat, Some h, Some l =>
          Some (ascii_of_nat (16 * h + l), rest)
      | _, _, _, _ => None
      end
  | _ => None
  end.

(** The text of a string, after its opening quote; [acc] is what was
    read, reversed.  Raw control characters are rejected. *)
Fixpoint parse_string (acc s : string) : option (string * string) :=
  match s with
  | EmptyString => None
  | String c rest =>
      if Ascii.eqb c quote then Some (String.rev_app acc "", rest)
      else if Ascii.eqb c backslash then
        match rest with
        | EmptyString => None
        | String e rest' =>
            let simple (r : ascii) := parse_string (String r acc) rest' in
            if Ascii.eqb e quote then simple quote
            else if Ascii.eqb e backslash then simple backslash
            else if Ascii.eqb e "/" then simple "/"%char
            else if Ascii.eqb e "b" then simple "008"%char
            else if Ascii.eqb e "f" then simple "012"%char
            else if Ascii.eqb e "n" then simple "010"%char
            else if Ascii.eqb e "r" then simple "013"%char
            else if Ascii.eqb e "t" then simple "009"%char
            else if Ascii.eqb e "u" then
              match rest' with
              | String a (String b (String c' (String d rest'')))  =>
                  match parse_u rest' with
                  | Some (r, _) => parse_string (String r acc) rest''
                  | None => None
                  end
              | _ => None
              end
            else None
        end
      else if (nat_of_ascii c <? 32)%nat then None
      else parse_string (String c acc) rest
  end.

Definition is_digit (c : ascii) : bool :=
  let n := nat_of_ascii c in ((48 <=? n) && (n <=? 57))%nat.

(** The digits at the head of [s], and the rest. *)
Fixpoint scan_digits (s : string) : string * string :=
  match s with
  | String c rest =>
      if is_digit c
      then let '(digits, rest') := scan_digits rest in (String c digits, rest')
      else ("", s)
  | EmptyString => ("", s)
  end.

(** The three groups of the number pattern, each with the rest: an
    optional minus and either a zero or digits that start with none; a
    point and digits; an [e] or [E], an optional sign and digits. *)
Definition scan_int (s : string) : option (string * string) :=
  let '(sign, s) :=
    match s with
    | String c rest => if Ascii.eqb c "-" then ("-", rest) else ("", s)
    | EmptyString => ("", s)
    end in
  match s with
  | String c rest =>
      if Ascii.eqb c "0" then Some (sign ++ "0", rest)
      else if is_digit c then
        let '(digits, rest') := scan_digits rest in
        Some (sign ++ String c digits, rest')
      else None
  | EmptyString => None
  end.

Definition scan_frac (s : string) : string * string :=
  match s with
  | String c rest =>
      if Ascii.eqb c "." then
        match scan_digits rest with
        | (EmptyString, _) => ("", s)
        | (digits, rest') => (String c digits, rest')
        end
      else ("", s)
  | EmptyString => ("", s)
  end.

Definition scan_exp (s : string) : string * string :=
  match s with
  | String c rest =>
      if Ascii.eqb c "e" || Ascii.eqb c "E" then
        let '(sign, rest1) :=
          match rest with
          | String d rest' =>
              if Ascii.eqb d "-" || Ascii.eqb d "+" then (String d "", rest')
              else ("", rest)
          | EmptyString => ("", rest)
          end in
        match scan_digits rest1 with
        | (EmptyString, _) => ("", s)
        | (digits, rest') => (String c (sign ++ digits), rest')
        end
      else ("", s)
  | EmptyString => ("", s)
  end.

(** [int(text)] on a run of digits, [acc] being the value read so far,
    and on the first group of the pattern. *)
Fixpoint digits_value (acc : Z) (digits : string) : Z :=
  match digits with
  | String c rest => digits_value (10 * acc + Z.of_nat (nat_of_ascii c - 48)) rest
  | EmptyString => acc
  end.

Definition int (text : string) : Z :=
  match text with
  | String c rest =>
      if Ascii.eqb c "-" then (- digits_value 0 rest)%Z else digits_value 0 text
  | EmptyString => 0%Z
  end.

(** A number: a float as soon as it has a fraction or an exponent. *)
Definition scan_number (s : string) : option (value * string) :=
  match scan_int s with
  | None => None
  | Some (integer, rest) =>
      let '(frac, rest) := scan_frac rest in
      let '(exp, rest) := scan_exp rest in
      match frac, exp with
      | EmptyString, EmptyString => Some (Int (int integer), rest)
      | _, _ => Some (Float (float (integer ++ frac ++ exp)), rest)
      end
  end.

(** The constants the decoder reads besides [null], [true] and [false]. *)
Definition scan_constant (s : string) : option (value * string) :=
  match strip_prefix "NaN" s, strip_prefix "Infinity" s,
        strip_prefix "-Infinity" s with
  | Some rest, _, _ => Some (Float NaN, rest)
  | _, Some rest, _ => Some (Float PInf, rest)
  | _, _, Some rest => Some (Float NInf, rest)
  | _, _, _ => None
  end.

(** What is neither a string nor an array nor an object. *)
Definition scan_literal (s : string) : option (value * string) :=
  match strip_prefix "null" s, strip_prefix "true" s, strip_prefix "false" s with
  | Some rest, _, _ => Some (Null, rest)
  | _, Some rest, _ => Some (Bool true, rest)
  | _, _, Some rest => Some (Bool false, rest)
  | _, _, _ =>
      match scan_number s with
      | Some found => Some found
      | None => scan_constant s
      end
  end.

(** The recursive descent; [fuel] bounds the nesting and the number of
    items, and twice the length of the text is enough. *)
Fixpoint parse_value (fuel : nat) (s : string) : option (value * string) :=
  match fuel with
  | O => None
  | S fuel =>
      match s with
      | EmptyString => None
      | String c rest =>
          if Ascii.eqb c quote then
            match parse_string "" rest with
            | Some (str, rest') => Some (Str str, rest')
            | None => None
            end
          else if Ascii.eqb c "{" then
            match skip_ws rest with
            | String d rest' =>
                if Ascii.eqb d "}" then Some (Dict [], rest')
                else parse_members fuel [] (String d rest')
            | EmptyString => None
            end
          else if Ascii.eqb c "[" then
            match skip_ws rest with
            | String d rest' =>
                if Ascii.eqb d "]" then Some (List [], rest')
                else parse_items fuel [] (String d rest')
            | EmptyString => None
            end
          else scan_literal s
      end
  end
with parse_items (fuel : nat) (acc : list value) (s : string)
    : option (value * string) :=
  match fuel with
  | O => None
  | S fuel =>
      match parse_value fuel s with
      | Some (v, rest) =>
          match skip_ws rest with
          | String d rest' =>
              if Ascii.eqb d "," then parse_items fuel (acc ++ [v]) (skip_ws rest')
              else if Ascii.eqb d "]" then Some (List (acc ++ [v]), rest')
              else None
          | EmptyString => None
          end
      | None => None
      end
  end
with parse_members (fuel : nat) (acc : list (string * value)) (s : string)
    : option (value * string) :=
  match fuel with
  | O => None
  | S fuel =>
      match s with
      | String c rest =>
          if Ascii.eqb c quote then
            match parse_string "" rest with
            | Some (key, rest) =>
                match skip_ws rest with
                | String d rest =>
                    if Ascii.eqb d ":" then
                      match parse_value fuel (skip_ws rest) with
                      | Some (v, rest) =>
                          match skip_ws rest with
                          | String d rest' =>
                              if Ascii.eqb d "," then
                                parse_members fuel (store key v acc) (skip_ws rest')
                              else if Ascii.eqb d "}" then
                                Some (Dict (store key v acc), rest')
                              else None
                          | EmptyString => None
                          end
                      | None => None
                      end
                    else None
                | EmptyString => None
                end
            | None => None
            end
          else None
      | EmptyString => None
      end
  end.

Definition loads (text : string) : option value :=
  let text := skip_ws text in
  match parse_value (2 * String.length text + 1) text with
  | Some (v, rest) =>
      match skip_ws rest with
      | EmptyString => Some v
      | _ => None
      end
  | None => None
  end.

(** What follows a value in a written document: nothing, a comma or
    whitespace. *)
Definition ends_value (rest : string) : bool :=
  match rest with
  | EmptyString => true
  | String c _ => Ascii.eqb c "," || is_ws c
  end.

(** The text written for the float [x] is a number that is read as [x],
    whatever follows the value. *)
Definition reads_back (v : value) : Prop :=
  match v with
  | Float (Fin q) =>
      forall rest, ends_value rest = true ->
        scan_number (float_repr (Fin q) ++ rest) = Some (Float (Fin q), rest)
  | _ => True
  end.

End floats.

End json.

(** ** geoflow/ui/workspace.py *)

(** The substitution of [re.sub(r'/\*.*?\*/', '', s, flags=re.S)],
    left to right.  [skipped] is None outside a comment; after a [/*]
    it holds the characters passed since, reversed, which are put back
    when the text ends before any [*/]. *)
Fixpoint strip_block (skipped : option string) (s : string) : string :=
  match s with
  | EmptyString =>
      match skipped with
      | None => ""
      | Some passed => "/*" ++ String.rev_app passed ""
      end
  | String a rest =>
      match skipped with
      | None =>
          match rest with
          | String b rest' =>
              if Ascii.eqb a slash && Ascii.eqb b star
              then strip_block (Some "") rest'
              else String a (strip_block None rest)
          | EmptyString => String a ""
          end
      | Some passed =>
          match rest with
          | String b rest' =>
              if Ascii.eqb a star && Ascii.eqb b slash
              then strip_block None rest'
              else strip_block (Some (String a passed)) rest
          | EmptyString => "/*" ++ String.rev_app (String a passed) ""
          end
      end
  end.

(** The substitution of [re.sub(r'//.*$', '', s, flags=re.M)]: from a
    [//] up to the end of the line, the newline staying. *)
Fixpoint strip_line (in_comment : bool) (s : string) : string :=
  match s with
  | EmptyString => ""
  | String a rest =>
      if in_comment then
        if Ascii.eqb a newline then String a (strip_line false rest)
        else strip_line true rest
      else
        match rest with
        | String b rest' =>
            if Ascii.eqb a slash && Ascii.eqb b slash
            then strip_line true rest'
            else String a (strip_line false rest)
        | EmptyString => String a ""
        end
  end.

Definition _strip_json_comments (s : string) : string :=
  strip_line false (strip_block None s).

(** What a file opened for reading in text mode hands out: [\r\n] and
    [\r] come as [\n]. *)
Fixpoint universal_newlines (s : string) : string :=
  match s with
  | EmptyString => ""
  | String a rest =>
      if Ascii.eqb a carriage_return then
        String newline
          match rest with
          | String b rest' =>
              if Ascii.eqb b newline then universal_newlines rest'
              else universal_newlines rest
          | EmptyString => ""
          end
      else String a (universal_newlines rest)
  end.

(** The first [n] characters of [s]. *)
Fixpoint string_take (n : nat) (s : string) : string :=
  match n, s with
  | S n, String a rest => String a (string_take n rest)
  | _, _ => ""
  end.

Module WorkspaceState.

(** The state next to the files it is saved to: [path] is
    [project_path / 'workspace.json']. *)
Record t : Type := mk {
  project_path : string;
  state : json.value;
}.

Definition path (self : t) : string := project_path self ++ "/workspace.json".

(** [self.path.with_suffix('.tmp')] *)
Definition tmp (self : t) : string := project_path self ++ "/workspace.tmp".

Definition default_state : json.value :=
  json.Dict [("open_views", json.List []); ("layout", json.Dict []);
             ("last_opened", json.Null)].

Definition __init__ (project_path : string) : t :=
  {| project_path := project_path; state := default_state |}.

Definition set_state (v : json.value) (self : t) : t :=
  {| project_path := project_path self; state := v |}.

(** The files, by path, each with its text. *)
Abbreviation files := (gmap string string).

(** How far the file system lets a [save] get: [open] raises; a write
    raises after some characters went to the temporary file (as
    [json.dump] does on a state it cannot write); [replace] raises;
    or nothing does. *)
Inductive outcome : Type :=
| OpenFails
| WriteFails (written : nat)
| ReplaceFails
| Done.

(** The lines of a top-level [_comment] string that has more than
    whitespace, and the [//] lines written for them in front of the
    document. *)
Definition comment_lines (items : list (string * json.value)) : list string :=
  match json.lookup "_comment" items with
  | Some (json.Str c) => if strip_nonempty c then splitlines c else []
  | _ => []
  end.

Definition header (items : list (string * json.value)) : string :=
  String.concat ""
    (map (fun ln => "// " ++ ln ++ String newline "") (comment_lines items)).

Section floats.
Variable float_repr : float64 -> string.
Variable float : string -> float64.

(** [readable] is false when [read_text] raises.  Returns the object
    after the call and the success flag. *)
Definition load (self : t) (fs : files) (readable : bool) : t * bool :=
  match fs !! path self with
  | None => (self, false)
  | Some raw =>
      if readable then
        let raw := universal_newlines raw in
        let text := _strip_json_comments raw in
        match json.loads float text with
        | Some v => (set_state v self, true)
        | None => (self, false)
        end
      else (self, false)
  end.

(** What [save] writes when nothing stops it. *)
Definition document (items : list (string * json.value)) : string :=
  header items ++ json.dumps float_repr (json.Dict items).

(** Returns the files after the call and the success flag.  A state
    that is no dict has no [get]: the exception is caught before any
    file is opened. *)
Definition save (self : t) (fs : files) (io : outcome) : files * bool :=
  match state self with
  | json.Dict items =>
      let text := document items in
      match io with
      | OpenFails => (fs, false)
      | WriteFails written =>
          (<[tmp self := string_take written text]> fs, false)
      | ReplaceFails => (<[tmp self := text]> fs, false)
      | Done => (<[path self := text]> (delete (tmp self) fs), true)
      end
  | _ => (fs, false)
  end.

End floats.

End WorkspaceState.

(** Two sessions: one with a comment and two tabs, one with a tab whose
    text holds a URL. *)
Definition session1 : json.value :=
  json.Dict
    [ ("_comment", json.Str ("saved by geoflow" ++ String newline "do not edit"));
      ("open_views",
        json.List
          [ json.Dict [("type", json.Str "text"); ("title", json.Str "T1");
                       ("content", json.Str "hello")];
            json.Dict [("type", json.Str "view"); ("title", json.Str "Map");
                       ("view_type", json.Str "Map"); ("content", json.Null)] ]);
      ("layout", json.Dict [("theme", json.Str "dark"); ("split", json.Float (Fin 0.5))]);
      ("last_opened", json.Null) ].

Definition session_url : json.value :=
  json.Dict
    [ ("open_views",
        json.List
          [ json.Dict [("type", json.Str "text"); ("title", json.Str "notes");
                       ("content", json.Str "see http://example.org/las")] ]);
      ("layout", json.Dict [("theme", json.Str "dark")]);
      ("last_opened", json.Null) ].

(** A session with a tab whose text holds a C comment. *)
Definition session_c : json.value :=
  json.Dict
    [ ("open_views",
        json.List
          [ json.Dict [("type", json.Str "text"); ("title", json.Str "main.c");
                       ("content", json.Str "a /* b */ c")] ]);
      ("layout", json.Dict [("theme", json.Str "dark")]);
      ("last_opened", json.Null) ].

Definition workspace1 : WorkspaceState.t :=
  WorkspaceState.set_state session1 (WorkspaceState.__init__ "proj").

Definition workspace_url : WorkspaceState.t :=
  WorkspaceState.set_state session_url (WorkspaceState.__init__ "proj").

Definition workspace_c : WorkspaceState.t :=
  WorkspaceState.set_state session_c (WorkspaceState.__init__ "proj").

(** [repr] and [float] on the floats of the examples. *)
Definition demo_repr (x : float64) : string :=
  if feqb x (Fin 0.5) then "0.5" else "0.0".

Definition demo_float_of (text : string) : float64 :=
  if String.eqb text "0.5" then Fin 0.5 else Fin 0.

(** Every character of [s] satisfies [P]. *)
Fixpoint string_forall (P : ascii -> bool) (s : string) : bool :=
  match s with
  | EmptyString => true
  | String c rest => P c && string_forall P rest
  end.

(** [n] newlines *)
Fixpoint newlines (n : nat) : string :=
  match n with
  | O => ""
  | S n => String newline (newlines n)
  end.

(** The rest of [s] behind the first [/*], if any. *)
Fixpoint after_block_open (s : string) : option string :=
  match s with
  | String a rest =>
      match rest with
      | String b rest' =>
          if Ascii.eqb a slash && Ascii.eqb b star then Some rest'
          else after_block_open rest
      | EmptyString => None
      end
  | EmptyString => None
  end.

(** [s] holds a block comment: a [/*] with a [*/] behind it. *)
Definition has_block (s : string) : bool :=
  match after_block_open s with
  | Some rest => contains "*/" rest
  | None => false
  end.

(** A file with comments, piece by piece: text that stays, a block
    comment, a line comment with the newline that ends it. *)
Inductive piece : Type :=
| Plain (text : string)
| Block (note : string)
| Line (note : string).

Definition written (p : piece) : string :=
  match p with
  | Plain text => text
  | Block note => "/*" ++ note ++ "*/"
  | Line note => "//" ++ note ++ String newline ""
  end.

Definition stripped (p : piece) : string :=
  match p with
  | Plain text => text
  | Block note => ""
  | Line note => String newline ""
  end.

Fixpoint ends_with_slash (s : string) : bool :=
  match s with
  | String c rest =>
      match rest with
      | EmptyString => Ascii.eqb c slash
      | _ => ends_with_slash rest
      end
  | EmptyString => false
  end.

(** The comments of a piece are what the two substitutions take for
    comments: a block comment ends at its first [*/], a line comment at
    its first newline and holds no [/*]; the text that stays holds no
    [//] and no [/*], and does not end with a slash that the next piece
    could complete to a marker. *)
Definition commented (p : piece) : bool :=
  match p with
  | Plain text =>
      negb (contains "//" text) && negb (contains "/*" text)
      && negb (ends_with_slash text)
  | Block note => negb (contains "*/" note)
  | Line note =>
      string_forall (fun c => negb (Ascii.eqb c newline)) note
      && negb (contains "/*" (written (Line note)))
  end.

(** The same for the pieces behind the last block comment, where a [/*]
    stays as long as no [*/] follows it anywhere. *)
Definition commented_line (p : piece) : bool :=
  match p with
  | Plain text => negb (contains "//" text) && negb (ends_with_slash text)
  | Block note => false
  | Line note => string_forall (fun c => negb (Ascii.eqb c newline)) note
  end.

(** The texts of the pieces of a file, one after the other. *)
Fixpoint pieces_text (text : piece -> string) (pieces : list piece) : string :=
  match pieces with
  | [] => ""
  | p :: pieces => text p ++ pieces_text text pieces
  end.

(** A line comment that the end of the file ends, or nothing. *)
Definition last_line (ending : string) : bool :=
  match ending with
  | EmptyString => true
  | String a rest =>
      match rest with
      | String b note =>
          Ascii.eqb a slash && Ascii.eqb b slash
          && string_forall (fun c => negb (Ascii.eqb c newline)) note
      | EmptyString => false
      end
  end.

(** The first character of a value is no whitespace and closes no array. *)
Definition starts_value (s : string) : bool :=
  match s with
  | String c _ => negb (json.is_ws c) && negb (Ascii.eqb c "]")
  | EmptyString => false
  end.

(** A number starts with a digit or a minus. *)
Definition number_head (c : ascii) : bool := json.is_digit c || Ascii.eqb c "-".

(** A value as Python holds it and writes it: every dict has each key
    once, and the text written for a finite float is read back. *)
Definition writable (float_repr : float64 -> string) (float : string -> float64)
    (v : json.value) : Prop :=
  json.holds (fun v => json.keys_once v /\ json.reads_back float_repr float v) v.

(** The text written for [v] is read as [v], at any nesting level and
    whatever ends the value, with fuel for twice its length. *)
Definition reads (float_repr : float64 -> string) (float : string -> float64)
    (v : json.value) : Prop :=
  forall level rest fuel,
    json.ends_value rest = true ->
    (2 * String.length (json.dump float_repr level v ++ rest) + 1 <= fuel)%nat ->
    json.parse_value float fuel (json.dump float_repr level v ++ rest)
    = Some (v, rest).

(** No carriage return. *)
Definition no_return (c : ascii) : bool := negb (Ascii.eqb c carriage_return).

(** The characters of a number. *)
Definition number_char (c : ascii) : bool :=
  json.is_digit c || Ascii.eqb c "-" || Ascii.eqb c "+" || Ascii.eqb c "."
  || Ascii.eqb c "e" || Ascii.eqb c "E".

(** What the first substitution leaves of a piece. *)
Definition unblocked (p : piece) : string :=
  match p with
  | Block _ => ""
  | _ => written p
  end.

(** What the second substitution is given is made of text and of line
    comments. *)
Definition lined (p : piece) : bool :=
  match p with
  | Plain text => negb (contains "//" text) && negb (ends_with_slash text)
  | Block _ => true
  | Line note => string_forall (fun c => negb (Ascii.eqb c newline)) note
  end.

(** The canvas after [setup_display]: there are tracks and each has its
    axis. *)
Definition rendered (self : WellSectionCanvas.t) : Prop :=
  WellSectionCanvas.tracks self <> []
  /\ Forall (fun track => is_Some (Track.axis track)) (WellSectionCanvas.tracks self).

(** A track after [track.axis.<call>] on the axis it has. *)
Definition axis_call (call : Track.t -> Axes.t -> Axes.t) (track : Track.t) : Track.t :=
  Track.set_axis (call track <$> Track.axis track) track.

(** A drag in progress is a drag of a track that exists and is not the
    depth track. *)
Definition drag_ok (self : WellSectionCanvas.t) : Prop :=
  WellSectionCanvas.dragging self = true ->
  exists idx,
    WellSectionCanvas.drag_track_idx self = Some idx
    /\ (0 < idx < length (WellSectionCanvas.tracks self))%nat.

(** The section of a canvas that keeps the tracks it was built with:
    the five default tracks by name, colour and (empty) curve list, all
    with their axis, widths of at least 0.1 and the depth track at its
    width of 0.5, and no drag but of one of the other four. *)
Definition default_section (self : WellSectionCanvas.t) : Prop :=
  rendered self
  /\ (fun track => (Track.name track, Track.color track, Track.curves track))
       <$> WellSectionCanvas.tracks self
     = (fun track => (Track.name track, Track.color track, Track.curves track))
         <$> WellSectionCanvas.default_tracks
  /\ Forall (fun track => fleb (Fin 0.1) (Track.width track) = true)
            (WellSectionCanvas.tracks self)
  /\ Track.width <$> WellSectionCanvas.tracks self !! 0%nat = Some (Fin 0.5)
  /\ drag_ok self.

(** A well whose curves hold the largest power of two of binary64. *)
Definition well_overflow : WellLogData.t :=
  let cs : gmap string ndarray :=
    {[ "GR" := [Fin 0; Fin (2 ^ 1023)];
       "RHOB" := [Fin (-(2 ^ 1023)); Fin 0] ]} in
  {| WellLogData.name := "W-0";
     WellLogData.data := Some (Some <$> cs);
     WellLogData.curves := cs;
     WellLogData.units := ∅;
     WellLogData.descriptions := ∅ |}.

(** * Properties *)

(** ** Facts about the number model *)

Lemma Qltb_lt (a b : Q) : Qltb a b = true <-> (a < b)%Q.
Proof.
  unfold Qltb. rewrite negb_true_iff, <- not_true_iff_false, Qle_bool_iff.
  split; [apply Qnot_le_lt | apply Qlt_not_le].
Qed.

Lemma Qltb_ge (a b : Q) : Qltb a b = false <-> (b <= a)%Q.
Proof. unfold Qltb. rewrite negb_false_iff. apply Qle_bool_iff. Qed.

Lemma Qle_bool_gt (a b : Q) : Qle_bool a b = false <-> (b < a)%Q.
Proof.
  rewrite <- not_true_iff_false, Qle_bool_iff.
  split; [apply Qnot_le_lt | apply Qlt_not_le].
Qed.

Lemma Qeq_bool_ne (a b : Q) : Qeq_bool a b = false <-> ~ (a == b)%Q.
Proof. rewrite <- not_true_iff_false, Qeq_bool_iff. tauto. Qed.

(** Turn every boolean comparison of rationals in the context into its
    proposition, then let linear arithmetic finish. *)
Ltac qprop :=
  repeat match goal with
  | H : Qltb _ _ = true |- _ => apply Qltb_lt in H
  | H : Qltb _ _ = false |- _ => apply Qltb_ge in H
  | H : Qle_bool _ _ = true |- _ => apply Qle_bool_iff in H
  | H : Qle_bool _ _ = false |- _ => apply Qle_bool_gt in H
  | H : Qeq_bool _ _ = true |- _ => apply Qeq_bool_iff in H
  | H : Qeq_bool _ _ = false |- _ => apply Qeq_bool_ne in H
  | |- Qltb _ _ = true => apply Qltb_lt
  | |- Qltb _ _ = false => apply Qltb_ge
  | |- Qle_bool _ _ = true => apply Qle_bool_iff
  | |- Qle_bool _ _ = false => apply Qle_bool_gt
  | |- Qeq_bool _ _ = true => apply Qeq_bool_iff
  | |- Qeq_bool _ _ = false => apply Qeq_bool_ne
  end.

Ltac qcases :=
  repeat match goal with
  | |- context [Qltb ?a ?b] => destruct (Qltb a b) eqn:?
  | |- context [Qle_bool ?a ?b] => destruct (Qle_bool a b) eqn:?
  | |- context [Qeq_bool ?a ?b] => destruct (Qeq_bool a b) eqn:?
  end.

Ltac qsolve :=
  simpl in *; repeat (progress qcases; simpl in *);
  try discriminate; try reflexivity; qprop; try lra.

Lemma fleb_not_nan (x y : float64) :
  fleb x y = true -> isnan x = false /\ isnan y = false.
Proof. destruct x, y; simpl; intros; try discriminate; auto. Qed.

Lemma np_clip_nan (x : float64) :
  isnan (np_clip x (Fin 0) (Fin 1)) = isnan x.
Proof.
  destruct x; try reflexivity.
  unfold np_clip, np_maximum, np_minimum. qsolve.
Qed.

Lemma np_clip_in_unit (x : float64) :
  isnan x = false -> in_unit (np_clip x (Fin 0) (Fin 1)) = true.
Proof.
  destruct x; try discriminate; intros _; try reflexivity.
  unfold in_unit, np_clip, np_maximum, np_minimum. qsolve.
Qed.

Lemma np_clip_mono (x y : float64) :
  fleb x y = true ->
  fleb (np_clip x (Fin 0) (Fin 1)) (np_clip y (Fin 0) (Fin 1)) = true.
Proof.
  destruct x, y; try discriminate; try reflexivity; intros H;
    unfold np_clip, np_maximum, np_minimum; qsolve.
Qed.

(** ** Petrophysical derivations *)

Import WellLogData.

Lemma calculate_shale_volume_Some (self : WellLogData.t) (gr_curve : string)
    (gr_clean gr_shale : Q) (gr : ndarray) :
  curves self !! gr_curve = Some gr ->
  calculate_shale_volume self gr_curve gr_clean gr_shale
  = (self, Some ((fun g => Vsh g gr_clean gr_shale) <$> gr)).
Proof.
  intros Hgr. unfold calculate_shale_volume. rewrite Hgr.
  rewrite <- list_fmap_compose. reflexivity.
Qed.

Lemma calculate_porosity_Some (self : WellLogData.t) (density_curve : string)
    (fluid_density matrix_density : Q) (rhob : ndarray) :
  curves self !! density_curve = Some rhob ->
  calculate_porosity self density_curve fluid_density matrix_density
  = (self, Some ((fun r => Phi r matrix_density fluid_density) <$> rhob)).
Proof.
  intros Hr. unfold calculate_porosity. rewrite Hr.
  rewrite <- list_fmap_compose. reflexivity.
Qed.

Lemma clipped_nan_or_unit (x : float64) :
  let y := np_clip x (Fin 0) (Fin 1) in
  isnan y = isnan x /\ (isnan y = true \/ in_unit y = true).
Proof.
  cbv zeta. split; [apply np_clip_nan |].
  destruct (isnan x) eqn:Hx.
  - left. now rewrite np_clip_nan.
  - right. now apply np_clip_in_unit.
Qed.

(** C1 (amended).  For every well whose curve mapping contains the named
    GR curve, [calculate_shale_volume] returns the element-wise array
    [clip((GR - gr_clean) / (gr_shale - gr_clean), 0, 1)], and for every
    well containing the named density curve [calculate_porosity] returns
    [clip((matrix_density - RHOB) / (matrix_density - fluid_density), 0, 1)],
    with defaults [matrix_density = 2.65] and [fluid_density = 1.0].
    Every element of either result is NaN, exactly when the unclipped
    quotient is NaN (as for a null sample), or lies in [[0,1]].  On the
    samples [[30, 90, 150]] with [gr_clean = 30] and [gr_shale = 150] the
    shale volume is [[0.0, 0.5, 1.0]]. *)
Theorem C1_derivations_clip_formula :
  (forall (self : WellLogData.t) gr_curve gr_clean gr_shale gr,
     curves self !! gr_curve = Some gr ->
     (calculate_shale_volume self gr_curve gr_clean gr_shale).2
     = Some ((fun g => Vsh g gr_clean gr_shale) <$> gr))
  /\ (forall (self : WellLogData.t) density_curve fluid_density matrix_density rhob,
     curves self !! density_curve = Some rhob ->
     (calculate_porosity self density_curve fluid_density matrix_density).2
     = Some ((fun r => Phi r matrix_density fluid_density) <$> rhob))
  /\ (default_matrix_density == 2.65 /\ default_fluid_density == 1)%Q
  /\ (forall g gr_clean gr_shale,
     isnan (Vsh g gr_clean gr_shale)
     = isnan (fdiv (fsub g (Fin gr_clean)) (fsub (Fin gr_shale) (Fin gr_clean)))
     /\ (isnan (Vsh g gr_clean gr_shale) = true
         \/ in_unit (Vsh g gr_clean gr_shale) = true))
  /\ (forall r matrix_density fluid_density,
     isnan (Phi r matrix_density fluid_density)
     = isnan (fdiv (fsub (Fin matrix_density) r)
                   (fsub (Fin matrix_density) (Fin fluid_density)))
     /\ (isnan (Phi r matrix_density fluid_density) = true
         \/ in_unit (Phi r matrix_density fluid_density) = true))
  /\ (forall (self : WellLogData.t) gr_curve,
     curves self !! gr_curve = Some [Fin 30; Fin 90; Fin 150] ->
     exists vsh,
       (calculate_shale_volume self gr_curve 30 150).2 = Some vsh
       /\ array_eq vsh [Fin 0.0; Fin 0.5; Fin 1.0]).
Proof.
  repeat split.
  - intros * Hgr. now rewrite (calculate_shale_volume_Some _ _ _ _ _ Hgr).
  - intros * Hr. now rewrite (calculate_porosity_Some _ _ _ _ _ Hr).
  - apply clipped_nan_or_unit.
  - apply clipped_nan_or_unit.
  - apply clipped_nan_or_unit.
  - apply clipped_nan_or_unit.
  - intros * Hgr. eexists. split.
    + now rewrite (calculate_shale_volume_Some _ _ _ _ _ Hgr).
    + repeat constructor.
Qed.

Lemma C1_derivations_clip_formula_witness :
  (calculate_shale_volume well_example "GR" 30 150).2
  = Some ((fun g => Vsh g 30 150) <$> [Fin 30; Fin 90; Fin 150])
  /\ (calculate_porosity well_with_null "RHOB" 1 2.65).2
  = Some ((fun r => Phi r 2.65 1) <$> [Fin 2.65; Fin 2.32; NaN]).
Proof.
  split.
  - apply (proj1 C1_derivations_clip_formula well_example). reflexivity.
  - apply (proj1 (proj2 C1_derivations_clip_formula) well_with_null). reflexivity.
Defined.

(** C1 as stated fails on a null sample: the shale volume of a well
    whose GR curve holds a NaN has a NaN element, which is not in [[0,1]]. *)
Lemma C1_null_sample_outside_unit :
  exists vsh v,
    (calculate_shale_volume well_with_null "GR" 30 150).2 = Some vsh
    /\ vsh !! 1%nat = Some v
    /\ in_unit v = false.
Proof. exists [Fin ((45 - 30) / (150 - 30)); NaN; Fin ((120 - 30) / (150 - 30))], NaN. 
  repeat split. Qed.

Lemma Qdiv_le_compat_r (a b d : Q) : (0 < d -> a <= b -> a / d <= b / d)%Q.
Proof.
  intros Hd Hab. unfold Qdiv. apply Qmult_le_compat_r; [exact Hab |].
  apply Qinv_le_0_compat. lra.
Qed.

Lemma overflow_bound_pos : (1 < overflow_bound)%Q.
Proof. reflexivity. Qed.

(** Overflow keeps the order of the exact results. *)
Lemma finite_mono (a b : Q) :
  (a <= b)%Q -> fleb (finite a) (finite b) = true.
Proof.
  intros Hab. pose proof overflow_bound_pos. unfold finite. qsolve.
Qed.

Lemma finite_not_nan (q : Q) : isnan (finite q) = false.
Proof. unfold finite. now repeat destruct (Qle_bool _ _). Qed.

Lemma fleb_PInf (x : float64) : isnan x = false -> fleb x PInf = true.
Proof. now destruct x. Qed.

Lemma fleb_NInf (x : float64) : isnan x = false -> fleb NInf x = true.
Proof. now destruct x. Qed.

Lemma fsub_mono_l (x y : float64) (c : Q) :
  fleb x y = true -> fleb (fsub x (Fin c)) (fsub y (Fin c)) = true.
Proof.
  destruct x, y; try discriminate; try reflexivity; cbn [fsub fleb]; intros Hxy.
  - apply fleb_NInf, finite_not_nan.
  - apply finite_mono. apply Qle_bool_iff in Hxy. lra.
  - apply fleb_PInf, finite_not_nan.
Qed.

Lemma fsub_anti_r (m : Q) (x y : float64) :
  fleb x y = true -> fleb (fsub (Fin m) y) (fsub (Fin m) x) = true.
Proof.
  destruct x, y; try discriminate; try reflexivity; cbn [fsub fleb]; intros Hxy.
  - apply fleb_PInf, finite_not_nan.
  - apply finite_mono. apply Qle_bool_iff in Hxy. lra.
  - apply fleb_NInf, finite_not_nan.
Qed.

Lemma positive_difference (c s : Q) :
  (c < s)%Q -> fltb (Fin 0) (fsub (Fin s) (Fin c)) = true.
Proof.
  intros Hcs. pose proof overflow_bound_pos. cbn [fsub]. unfold finite. qsolve.
Qed.

(** A quotient by a positive number follows the order of the
    numerators, where it is a number at all: an infinity over an
    infinity is none. *)
Lemma fdiv_mono_l (a1 a2 d : float64) :
  fltb (Fin 0) d = true -> fleb a1 a2 = true ->
  isnan (fdiv a1 d) = false -> isnan (fdiv a2 d) = false ->
  fleb (fdiv a1 d) (fdiv a2 d) = true.
Proof.
  intros Hd H12 H1 H2. destruct d as [| |d|]; try discriminate.
  - assert (Hpos : (0 < d)%Q) by (now apply Qltb_lt in Hd).
    assert (Hzero : Qeq_bool d 0 = false) by (apply Qeq_bool_ne; lra).
    assert (Hneg : Qltb d 0 = false) by (apply Qltb_ge; lra).
    destruct a1 as [| |a1|], a2 as [| |a2|]; try discriminate;
      cbn [fdiv] in *; rewrite ?Hzero, ?Hneg;
      first [ reflexivity
            | apply fleb_NInf, finite_not_nan
            | apply fleb_PInf, finite_not_nan
            | apply finite_mono, Qdiv_le_compat_r;
              [exact Hpos | now apply Qle_bool_iff in H12] ].
  - destruct a1 as [| |a1|], a2 as [| |a2|]; try discriminate; reflexivity.
Qed.

(** The shale volumes of two samples follow the order of the samples
    when both are numbers. *)
Lemma vsh_mono (g1 g2 : float64) (gr_clean gr_shale : Q) :
  (gr_clean < gr_shale)%Q -> fleb g1 g2 = true ->
  isnan (Vsh g1 gr_clean gr_shale) = false ->
  isnan (Vsh g2 gr_clean gr_shale) = false ->
  fleb (Vsh g1 gr_clean gr_shale) (Vsh g2 gr_clean gr_shale) = true.
Proof.
  intros Hd H12 H1 H2. unfold Vsh in *. rewrite np_clip_nan in H1, H2.
  apply np_clip_mono, fdiv_mono_l; try assumption.
  - now apply positive_difference.
  - now apply fsub_mono_l.
Qed.

Lemma phi_anti (r1 r2 : float64) (matrix_density fluid_density : Q) :
  (fluid_density < matrix_density)%Q -> fleb r1 r2 = true ->
  isnan (Phi r1 matrix_density fluid_density) = false ->
  isnan (Phi r2 matrix_density fluid_density) = false ->
  fleb (Phi r2 matrix_density fluid_density) (Phi r1 matrix_density fluid_density)
  = true.
Proof.
  intros Hd H12 H1 H2. unfold Phi in *. rewrite np_clip_nan in H1, H2.
  apply np_clip_mono, fdiv_mono_l; try assumption.
  - now apply positive_difference.
  - now apply fsub_anti_r.
Qed.




(** C7.  [calculate_shale_volume] returns None if and only if the named
    GR curve is absent from the well's curve mapping, [calculate_porosity]
    returns None if and only if the named density curve is absent, and on
    both paths the well after the call is the well before it: curves,
    units and descriptions (and name and data) are untouched. *)
Theorem C7_derivations_missing_curve_and_frame
    (self : WellLogData.t) (curve : string) (a b : Q) :
  ((calculate_shale_volume self curve a b).2 = None <-> curves self !! curve = None)
  /\ ((calculate_porosity self curve a b).2 = None <-> curves self !! curve = None)
  /\ (calculate_shale_volume self curve a b).1 = self
  /\ (calculate_porosity self curve a b).1 = self.
Proof.
  unfold calculate_shale_volume, calculate_porosity.
  destruct (curves self !! curve); simpl; repeat split; intros; congruence.
Qed.

(** ** Depth-curve resolution *)

Lemma first_candidate_list_find (cs : gmap string ndarray) (candidates : list string) :
  first_candidate cs candidates
  = snd <$> list_find (fun c => is_Some (cs !! c)) candidates.
Proof.
  induction candidates as [|c rest IH]; simpl; [reflexivity |].
  destruct (decide (is_Some (cs !! c))); simpl; [reflexivity |].
  rewrite IH. now destruct (list_find _ rest) as [[]|].
Qed.

(** C3.  Depth-curve resolution returns the first mnemonic of the
    ordered candidate list DEPT, DEPTH, MD, TVD that is present in the
    well's curves, and None when no candidate is present; with all four
    present it returns DEPT. *)
Theorem C3_find_depth_curve_first_present (self : WellLogData.t) :
  depth_candidates = ["DEPT"; "DEPTH"; "MD"; "TVD"]
  /\ (forall c, _find_depth_curve self = Some c <->
        exists i, depth_candidates !! i = Some c
                  /\ is_Some (curves self !! c)
                  /\ forall j c', depth_candidates !! j = Some c' -> (j < i)%nat ->
                                  curves self !! c' = None)
  /\ (_find_depth_curve self = None <->
        forall c, c ∈ depth_candidates -> curves self !! c = None)
  /\ ((forall c, c ∈ depth_candidates -> is_Some (curves self !! c)) ->
        _find_depth_curve self = Some "DEPT").
Proof.
  unfold _find_depth_curve. rewrite first_candidate_list_find.
  split; [reflexivity |]. split; [| split].
  - intros c. rewrite fmap_Some. split.
    + intros [[i c'] [Hfind ->]]. apply list_find_Some in Hfind as (Hi & Hc & Hbefore).
      exists i. repeat split; try assumption.
      intros j c'' Hj Hlt. specialize (Hbefore j c'' Hj Hlt).
      now apply eq_None_not_Some.
    + intros (i & Hi & Hc & Hbefore). exists (i, c). split; [| reflexivity].
      apply list_find_Some. repeat split; try assumption.
      intros j c' Hj Hlt. rewrite (Hbefore j c' Hj Hlt). now intros [? ?].
  - rewrite fmap_None, list_find_None, Forall_forall.
    split; intros H c Hc; specialize (H c Hc).
    + now apply eq_None_not_Some.
    + rewrite H. now intros [? ?].
  - intros Hall. unfold depth_candidates in *. simpl.
    destruct (decide (is_Some (curves self !! "DEPT"))) as [|Hn]; [reflexivity |].
    exfalso. apply Hn, Hall. left.
Qed.

(** ** Track assignment *)

Import WellSectionCanvas.

Lemma curve_track_map_values (curve_name : string) (idx : nat) :
  curve_track_map !! curve_name = Some idx -> (idx <= 4)%nat.
Proof.
  intros H. apply elem_of_list_to_map_2 in H.
  repeat (apply elem_of_cons in H as [H | H];
          [injection H as _ ->; repeat constructor |]).
  now apply elem_of_nil in H.
Qed.

(** C4.  Track assignment is total on strings and returns a track index
    of the five-track layout; a mnemonic without a table entry goes to
    track 1, the gamma-ray track; every table entry is returned as
    written, so RHOB goes to the density track and NPHI to the neutron
    track. *)
Theorem C4_track_assignment_total (curve_name : string) :
  (_get_track_for_curve curve_name < length default_tracks)%nat
  /\ (curve_track_map !! curve_name = None ->
      _get_track_for_curve curve_name = 1%nat
      /\ Track.name <$> default_tracks !! 1%nat = Some "GR")
  /\ (forall idx, curve_track_map !! curve_name = Some idx ->
      _get_track_for_curve curve_name = idx)
  /\ _get_track_for_curve <$>
       ["DEPT"; "DEPTH"; "MD"; "TVD"; "GR"; "GR_EDTC"; "CGR";
        "RT"; "ILD"; "LLD"; "MSFL"; "LLS"; "RHOB"; "RHOZ"; "DRHO";
        "NPHI"; "NPOR"; "TNPH"]
     = [0; 0; 0; 0; 1; 1; 1; 2; 2; 2; 2; 2; 3; 3; 3; 4; 4; 4]%nat
  /\ Track.name <$> default_tracks !! _get_track_for_curve "RHOB" = Some "Density"
  /\ Track.name <$> default_tracks !! _get_track_for_curve "NPHI" = Some "Neutron".
Proof.
  unfold _get_track_for_curve.
  split; [| split; [| split; [| split; [| split]]]]; try reflexivity.
  - destruct (curve_track_map !! curve_name) as [idx|] eqn:H; simpl; [| lia].
    apply curve_track_map_values in H. lia.
  - intros ->. split; reflexivity.
  - now intros idx ->.
Qed.

Lemma C4_track_assignment_total_witness :
  _get_track_for_curve "VSH" = 1%nat
  /\ Track.name <$> default_tracks !! 1%nat = Some "GR".
Proof.
  apply (proj1 (proj2 (C4_track_assignment_total "VSH"))). reflexivity.
Defined.

(** ** Reasoning about methods

    [keeps I E m]: started in a state satisfying [I], the method [m]
    ends in a state satisfying [I], whether it returns or raises, and it
    raises only exceptions in [E]. *)

Section keeps.
Context {S : Type} (I : S -> Prop) (E : exn -> Prop).

Definition keeps {A} (m : M S A) : Prop :=
  forall s, I s -> I (m s).1 /\ forall e, (m s).2 = inl e -> E e.

Lemma keeps_ret {A} (a : A) : keeps (mret a).
Proof. intros s Hs. split; [exact Hs | discriminate]. Qed.

Lemma keeps_pass : keeps pass.
Proof. apply keeps_ret. Qed.

Lemma keeps_raise {A} (e : exn) : E e -> keeps (raise e : M S A).
Proof. intros He s Hs. split; [exact Hs |]. intros e' [= <-]. exact He. Qed.

Lemma keeps_modify (f : S -> S) : (forall s, I s -> I (f s)) -> keeps (modify f).
Proof. intros Hf s Hs. split; [now apply Hf | discriminate]. Qed.

Lemma keeps_bind {A B} (m : M S A) (f : A -> M S B) :
  keeps m -> (forall a, keeps (f a)) -> keeps (m ≫= f).
Proof.
  intros Hm Hf s Hs. specialize (Hm s Hs) as [Hm1 Hm2].
  unfold mbind, M_bind. destruct (m s) as [s' [e|a]]; simpl in *.
  - split; [exact Hm1 |]. intros e' [= <-]. now apply Hm2.
  - now apply Hf.
Qed.

Lemma keeps_get {A} (f : S -> M S A) :
  (forall s0, I s0 -> keeps (f s0)) -> keeps (get ≫= f).
Proof. intros Hf s Hs. unfold mbind, M_bind, get. now apply Hf. Qed.

Lemma keeps_for {A} (l : list A) (body : A -> M S unit) :
  (forall x, x ∈ l -> keeps (body x)) -> keeps (for_ l body).
Proof.
  induction l as [|x l IH]; intros Hbody; simpl.
  - apply keeps_ret.
  - apply keeps_bind.
    + apply Hbody. left.
    + intros _. apply IH. intros y Hy. apply Hbody. now right.
Qed.

Lemma keeps_not_None {A} (o : option A) : E TypeError -> keeps (not_None o).
Proof. intros He. destruct o; [apply keeps_ret | now apply keeps_raise]. Qed.

End keeps.

(** ** Rendering *)

Lemma with_axis_keeps_length (n i : nat) call :
  (i < n)%nat ->
  keeps (fun self => length (tracks self) = n) (fun e => e <> IndexError)
        (with_axis i call).
Proof.
  intros Hi self Hn. unfold with_axis.
  destruct (tracks self !! i) as [track|] eqn:Hlook.
  - destruct (Track.axis track); simpl.
    + split; [| discriminate]. now rewrite length_insert.
    + split; [exact Hn |]. now intros e [= <-].
  - apply lookup_ge_None in Hlook. lia.
Qed.

Lemma plot_curve_keeps_length (n : nat) well depth_data curve_name :
  keeps (fun self => length (tracks self) = n) (fun e => e <> IndexError)
        (plot_curve well depth_data curve_name).
Proof.
  unfold plot_curve.
  destruct (WellLogData.get_curve_data _ _) as [curve_data|]; [| apply keeps_pass].
  apply keeps_get. intros self Hn.
  destruct (decide _) as [|Hlt]; [apply keeps_pass |].
  assert (_get_track_for_curve curve_name < n)%nat by lia.
  apply keeps_bind; [now apply with_axis_keeps_length |]. intros _.
  destruct (decide _); [| apply keeps_pass].
  destruct (np_nanmin curve_data), (np_nanmax curve_data);
    try (now apply keeps_raise).
  destruct (_ && _); [now apply with_axis_keeps_length | apply keeps_pass].
Qed.

Lemma update_display_keeps_length (n : nat) :
  (0 < n)%nat ->
  keeps (fun self => length (tracks self) = n) (fun e => e <> IndexError)
        update_display.
Proof.
  intros Hpos. unfold update_display. apply keeps_get. intros self Hn.
  destruct (well_data self) as [well|]; [| apply keeps_pass].
  apply keeps_bind.
  { apply keeps_for. intros i Hi%elem_of_seq. apply with_axis_keeps_length. lia. }
  intros _. apply keeps_bind.
  { destruct (_ ≫= _).
    - apply keeps_ret.
    - apply keeps_bind; [now apply keeps_not_None |]. intros df. apply keeps_ret. }
  intros depth_data. apply keeps_bind.
  { apply keeps_for. intros. apply plot_curve_keeps_length. }
  intros _. apply keeps_bind; [now apply with_axis_keeps_length |].
  intros _. apply keeps_bind.
  - apply keeps_for. intros i Hi%elem_of_seq. apply with_axis_keeps_length. lia.
  - intros _. apply keeps_for. intros i Hi%elem_of_seq.
    apply with_axis_keeps_length. lia.
Qed.

Lemma plot_curve_skip self well depth_data curve_name :
  (length (tracks self) <= _get_track_for_curve curve_name)%nat ->
  plot_curve well depth_data curve_name self = (self, inr ()).
Proof.
  intros Hge. unfold plot_curve.
  destruct (WellLogData.get_curve_data _ _); [| reflexivity].
  unfold mbind, M_bind, get. now destruct (decide _).
Qed.

Lemma plot_curve_changes self well depth_data curve_name self' r :
  plot_curve well depth_data curve_name self = (self', r) ->
  self' <> self ->
  (_get_track_for_curve curve_name < length (tracks self))%nat
  /\ is_Some (WellLogData.curves well !! curve_name).
Proof.
  intros Hrun Hne. split.
  - destruct (decide (length (tracks self) <= _get_track_for_curve curve_name)%nat)
      as [Hge|]; [| lia].
    rewrite (plot_curve_skip _ _ _ _ Hge) in Hrun. congruence.
  - unfold plot_curve, WellLogData.get_curve_data in Hrun.
    destruct (WellLogData.curves well !! curve_name); [eauto |].
    unfold pass in Hrun. injection Hrun as <- _. congruence.
Qed.

Lemma with_axis_ok self i call track ax :
  tracks self !! i = Some track ->
  Track.axis track = Some ax ->
  with_axis i call self
  = (set_tracks (<[i := Track.set_axis (Some (call track ax)) track]> (tracks self)) self,
     inr ()).
Proof. intros Htrack Hax. unfold with_axis. now rewrite Htrack, Hax. Qed.

Lemma bind_ok {S A B} (m : M S A) (f : A -> M S B) s s' a :
  m s = (s', inr a) -> (m ≫= f) s = f a s'.
Proof. intros H. unfold mbind, M_bind. now rewrite H. Qed.

Lemma plot_curve_plots self well depth_data curve_name curve_data track ax :
  WellLogData.curves well !! curve_name = Some curve_data ->
  tracks self !! _get_track_for_curve curve_name = Some track ->
  Track.axis track = Some ax ->
  exists track' ax',
    tracks (plot_curve well depth_data curve_name self).1
      !! _get_track_for_curve curve_name = Some track'
    /\ Track.axis track' = Some ax'
    /\ Axes.lines ax'
       = (Axes.lines ax
          ++ [ {| Axes.xdata := curve_data; Axes.ydata := depth_data;
                  Axes.color := default "black" (curve_colors !! curve_name);
                  Axes.label := curve_name |} ])%list.
Proof.
  intros Hdata Htrack Hax. unfold plot_curve, WellLogData.get_curve_data.
  rewrite Hdata.
  pose proof (lookup_lt_Some _ _ _ Htrack) as Hlt.
  generalize dependent (_get_track_for_curve curve_name). intros idx Htrack Hlt.
  generalize (default "black" (curve_colors !! curve_name)). intros color.
  rewrite (bind_ok get _ self self self eq_refl).
  destruct (decide (length (tracks self) <= idx)%nat) as [|_]; [lia |].
  rewrite (bind_ok _ _ _ _ _ (with_axis_ok self idx _ track ax Htrack Hax)).
  set (track1 := Track.set_axis _ track).
  set (self1 := set_tracks _ self).
  assert (Hlook1 : tracks self1 !! idx = Some track1)
    by (now apply list_lookup_insert_eq).
  assert (Hdone : exists track' ax',
    tracks self1 !! idx = Some track' /\ Track.axis track' = Some ax'
    /\ Axes.lines ax'
       = (Axes.lines ax
          ++ [ {| Axes.xdata := curve_data; Axes.ydata := depth_data;
                  Axes.color := color; Axes.label := curve_name |} ])%list).
  { eexists _, _. split; [exact Hlook1 |]. split; reflexivity. }
  destruct (decide (0 < idx)%nat) as [Hpos|]; [| exact Hdone].
  destruct (np_nanmin curve_data) as [data_min|], (np_nanmax curve_data) as [data_max|];
    try exact Hdone.
  destruct (isfinite data_min && isfinite data_max); [| exact Hdone].
  rewrite (with_axis_ok self1 idx _ track1 _ Hlook1 eq_refl).
  eexists _, _. split; [apply list_lookup_insert_eq |].
  - unfold self1. cbn [tracks set_tracks fst]. rewrite length_insert. exact Hlt.
  - split; reflexivity.
Qed.

(** With at least one track [update_display] indexes the track list in
    bounds: it raises no IndexError and keeps the number of tracks; the
    loop body plots a curve only when its assigned track index is below
    the number of tracks, on that track, and leaves the canvas as it is,
    without failing, for a curve whose assigned index is out of range. *)
Lemma update_display_in_bounds :
  (forall self,
     tracks self <> [] ->
     (update_display self).2 <> inl IndexError
     /\ length (tracks (update_display self).1) = length (tracks self))
  /\ (forall self well depth_data curve_name,
     (length (tracks self) <= _get_track_for_curve curve_name)%nat ->
     plot_curve well depth_data curve_name self = (self, inr ()))
  /\ (forall self well depth_data curve_name self' r,
     plot_curve well depth_data curve_name self = (self', r) ->
     self' <> self ->
     (_get_track_for_curve curve_name < length (tracks self))%nat
     /\ is_Some (WellLogData.curves well !! curve_name))
  /\ (forall self well depth_data curve_name curve_data track ax,
     WellLogData.curves well !! curve_name = Some curve_data ->
     tracks self !! _get_track_for_curve curve_name = Some track ->
     Track.axis track = Some ax ->
     exists track' ax',
       tracks (plot_curve well depth_data curve_name self).1
         !! _get_track_for_curve curve_name = Some track'
       /\ Track.axis track' = Some ax'
       /\ Axes.label <$> Axes.lines ax'
          = ((Axes.label <$> Axes.lines ax) ++ [curve_name])%list).
Proof.
  split; [| split; [| split]].
  - intros self Hne.
    assert (Hpos : (0 < length (tracks self))%nat)
      by (destruct (tracks self); [congruence | simpl; lia]).
    destruct (update_display_keeps_length _ Hpos self eq_refl) as [Hlen Hexn].
    split; [| exact Hlen]. intros Hraise. now apply (Hexn _ Hraise).
  - apply plot_curve_skip.
  - apply plot_curve_changes.
  - intros * Hdata Htrack Hax.
    destruct (plot_curve_plots self well depth_data _ _ _ _ Hdata Htrack Hax)
      as (track' & ax' & H1 & H2 & H3).
    exists track', ax'. repeat split; try assumption.
    rewrite H3, fmap_app. reflexivity.
Qed.

(** C10.  The code at the input where it indexes the track list out of
    bounds.  [load_template] empties the track list of the canvas before
    it reads the template; on a template file without the key 'tracks'
    the KeyError ends up in the message box of the handler and the
    method returns, the track list left empty and the well still bound.
    The next rendering, here through the shale volume button or through
    [update_display] itself, skips every curve in the guarded loop and
    then raises IndexError at [self.tracks[0]].  A template with its
    tracks leaves these tracks, and rendering returns. *)
Theorem C10_template_without_tracks_IndexError :
  let self := widget_with_edits "100" "500" in
  let failed := EnhancedWellSectionWidget.load_template (inr template_without_tracks) self in
  let loaded := EnhancedWellSectionWidget.load_template (inr template_two_tracks) self in
  failed.2 = inr ()
  /\ tracks (EnhancedWellSectionWidget.canvas failed.1) = []
  /\ well_data (EnhancedWellSectionWidget.canvas failed.1) = Some well_with_null
  /\ EnhancedWellSectionWidget.current_well failed.1 = Some well_with_null
  /\ (EnhancedWellSectionWidget.on_canvas update_display failed.1).2 = inl IndexError
  /\ (EnhancedWellSectionWidget.calculate_shale_volume failed.1).2 = inl IndexError
  /\ update_display canvas_without_tracks = (canvas_without_tracks, inl IndexError)
  /\ loaded.2 = inr ()
  /\ Track.name <$> tracks (EnhancedWellSectionWidget.canvas loaded.1) = ["Depth"; "GR"]
  /\ (EnhancedWellSectionWidget.on_canvas update_display loaded.1).2 = inr ().
Proof. cbv zeta. repeat split; vm_compute; reflexivity. Qed.

(** ** Track resizing *)

(** The configuration of the tracks is untouched by anything written to
    their axes. *)
Lemma set_axis_layout (ax : option Axes.t) (track : Track.t) :
  Track.layout (Track.set_axis ax track) = Track.layout track.
Proof. reflexivity. Qed.

Lemma insert_set_axis_layout (ts : list Track.t) i track ax :
  ts !! i = Some track ->
  Track.layout <$> <[i := Track.set_axis ax track]> ts = Track.layout <$> ts.
Proof.
  intros Hi. rewrite list_fmap_insert, set_axis_layout.
  apply list_insert_id. now rewrite list_lookup_fmap, Hi.
Qed.

Lemma alter_new_axis_layout (ts : list Track.t) r i :
  Track.layout <$> alter (new_axis r) i ts = Track.layout <$> ts.
Proof.
  rewrite (list_fmap_alter Track.layout (new_axis r) id)
    by (apply Forall_forall; reflexivity).
  now apply list_alter_id.
Qed.

Section layout.
Variable shp : list (string * float64 * string * list string).

Let I (self : WellSectionCanvas.t) : Prop := Track.layout <$> tracks self = shp.
Let E (e : exn) : Prop := True.

Lemma with_axis_keeps_layout i call : keeps I E (with_axis i call).
Proof.
  intros self Hs. unfold with_axis.
  destruct (tracks self !! i) as [track|] eqn:Hi; [| now split].
  destruct (Track.axis track); [| now split]. split; [| done].
  unfold I. cbn [tracks set_tracks fst]. now rewrite insert_set_axis_layout.
Qed.

Lemma plot_curve_keeps_layout well depth_data curve_name :
  keeps I E (plot_curve well depth_data curve_name).
Proof.
  unfold plot_curve.
  destruct (WellLogData.get_curve_data _ _) as [curve_data|]; [| apply keeps_pass].
  apply keeps_get. intros self Hs.
  destruct (decide _); [apply keeps_pass |].
  apply keeps_bind; [apply with_axis_keeps_layout |]. intros _.
  destruct (decide _); [| apply keeps_pass].
  destruct (np_nanmin curve_data), (np_nanmax curve_data);
    try (now apply keeps_raise).
  destruct (_ && _); [apply with_axis_keeps_layout | apply keeps_pass].
Qed.

Lemma update_display_keeps_layout : keeps I E update_display.
Proof.
  unfold update_display. apply keeps_get. intros self Hs.
  destruct (well_data self) as [well|]; [| apply keeps_pass].
  apply keeps_bind; [apply keeps_for; intros; apply with_axis_keeps_layout |].
  intros _. apply keeps_bind.
  { destruct (_ ≫= _).
    - apply keeps_ret.
    - apply keeps_bind; [now apply keeps_not_None |]. intros df. apply keeps_ret. }
  intros depth_data.
  apply keeps_bind; [apply keeps_for; intros; apply plot_curve_keeps_layout |].
  intros _. apply keeps_bind; [apply with_axis_keeps_layout |].
  intros _. apply keeps_bind; [apply keeps_for; intros; apply with_axis_keeps_layout |].
  intros _. apply keeps_for; intros; apply with_axis_keeps_layout.
Qed.

Lemma set_well_data_keeps_layout well : keeps I E (set_well_data well).
Proof.
  unfold set_well_data.
  apply keeps_bind; [now apply keeps_modify |]. intros ?.
  apply keeps_get. intros self Hs.
  apply keeps_bind; [| intros ?; apply update_display_keeps_layout].
  destruct (truthy _); [| apply keeps_pass].
  destruct (WellLogData.get_curve_data _ _) as [depth_data|]; [| apply keeps_pass].
  destruct (np_min depth_data), (np_max depth_data);
    try (now apply keeps_raise).
  now apply keeps_modify.
Qed.

Lemma zoom_to_depth_range_keeps_layout lo hi : keeps I E (zoom_to_depth_range lo hi).
Proof.
  unfold zoom_to_depth_range.
  apply keeps_bind; [now apply keeps_modify |]. intros ?.
  apply keeps_get. intros self Hs.
  apply keeps_for; intros; apply with_axis_keeps_layout.
Qed.

Lemma setup_display_keeps_layout : shp <> [] -> keeps I E setup_display.
Proof.
  intros Hne. unfold setup_display. apply keeps_bind.
  { apply keeps_modify. intros self Hs. destruct (decide _) as [Hnil|]; [| exact Hs].
    unfold I in Hs. rewrite Hnil in Hs. now subst shp. }
  intros ?. apply keeps_get. intros self Hs.
  apply keeps_for. intros i _. apply keeps_modify. intros self' Hs'.
  unfold I. cbn [tracks set_tracks fst]. now rewrite alter_new_axis_layout.
Qed.

End layout.

Lemma py_max_floor (lo x : float64) :
  isnan lo = false -> fleb lo (py_max lo x) = true.
Proof.
  unfold py_max. destruct lo, x; try discriminate; intros _; try reflexivity;
    qsolve.
Qed.

(** The state a drag motion ends in has the track configuration it
    started with, but for the width of the dragged track. *)
Lemma on_motion_layout (self : WellSectionCanvas.t) (event : MouseEvent) :
  Track.layout <$> tracks (on_motion event self).1
  = Track.layout <$>
      match dragging self, drag_track_idx self, xdata event, drag_start_x self with
      | true, Some idx, Some current_x, Some start =>
          alter (fun track =>
                   Track.set_width
                     (py_max (Fin 0.1)
                        (fadd (Track.width track)
                              (fmul (fsub current_x start) (Fin 0.01))))
                     track)
                idx (tracks self)
      | _, _, _, _ => tracks self
      end.
Proof.
  unfold on_motion. rewrite (bind_ok get _ self self self eq_refl).
  destruct (dragging self); [| now destruct (_ && _)].
  destruct (drag_track_idx self) as [idx|]; [| now destruct (_ && _)].
  destruct (xdata event) as [current_x|]; [| now destruct (_ && _)].
  destruct (drag_start_x self) as [start|]; [| reflexivity].
  rewrite (bind_ok (not_None (Some start)) _ self self start eq_refl).
  destruct (tracks self !! idx) as [track|] eqn:Hidx.
  - set (new_width := py_max _ _).
    rewrite (bind_ok (modify _) _ self _ () eq_refl).
    set (self1 := set_tracks _ self).
    match goal with
    | |- _ = ?rhs => assert (Hshape : Track.layout <$> tracks self1 = rhs)
    end.
    { unfold self1. cbn [tracks set_tracks]. f_equal.
      apply list_eq. intros j. destruct (decide (j = idx)) as [->|Hne].
      - rewrite list_lookup_insert_eq by (eapply lookup_lt_Some; eauto).
        now rewrite list_lookup_alter_eq, Hidx.
      - now rewrite list_lookup_insert_ne, list_lookup_alter_ne by auto. }
    assert (Hne : Track.layout <$> tracks self1 <> []).
    { unfold self1. cbn [tracks set_tracks]. intros Hnil%fmap_nil_inv.
      apply (f_equal length) in Hnil. rewrite length_insert in Hnil.
      apply lookup_lt_Some in Hidx. simpl in Hnil. lia. }
    rewrite <- Hshape.
    match goal with
    | |- context [(?m self1).1] =>
        enough (Hkeeps : keeps (fun s => Track.layout <$> tracks s
                                         = Track.layout <$> tracks self1)
                               (fun _ => True) m)
          by (apply (Hkeeps self1 eq_refl))
    end.
    apply keeps_bind; [now apply setup_display_keeps_layout |]. intros ?.
    apply keeps_get. intros self2 Hs2.
    apply keeps_bind; [| intros ?; apply keeps_ret].
    destruct (well_data self2); [apply set_well_data_keeps_layout | apply keeps_pass].
  - f_equal. apply list_eq. intros j. destruct (decide (j = idx)) as [->|Hne].
    + now rewrite list_lookup_alter_eq, Hidx.
    + now rewrite list_lookup_alter_ne by auto.
Qed.

(** C9.  Every resize step (a drag motion on track [i] with any width
    delta) leaves the resized track with a width of at least 0.1, changes
    the width of track [i] only, and leaves the number of tracks, their
    order and every track's name, color and curve list, and every other
    track's width, unchanged. *)
Theorem C9_resize_floor_and_frame (self : WellSectionCanvas.t) (event : MouseEvent) :
  let self' := (on_motion event self).1 in
  length (tracks self') = length (tracks self)
  /\ (forall j track',
        tracks self' !! j = Some track' ->
        exists track,
          tracks self !! j = Some track
          /\ Track.name track' = Track.name track
          /\ Track.color track' = Track.color track
          /\ Track.curves track' = Track.curves track
          /\ (Track.width track' = Track.width track
              \/ (dragging self = true /\ drag_track_idx self = Some j)))
  /\ (forall i current_x start track,
        dragging self = true -> drag_track_idx self = Some i ->
        xdata event = Some current_x -> drag_start_x self = Some start ->
        tracks self !! i = Some track ->
        exists track',
          tracks self' !! i = Some track'
          /\ Track.width track'
             = py_max (Fin 0.1)
                 (fadd (Track.width track) (fmul (fsub current_x start) (Fin 0.01)))
          /\ fleb (Fin 0.1) (Track.width track') = true).
Proof.
  cbv zeta. pose proof (on_motion_layout self event) as Hlayout.
  split; [| split].
  - apply (f_equal length) in Hlayout. rewrite !length_fmap in Hlayout.
    rewrite Hlayout.
    destruct (dragging self), (drag_track_idx self), (xdata event),
      (drag_start_x self); try reflexivity.
    apply length_alter.
  - intros j track' Hj.
    apply (f_equal (fun l => l !! j)) in Hlayout.
    rewrite !list_lookup_fmap, Hj in Hlayout.
    assert (Hsame : forall track,
              Some (Track.layout track') = Some (Track.layout track) ->
              Track.name track' = Track.name track
              /\ Track.color track' = Track.color track
              /\ Track.curves track' = Track.curves track
              /\ Track.width track' = Track.width track).
    { unfold Track.layout. intros track [= -> -> -> ->]. auto. }
    destruct (dragging self) eqn:Hdrag, (drag_track_idx self) as [idx|] eqn:Hidx,
      (xdata event), (drag_start_x self);
      try (destruct (tracks self !! j) as [track|]; [| discriminate];
           apply Hsame in Hlayout as (? & ? & ? & ?); exists track;
           repeat (split; [assumption || reflexivity |]); now left).
    destruct (decide (idx = j)) as [->|Hne].
    + rewrite list_lookup_alter_eq in Hlayout.
      destruct (tracks self !! j) as [track|]; [| discriminate].
      unfold Track.layout in Hlayout. simpl in Hlayout.
      injection Hlayout as Hn Hw Hc Hcs. exists track.
      split; [reflexivity |]. split; [exact Hn |]. split; [exact Hc |].
      split; [exact Hcs |]. right. split; reflexivity.
    + rewrite list_lookup_alter_ne in Hlayout by exact Hne.
      destruct (tracks self !! j) as [track|]; [| discriminate].
      apply Hsame in Hlayout as (? & ? & ? & ?). exists track.
      repeat (split; [assumption || reflexivity |]). now left.
  - intros i current_x start track Hdrag Hidx Hx Hstart Hi.
    rewrite Hdrag, Hidx, Hx, Hstart in Hlayout.
    apply (f_equal (fun l => l !! i)) in Hlayout.
    rewrite !list_lookup_fmap, list_lookup_alter_eq, Hi in Hlayout.
    destruct (tracks (on_motion event self).1 !! i) as [track'|]; [| discriminate].
    unfold Track.layout in Hlayout. simpl in Hlayout.
    injection Hlayout as Hn Hw Hc Hcs. exists track'.
    split; [reflexivity |]. split; [exact Hw |].
    rewrite Hw. now apply py_max_floor.
Qed.

Lemma C9_resize_floor_and_frame_witness :
  exists track',
    tracks (on_motion motion_left canvas_dragging).1 !! 1%nat = Some track'
    /\ Track.width track'
       = py_max (Fin 0.1) (fadd (Fin 1.0) (fmul (fsub (Fin (-200)) (Fin 0.5)) (Fin 0.01)))
    /\ fleb (Fin 0.1) (Track.width track') = true.
Proof.
  apply (proj2 (proj2 (C9_resize_floor_and_frame canvas_dragging motion_left))
           1%nat (Fin (-200)) (Fin 0.5)
           (new_axis (Fin 1000, Fin 1001) (Track.__init__ "GR" (Fin 1.0) "green")));
    reflexivity.
Defined.

(** ** Loading wells *)

(** C8.  When parsing the curve file fails ([lasio.read] raises, or the
    data frame cannot be built), [load_well] returns None and the
    manager, with its wells mapping, is the one before the call: the
    half-built well is not exposed.  Only a successful parse changes the
    mapping, by the entry of the loaded well under its name. *)
Theorem C8_load_failure_leaves_wells
    (lasio_read : string -> option lasio.LASFile) (Path_stem : string -> string)
    (self : WellDataManager.t) (file_path : string) :
  let loaded :=
    WellLogDataLoader.load_from_las lasio_read Path_stem
      (WellLogData.__init__ WellLogData.default_name) file_path in
  (lasio_read file_path = None -> loaded.2 = false)
  /\ (loaded.2 = false ->
      WellDataManager.load_well lasio_read Path_stem self file_path = (self, None))
  /\ (loaded.2 = true ->
      is_Some (lasio_read file_path)
      /\ WellDataManager.load_well lasio_read Path_stem self file_path
         = ({| WellDataManager.wells :=
                 <[WellLogData.name loaded.1 := loaded.1]> (WellDataManager.wells self) |},
            Some (WellLogData.name loaded.1))).
Proof.
  cbv zeta. unfold WellDataManager.load_well.
  destruct (WellLogDataLoader.load_from_las _ _ _ _) as [well ok] eqn:Hload.
  simpl. split; [| split].
  - intros Hread. unfold WellLogDataLoader.load_from_las in Hload.
    rewrite Hread in Hload. now injection Hload as _ <-.
  - now intros ->.
  - intros ->. split; [| reflexivity].
    unfold WellLogDataLoader.load_from_las in Hload.
    destruct (lasio_read file_path); [eauto | discriminate].
Qed.

Lemma C8_load_failure_leaves_wells_witness :
  WellDataManager.load_well demo_lasio_read demo_Path_stem
    WellDataManager.__init__ "wells/broken.las"
  = (WellDataManager.__init__, None).
Proof.
  apply (proj1 (proj2 (C8_load_failure_leaves_wells demo_lasio_read demo_Path_stem
                         WellDataManager.__init__ "wells/broken.las"))).
  apply (proj1 (C8_load_failure_leaves_wells demo_lasio_read demo_Path_stem
                  WellDataManager.__init__ "wells/broken.las")).
  reflexivity.
Defined.

(** ** Depth range *)

Lemma with_axis_keeps_depth_range r i call :
  keeps (fun self => depth_range self = r) (fun _ => True) (with_axis i call).
Proof.
  intros self Hr. unfold with_axis.
  destruct (tracks self !! i) as [track|]; [| now split].
  now destruct (Track.axis track).
Qed.

Lemma zoom_to_depth_range_sets min_depth max_depth self :
  depth_range (zoom_to_depth_range min_depth max_depth self).1
  = (min_depth, max_depth).
Proof.
  unfold zoom_to_depth_range.
  rewrite (bind_ok (modify _) _ self _ () eq_refl).
  set (self1 := set_depth_range _ self).
  rewrite (bind_ok get _ self1 self1 self1 eq_refl).
  apply (keeps_for (fun s => depth_range s = (min_depth, max_depth)) (fun _ => True));
    [| reflexivity].
  intros. apply with_axis_keeps_depth_range.
Qed.

Lemma fleb_not_fltb (x y : float64) : fleb y x = true -> fltb x y = false.
Proof. destruct x, y; try discriminate; try reflexivity; simpl; intros; qsolve. Qed.

Import EnhancedWellSectionWidget.

(** What [update_depth_range] leaves of the canvas and of the status. *)
Lemma update_depth_range_result float format_0f (self : EnhancedWellSectionWidget.t) :
  let self' := (update_depth_range float format_0f self).1 in
  match float (min_depth_edit self), float (max_depth_edit self) with
  | Some min_depth, Some max_depth =>
      if fltb min_depth max_depth
      then canvas self' = (zoom_to_depth_range min_depth max_depth (canvas self)).1
      else canvas self' = canvas self /\ status_label self' = "Invalid depth range"
  | _, _ => canvas self' = canvas self /\ status_label self' = "Invalid depth values"
  end.
Proof.
  cbv zeta. unfold update_depth_range, try_except.
  rewrite (bind_ok get _ self self self eq_refl). unfold parse_float.
  destruct (float (min_depth_edit self)) as [min_depth|]; [| split; reflexivity].
  rewrite (bind_ok (mret min_depth) _ self self min_depth eq_refl).
  destruct (float (max_depth_edit self)) as [max_depth|]; [| split; reflexivity].
  rewrite (bind_ok (mret max_depth) _ self self max_depth eq_refl).
  destruct (fltb min_depth max_depth); [| split; reflexivity].
  unfold mbind, M_bind, on_canvas.
  destruct (zoom_to_depth_range min_depth max_depth (canvas self)) as [c [e|[]]];
    [| reflexivity].
  cbn [fst snd]. now destruct (decide (e = ValueError)).
Qed.

(** C2 (amended).  The guard is in the handler of the two depth edits.
    For every prior depth range and every requested pair (min, max), a
    depth-range edit with [min >= max] is rejected and the depth range
    of the view is the one before; only an edit with [min < max] changes
    the depth range, and then to exactly (min, max).
    [zoom_to_depth_range] itself has no guard: for every pair, ordered
    or not, it sets the depth range to exactly that pair. *)
Theorem C2_depth_range_edit_guard
    (float : string -> option float64) (format_0f : float64 -> string)
    (self : EnhancedWellSectionWidget.t) :
  let self' := (update_depth_range float format_0f self).1 in
  (forall min_depth max_depth,
     float (min_depth_edit self) = Some min_depth ->
     float (max_depth_edit self) = Some max_depth ->
     (fleb max_depth min_depth = true ->
      depth_range (canvas self') = depth_range (canvas self)
      /\ canvas self' = canvas self
      /\ status_label self' = "Invalid depth range")
     /\ (fltb min_depth max_depth = true ->
         depth_range (canvas self') = (min_depth, max_depth)))
  /\ (depth_range (canvas self') <> depth_range (canvas self) ->
      exists min_depth max_depth,
        float (min_depth_edit self) = Some min_depth
        /\ float (max_depth_edit self) = Some max_depth
        /\ fltb min_depth max_depth = true
        /\ depth_range (canvas self') = (min_depth, max_depth))
  /\ (forall min_depth max_depth (view : WellSectionCanvas.t),
      depth_range (zoom_to_depth_range min_depth max_depth view).1
      = (min_depth, max_depth)).
Proof.
  cbv zeta. pose proof (update_depth_range_result float format_0f self) as Hres.
  cbv zeta in Hres. split; [| split].
  - intros min_depth max_depth Hmin Hmax. rewrite Hmin, Hmax in Hres. split.
    + intros Hge. rewrite (fleb_not_fltb _ _ Hge) in Hres.
      destruct Hres as [-> ->]. auto.
    + intros Hlt. rewrite Hlt in Hres. rewrite Hres.
      apply zoom_to_depth_range_sets.
  - intros Hchanged.
    destruct (float (min_depth_edit self)) as [min_depth|];
      [| destruct Hres as [Hc _]; now rewrite Hc in Hchanged].
    destruct (float (max_depth_edit self)) as [max_depth|];
      [| destruct Hres as [Hc _]; now rewrite Hc in Hchanged].
    destruct (fltb min_depth max_depth) eqn:Hlt;
      [| destruct Hres as [Hc _]; now rewrite Hc in Hchanged].
    exists min_depth, max_depth. do 2 (split; [reflexivity |]). split; [exact Hlt |].
    rewrite Hres. apply zoom_to_depth_range_sets.
  - intros min_depth max_depth view. apply zoom_to_depth_range_sets.
Qed.

Lemma C2_depth_range_edit_guard_witness :
  depth_range (canvas (update_depth_range demo_float demo_format_0f
                         (widget_with_edits "500" "100")).1)
  = depth_range (canvas (widget_with_edits "500" "100"))
  /\ depth_range (canvas (update_depth_range demo_float demo_format_0f
                            (widget_with_edits "100" "500")).1)
     = (Fin 100, Fin 500).
Proof.
  split.
  - apply (proj1 (proj1 (C2_depth_range_edit_guard demo_float demo_format_0f
                           (widget_with_edits "500" "100"))
                    (Fin 500) (Fin 100) eq_refl eq_refl)).
    reflexivity.
  - apply (proj2 (proj1 (C2_depth_range_edit_guard demo_float demo_format_0f
                           (widget_with_edits "100" "500"))
                    (Fin 100) (Fin 500) eq_refl eq_refl)).
    reflexivity.
Defined.

(** C2 as stated fails on [zoom_to_depth_range], which the claim counts
    among the requests: zoom(500, 100) on a view showing 1000 to 1001
    returns and leaves the range (500, 100), not the range it had. *)
Lemma C2_zoom_to_depth_range_unguarded :
  fleb (Fin 100) (Fin 500) = true
  /\ depth_range canvas_bound = (Fin 1000, Fin 1001)
  /\ zoom_to_depth_range (Fin 500) (Fin 100) canvas_bound
     = (set_tracks (tracks (zoom_to_depth_range (Fin 500) (Fin 100) canvas_bound).1)
          (set_depth_range (Fin 500, Fin 100) canvas_bound), inr ())
  /\ depth_range (zoom_to_depth_range (Fin 500) (Fin 100) canvas_bound).1
     = (Fin 500, Fin 100)
  /\ depth_range (zoom_to_depth_range (Fin 500) (Fin 100) canvas_bound).1
     <> depth_range canvas_bound.
Proof.
  split; [reflexivity |]. split; [reflexivity |]. split; [reflexivity |].
  split; [reflexivity |]. discriminate.
Qed.

(** ** Workspace files *)

Lemma string_app_cons (x : ascii) (a b : string) :
  String x a ++ b = String x (a ++ b).
Proof. reflexivity. Qed.

Lemma string_app_nil_l (a : string) : "" ++ a = a.
Proof. reflexivity. Qed.

Lemma string_app_assoc (a b c : string) : (a ++ b) ++ c = a ++ (b ++ c).
Proof.
  induction a as [|x a IH]; [reflexivity |].
  rewrite !string_app_cons. now f_equal.
Qed.

Lemma string_app_nil_r (a : string) : a ++ "" = a.
Proof.
  induction a as [|x a IH]; [reflexivity |].
  rewrite string_app_cons. now f_equal.
Qed.

Lemma string_length_app (a b : string) :
  String.length (a ++ b) = (String.length a + String.length b)%nat.
Proof.
  induction a as [|x a IH]; [reflexivity |].
  rewrite string_app_cons. cbn [String.length]. now rewrite IH.
Qed.

Lemma string_forall_app (P : ascii -> bool) (a b : string) :
  string_forall P (a ++ b) = string_forall P a && string_forall P b.
Proof.
  induction a as [|x a IH]; [reflexivity |].
  rewrite string_app_cons. cbn [string_forall]. rewrite IH. apply andb_assoc.
Qed.

(** *** Strings *)

Lemma parse_string_char (c : ascii) (acc t : string) :
  json.parse_string acc (json.escape_char c ++ t)
  = json.parse_string (String c acc) t.
Proof. destruct c as [[] [] [] [] [] [] [] []]; reflexivity. Qed.

(** A written string is read back, up to its closing quote. *)
Lemma parse_string_escape (s acc rest : string) :
  json.parse_string acc (json.escape s ++ String quote rest)
  = Some (String.rev_app acc s, rest).
Proof.
  revert acc. induction s as [|c s IH]; intros acc; [reflexivity |].
  cbn [json.escape]. rewrite string_app_assoc, parse_string_char. apply IH.
Qed.

(** *** Integers *)

Lemma pretty_N_go_app (x : N) (s : string) :
  pretty_N_go x s = pretty_N_go x "" ++ s.
Proof.
  revert s. induction (N.lt_wf_0 x) as [x _ IH]. intros s.
  destruct (decide (x = 0%N)) as [->|Hx]; [reflexivity |].
  rewrite !(pretty_N_go_step x) by lia.
  rewrite (IH (x `div` 10)%N) by (apply N.div_lt; lia).
  rewrite (IH (x `div` 10)%N ltac:(apply N.div_lt; lia) (String _ "")).
  now rewrite string_app_assoc.
Qed.

Lemma pretty_N_go_last (x : N) :
  (0 < x)%N ->
  pretty_N_go x ""
  = pretty_N_go (x `div` 10)%N "" ++ String (pretty_N_char (x `mod` 10)) "".
Proof. intros Hx. rewrite pretty_N_go_step by exact Hx. apply pretty_N_go_app. Qed.

Lemma pretty_N_char_cases (y : N) :
  (y < 10)%N ->
  json.is_digit (pretty_N_char y) = true
  /\ Z.of_nat (nat_of_ascii (pretty_N_char y) - 48) = Z.of_N y
  /\ (y <> 0%N -> pretty_N_char y <> "0"%char).
Proof.
  intros Hy.
  assert (Hc : (y = 0 \/ y = 1 \/ y = 2 \/ y = 3 \/ y = 4 \/ y = 5 \/ y = 6
                \/ y = 7 \/ y = 8 \/ y = 9)%N) by lia.
  repeat (destruct Hc as [->|Hc]); try subst y;
    (split; [reflexivity | split; [reflexivity | intros; first [congruence | discriminate]]]).
Qed.

Lemma pretty_N_go_digits (x : N) :
  string_forall json.is_digit (pretty_N_go x "") = true.
Proof.
  induction (N.lt_wf_0 x) as [x _ IH].
  destruct (decide (x = 0%N)) as [->|Hx]; [reflexivity |].
  rewrite pretty_N_go_last by lia. rewrite string_forall_app.
  rewrite IH by (apply N.div_lt; lia). cbn [string_forall andb].
  rewrite (proj1 (pretty_N_char_cases (x `mod` 10)%N ltac:(apply N.mod_lt; lia))).
  reflexivity.
Qed.

Lemma pretty_N_go_head (x : N) :
  (0 < x)%N ->
  exists c digits,
    pretty_N_go x "" = String c digits
    /\ json.is_digit c = true /\ c <> "0"%char.
Proof.
  induction (N.lt_wf_0 x) as [x _ IH]. intros Hx.
  rewrite pretty_N_go_last by exact Hx.
  destruct (decide (x `div` 10 = 0)%N) as [Hsmall|Hbig].
  - rewrite Hsmall. cbn -[pretty_N_char].
    assert (Hlt : (x < 10)%N) by (apply N.div_small_iff in Hsmall; lia).
    rewrite (N.mod_small x 10 Hlt).
    destruct (pretty_N_char_cases x Hlt) as (Hd & _ & Hnz).
    eexists _, _. split; [reflexivity |]. split; [exact Hd | apply Hnz; lia].
  - destruct (IH (x `div` 10)%N) as (c & digits & Heq & Hd & Hnz);
      [apply N.div_lt; lia | now apply N.neq_0_lt_0 |].
    rewrite Heq. eexists _, _. split; [apply string_app_cons |]. now split.
Qed.

Lemma digits_value_app (acc : Z) (a b : string) :
  json.digits_value acc (a ++ b) = json.digits_value (json.digits_value acc a) b.
Proof.
  revert acc. induction a as [|c a IH]; intros acc; [reflexivity |].
  rewrite string_app_cons. cbn [json.digits_value]. apply IH.
Qed.

Lemma digits_value_pretty (x : N) :
  exists K : Z, forall acc,
    json.digits_value acc (pretty_N_go x "") = (acc * K + Z.of_N x)%Z.
Proof.
  induction (N.lt_wf_0 x) as [x _ IH].
  destruct (decide (x = 0%N)) as [->|Hx].
  { exists 1%Z. intros acc. rewrite pretty_N_go_0. cbn [json.digits_value]. lia. }
  destruct (IH (x `div` 10)%N) as [K HK]; [apply N.div_lt; lia |].
  exists (10 * K)%Z. intros acc.
  rewrite pretty_N_go_last by lia. rewrite digits_value_app, HK.
  cbn [json.digits_value].
  rewrite (proj1 (proj2 (pretty_N_char_cases (x `mod` 10)%N
                           ltac:(apply N.mod_lt; lia)))).
  pose proof (N.div_mod x 10 ltac:(lia)) as Hdm.
  apply (f_equal Z.of_N) in Hdm. rewrite N2Z.inj_add, N2Z.inj_mul in Hdm.
  change (Z.of_N 10) with 10%Z in Hdm. lia.
Qed.

(** A comma and whitespace continue no number. *)
Lemma ends_value_char (c : ascii) :
  Ascii.eqb c "," || json.is_ws c = true ->
  json.is_digit c = false /\ Ascii.eqb c "." = false
  /\ Ascii.eqb c "e" || Ascii.eqb c "E" = false.
Proof.
  destruct c as [[] [] [] [] [] [] [] []]; try discriminate; intros _;
    repeat split.
Qed.

Lemma scan_digits_all (digits rest : string) :
  string_forall json.is_digit digits = true ->
  json.ends_value rest = true ->
  json.scan_digits (digits ++ rest) = (digits, rest).
Proof.
  intros Hd Hrest. induction digits as [|c digits IH].
  - destruct rest as [|c rest]; [reflexivity |].
    cbn [json.ends_value] in Hrest.
    destruct (ends_value_char c Hrest) as (Hc & _).
    rewrite string_app_nil_l. cbn [json.scan_digits]. now rewrite Hc.
  - cbn [string_forall] in Hd. apply andb_prop in Hd as [Hc Hd].
    rewrite string_app_cons. cbn [json.scan_digits]. now rewrite Hc, IH.
Qed.

(** Behind a value there is neither a fraction nor an exponent. *)
Lemma scan_frac_exp_none (rest : string) :
  json.ends_value rest = true ->
  json.scan_frac rest = ("", rest) /\ json.scan_exp rest = ("", rest).
Proof.
  intros Hrest. destruct rest as [|c rest]; [split; reflexivity |].
  cbn [json.ends_value] in Hrest.
  destruct (ends_value_char c Hrest) as (_ & Hpoint & Hexp).
  unfold json.scan_frac, json.scan_exp. now rewrite Hpoint, Hexp.
Qed.

Lemma scan_int_plain (c : ascii) (rest : string) :
  Ascii.eqb c "-" = false ->
  json.scan_int (String c rest)
  = if Ascii.eqb c "0" then Some ("0", rest)
    else if json.is_digit c then
      let '(digits, rest') := json.scan_digits rest in Some (String c digits, rest')
    else None.
Proof. intros Hc. unfold json.scan_int. now rewrite Hc. Qed.

Lemma scan_int_minus (c : ascii) (rest : string) :
  json.scan_int (String "-" (String c rest))
  = if Ascii.eqb c "0" then Some ("-0", rest)
    else if json.is_digit c then
      let '(digits, rest') := json.scan_digits rest in
      Some (String "-" (String c digits), rest')
    else None.
Proof. reflexivity. Qed.

Section floats.
Variable float_repr : float64 -> string.
Variable float : string -> float64.

Lemma scan_number_digits (sign : string) (c : ascii) (digits rest : string) :
  (sign = "" \/ sign = "-") ->
  json.is_digit c = true -> c <> "0"%char ->
  string_forall json.is_digit digits = true ->
  json.ends_value rest = true ->
  json.scan_number float (sign ++ String c digits ++ rest)
  = Some (json.Int (json.int (sign ++ String c digits)), rest).
Proof.
  intros Hsign Hc Hnz Hd Hrest.
  assert (Hminus : Ascii.eqb c "-" = false)
    by (destruct (Ascii.eqb_spec c "-"); [subst; discriminate | reflexivity]).
  assert (Hzero : Ascii.eqb c "0" = false)
    by (destruct (Ascii.eqb_spec c "0"); [contradiction | reflexivity]).
  assert (Hint : json.scan_int (sign ++ String c digits ++ rest)
                 = Some (sign ++ String c digits, rest)).
  { destruct Hsign as [-> | ->]; rewrite ?string_app_nil_l, ?string_app_cons.
    - rewrite scan_int_plain by exact Hminus.
      now rewrite Hzero, Hc, (scan_digits_all _ _ Hd Hrest).
    - rewrite string_app_nil_l, scan_int_minus.
      now rewrite Hzero, Hc, (scan_digits_all _ _ Hd Hrest). }
  unfold json.scan_number. rewrite Hint.
  destruct (scan_frac_exp_none rest Hrest) as [-> ->]. reflexivity.
Qed.

(** A written integer is read back. *)
Lemma scan_number_pretty (n : Z) (rest : string) :
  json.ends_value rest = true ->
  json.scan_number float (pretty n ++ rest) = Some (json.Int n, rest).
Proof.
  intros Hrest. destruct n as [|p|p].
  - change (pretty 0%Z) with "0". unfold json.scan_number.
    change (json.scan_int ("0" ++ rest)) with (Some ("0", rest)).
    destruct (scan_frac_exp_none rest Hrest) as [-> ->]. reflexivity.
  - change (pretty (Z.pos p)) with (pretty_N_go (N.pos p) "").
    destruct (pretty_N_go_head (N.pos p)) as (c & digits & Heq & Hc & Hnz); [lia |].
    pose proof (pretty_N_go_digits (N.pos p)) as Hd.
    destruct (digits_value_pretty (N.pos p)) as [K HK].
    specialize (HK 0%Z). rewrite Heq in Hd, HK |- *.
    cbn [string_forall] in Hd. apply andb_prop in Hd as [_ Hd].
    pose proof (scan_number_digits "" c digits rest (or_introl eq_refl)
                  Hc Hnz Hd Hrest) as Hscan.
    rewrite !string_app_nil_l in Hscan. rewrite Hscan. unfold json.int.
    destruct (Ascii.eqb_spec c "-"); [subst; discriminate |].
    rewrite HK. reflexivity.
  - change (pretty (Z.neg p)) with ("-" ++ pretty_N_go (N.pos p) "").
    destruct (pretty_N_go_head (N.pos p)) as (c & digits & Heq & Hc & Hnz); [lia |].
    pose proof (pretty_N_go_digits (N.pos p)) as Hd.
    destruct (digits_value_pretty (N.pos p)) as [K HK].
    specialize (HK 0%Z). rewrite Heq in Hd, HK |- *.
    cbn [string_forall] in Hd. apply andb_prop in Hd as [_ Hd].
    rewrite string_app_assoc.
    rewrite (scan_number_digits "-" c digits rest (or_intror eq_refl)
               Hc Hnz Hd Hrest).
    change (json.int ("-" ++ String c digits))
      with (- json.digits_value 0 (String c digits))%Z.
    rewrite HK. reflexivity.
Qed.

End floats.

(** *** Documents *)

Lemma value_ind_nested (Q : json.value -> Prop) :
  Q json.Null -> (forall b, Q (json.Bool b)) -> (forall n, Q (json.Int n)) ->
  (forall x, Q (json.Float x)) -> (forall s, Q (json.Str s)) ->
  (forall items, Forall Q items -> Q (json.List items)) ->
  (forall items, Forall (fun kv => Q kv.2) items -> Q (json.Dict items)) ->
  forall v, Q v.
Proof.
  intros HN HB HI HF HS HL HD. fix IH 1.
  intros [|b|n|x|s|items|items];
    [exact HN | apply HB | apply HI | apply HF | apply HS | |].
  - apply HL. induction items as [|x items IHi]; constructor; [apply IH | exact IHi].
  - apply HD. induction items as [|[k x] items IHi]; constructor; [apply IH | exact IHi].
Qed.

Lemma holds_List (P : json.value -> Prop) (items : list json.value) :
  json.holds P (json.List items)
  <-> P (json.List items) /\ Forall (json.holds P) items.
Proof.
  cbn [json.holds]. apply and_iff_compat_l.
  induction items as [|x items IH]; [split; [constructor | trivial] |].
  rewrite Forall_cons, IH. reflexivity.
Qed.

Lemma holds_Dict (P : json.value -> Prop) (items : list (string * json.value)) :
  json.holds P (json.Dict items)
  <-> P (json.Dict items) /\ Forall (fun kv => json.holds P kv.2) items.
Proof.
  cbn [json.holds]. apply and_iff_compat_l.
  induction items as [|x items IH]; [split; [constructor | trivial] |].
  rewrite Forall_cons, IH. reflexivity.
Qed.

Lemma holds_here (P : json.value -> Prop) (v : json.value) : json.holds P v -> P v.
Proof. destruct v; now intros [H _]. Qed.

Lemma store_new (key : string) (v : json.value) (acc : list (string * json.value)) :
  key ∉ acc.*1 -> json.store key v acc = (acc ++ [(key, v)])%list.
Proof.
  induction acc as [|[k x] acc IH]; [reflexivity |].
  cbn [fmap list_fmap fst]. rewrite not_elem_of_cons. intros [Hne Hnot].
  cbn [json.store]. destruct (String.eqb_spec k key); [congruence |].
  cbn [app]. now rewrite IH.
Qed.

Lemma skip_ws_spaces (n : nat) (s : string) :
  json.skip_ws (json.spaces n ++ s) = json.skip_ws s.
Proof. induction n as [|n IH]; [reflexivity | exact IH]. Qed.

Lemma skip_ws_newline_indent (level : nat) (s : string) :
  json.skip_ws (json.newline_indent level ++ s) = json.skip_ws s.
Proof.
  unfold json.newline_indent. rewrite string_app_cons.
  change (json.skip_ws (String newline ?t)) with (json.skip_ws t).
  apply skip_ws_spaces.
Qed.


Lemma starts_value_skip_ws (s : string) :
  starts_value s = true -> json.skip_ws s = s.
Proof.
  destruct s as [|c s]; [discriminate |]. cbn [starts_value json.skip_ws].
  now destruct (json.is_ws c).
Qed.

Lemma starts_value_app (a b : string) :
  starts_value a = true -> starts_value (a ++ b) = true.
Proof. now destruct a. Qed.


Lemma number_head_facts (c : ascii) :
  number_head c = true ->
  Ascii.eqb c quote = false /\ Ascii.eqb c "{" = false /\ Ascii.eqb c "[" = false
  /\ json.is_ws c = false /\ Ascii.eqb c "]" = false
  /\ forall t, strip_prefix "null" (String c t) = None
               /\ strip_prefix "true" (String c t) = None
               /\ strip_prefix "false" (String c t) = None.
Proof.
  destruct c as [[] [] [] [] [] [] [] []]; try discriminate; intros _;
    repeat split.
Qed.

Section documents.
Variable float_repr : float64 -> string.
Variable float : string -> float64.

Local Notation writable := (writable float_repr float).
Local Notation reads := (reads float_repr float).

Lemma scan_number_head (s : string) (found : json.value * string) :
  json.scan_number float s = Some found ->
  exists c t, s = String c t /\ number_head c = true.
Proof.
  unfold json.scan_number.
  destruct (json.scan_int s) as [[integer rest]|] eqn:Hint; [| discriminate].
  intros _. destruct s as [|c t]; [discriminate |].
  exists c, t. split; [reflexivity |]. unfold number_head.
  destruct (Ascii.eqb c "-") eqn:Hminus; [apply orb_true_r |].
  rewrite scan_int_plain in Hint by exact Hminus.
  destruct (Ascii.eqb_spec c "0") as [->|_]; [reflexivity |].
  destruct (json.is_digit c); [reflexivity | discriminate].
Qed.

Lemma parse_value_quote (fuel : nat) (t : string) :
  json.parse_value float (S fuel) (String quote t)
  = match json.parse_string "" t with
    | Some (str, rest') => Some (json.Str str, rest')
    | None => None
    end.
Proof. reflexivity. Qed.

Lemma parse_value_bracket (fuel : nat) (t : string) :
  json.parse_value float (S fuel) (String "[" t)
  = match json.skip_ws t with
    | String d rest' =>
        if Ascii.eqb d "]" then Some (json.List [], rest')
        else json.parse_items float fuel [] (String d rest')
    | EmptyString => None
    end.
Proof. reflexivity. Qed.

Lemma parse_value_brace (fuel : nat) (t : string) :
  json.parse_value float (S fuel) (String "{" t)
  = match json.skip_ws t with
    | String d rest' =>
        if Ascii.eqb d "}" then Some (json.Dict [], rest')
        else json.parse_members float fuel [] (String d rest')
    | EmptyString => None
    end.
Proof. reflexivity. Qed.

Lemma parse_value_number (fuel : nat) (s : string) (found : json.value * string) :
  json.scan_number float s = Some found ->
  json.parse_value float (S fuel) s = Some found.
Proof.
  intros Hscan. destruct (scan_number_head s found Hscan) as (c & t & -> & Hc).
  destruct (number_head_facts c Hc) as (H1 & H2 & H3 & _ & _ & Hlit).
  destruct (Hlit t) as (Hnull & Htrue & Hfalse).
  cbn [json.parse_value]. rewrite H1, H2, H3.
  unfold json.scan_literal. now rewrite Hnull, Htrue, Hfalse, Hscan.
Qed.

Lemma parse_items_comma (fuel : nat) (acc : list json.value) (s : string)
    (v : json.value) (t : string) :
  json.parse_value float fuel s = Some (v, String "," t) ->
  json.parse_items float (S fuel) acc s
  = json.parse_items float fuel (acc ++ [v]) (json.skip_ws t).
Proof. intros H. cbn [json.parse_items]. now rewrite H. Qed.

Lemma parse_items_close (fuel : nat) (acc : list json.value) (s : string)
    (v : json.value) (rest rest' : string) :
  json.parse_value float fuel s = Some (v, rest) ->
  json.skip_ws rest = String "]" rest' ->
  json.parse_items float (S fuel) acc s = Some (json.List (acc ++ [v]), rest').
Proof. intros H1 H2. cbn [json.parse_items]. now rewrite H1, H2. Qed.

Lemma parse_members_comma (fuel : nat) (acc : list (string * json.value))
    (s : string) (key : string) (rest : string) (v : json.value) (t : string) :
  json.parse_string "" s = Some (key, String ":" rest) ->
  json.parse_value float fuel (json.skip_ws rest) = Some (v, String "," t) ->
  json.parse_members float (S fuel) acc (String quote s)
  = json.parse_members float fuel (json.store key v acc) (json.skip_ws t).
Proof.
  intros H1 H2. cbn [json.parse_members].
  change (Ascii.eqb quote quote) with true. cbv iota. rewrite H1.
  change (json.skip_ws (String ":" rest)) with (String ":" rest).
  change (Ascii.eqb ":" ":") with true. cbv iota. now rewrite H2.
Qed.

Lemma parse_members_close (fuel : nat) (acc : list (string * json.value))
    (s : string) (key : string) (rest : string) (v : json.value)
    (rest1 rest' : string) :
  json.parse_string "" s = Some (key, String ":" rest) ->
  json.parse_value float fuel (json.skip_ws rest) = Some (v, rest1) ->
  json.skip_ws rest1 = String "}" rest' ->
  json.parse_members float (S fuel) acc (String quote s)
  = Some (json.Dict (json.store key v acc), rest').
Proof.
  intros H1 H2 H3. cbn [json.parse_members].
  change (Ascii.eqb quote quote) with true. cbv iota. rewrite H1.
  change (json.skip_ws (String ":" rest)) with (String ":" rest).
  change (Ascii.eqb ":" ":") with true. cbv iota. now rewrite H2, H3.
Qed.


Lemma dump_starts_value (level : nat) (v : json.value) (rest : string) :
  writable v -> starts_value (json.dump float_repr level v ++ rest) = true.
Proof.
  intros Hv. apply starts_value_app.
  assert (Hnumber : forall text found,
            json.scan_number float (text ++ "") = Some found ->
            starts_value text = true).
  { intros text found Hscan. rewrite string_app_nil_r in Hscan.
    destruct (scan_number_head _ _ Hscan) as (c & t & -> & Hc).
    destruct (number_head_facts c Hc) as (_ & _ & _ & Hws & Hclose & _).
    cbn [starts_value]. now rewrite Hws, Hclose. }
  destruct v as [|[]|n|[| |q|]|s|[|x items]|[|kv items]]; try reflexivity.
  - apply (Hnumber _ _ (scan_number_pretty float n "" eq_refl)).
  - apply holds_here in Hv as [_ Hback].
    apply (Hnumber _ _ (Hback "" eq_refl)).
Qed.


Ltac lengths :=
  repeat (progress (rewrite ?string_length_app in *; cbn [String.length] in * ));
  lia.

Lemma join_cons_app (sep : string) (p : string) (parts : list string) (rest : string) :
  exists t, json.join sep (p :: parts) ++ rest = p ++ t.
Proof.
  destruct parts as [|q parts]; cbn [json.join]; [now eexists |].
  rewrite string_app_assoc. now eexists.
Qed.

Lemma join_map_cons {A} (sep : string) (f : A -> string) (x y : A) (l : list A) :
  json.join sep (map f (x :: y :: l)) = f x ++ sep ++ json.join sep (map f (y :: l)).
Proof. reflexivity. Qed.

Lemma parse_items_dump (items : list json.value) :
  items <> [] ->
  Forall (fun x => writable x /\ reads x) items ->
  forall acc level rest fuel,
    (2 * String.length
           (json.join ("," ++ json.newline_indent (S level))
              (map (json.dump float_repr (S level)) items)
            ++ json.newline_indent level ++ "]" ++ rest) + 2 <= fuel)%nat ->
    json.parse_items float fuel acc
      (json.join ("," ++ json.newline_indent (S level))
         (map (json.dump float_repr (S level)) items)
       ++ json.newline_indent level ++ "]" ++ rest)
    = Some (json.List (acc ++ items)%list, rest).
Proof.
  induction items as [|x items IH]; [congruence |]. intros _ Hall.
  apply Forall_cons in Hall as [[Hx Hreads] Hall].
  intros acc level rest fuel Hfuel.
  destruct fuel as [|fuel]; [lia |].
  destruct items as [|y items].
  - cbn [map json.join] in Hfuel |- *.
    apply (parse_items_close _ _ _ x (json.newline_indent level ++ "]" ++ rest)).
    + apply Hreads; [reflexivity | lia].
    + now rewrite skip_ws_newline_indent.
  - rewrite join_map_cons in Hfuel |- *.
    set (tail := json.join _ (map _ (y :: items))) in *.
    rewrite !string_app_assoc in Hfuel |- *.
    rewrite (parse_items_comma _ _ _ x
               (json.newline_indent (S level)
                ++ tail ++ json.newline_indent level ++ "]" ++ rest)).
    2:{ apply Hreads; [reflexivity |]. revert Hfuel. clear. intros. lengths. }
    rewrite skip_ws_newline_indent.
    assert (Hhead : starts_value
                      (tail ++ json.newline_indent level ++ "]" ++ rest) = true).
    { unfold tail. cbn [map].
      destruct (join_cons_app ("," ++ json.newline_indent (S level))
                  (json.dump float_repr (S level) y)
                  (map (json.dump float_repr (S level)) items)
                  (json.newline_indent level ++ "]" ++ rest))
        as [t ->].
      apply dump_starts_value. now apply Forall_cons in Hall as [[Hy _] _]. }
    rewrite (starts_value_skip_ws _ Hhead).
    assert (Hrest : (2 * String.length
                           (tail ++ json.newline_indent level ++ "]" ++ rest)
                     + 2 <= fuel)%nat)
      by (revert Hfuel; clear; intros; lengths).
    subst tail.
    rewrite (IH ltac:(discriminate) Hall (acc ++ [x])%list level rest fuel Hrest).
    now rewrite <- app_assoc.
Qed.

Lemma dump_string_app (key rest : string) :
  json.dump_string key ++ rest
  = String quote (json.escape key ++ String quote rest).
Proof.
  unfold json.dump_string. rewrite string_app_cons, string_app_assoc. reflexivity.
Qed.

Lemma parse_members_dump (items : list (string * json.value)) :
  items <> [] ->
  Forall (fun kv => writable kv.2 /\ reads kv.2) items ->
  forall acc level rest fuel,
    NoDup ((acc ++ items)%list).*1 ->
    (2 * String.length
           (json.join ("," ++ json.newline_indent (S level))
              (map (fun kv => json.dump_string kv.1 ++ ": "
                              ++ json.dump float_repr (S level) kv.2) items)
            ++ json.newline_indent level ++ "}" ++ rest) + 2 <= fuel)%nat ->
    json.parse_members float fuel acc
      (json.join ("," ++ json.newline_indent (S level))
         (map (fun kv => json.dump_string kv.1 ++ ": "
                         ++ json.dump float_repr (S level) kv.2) items)
       ++ json.newline_indent level ++ "}" ++ rest)
    = Some (json.Dict (acc ++ items)%list, rest).
Proof.
  induction items as [|[key x] items IH]; [congruence |]. intros _ Hall.
  apply Forall_cons in Hall as [[Hx Hreads] Hall]. cbn [fst snd] in Hx, Hreads.
  intros acc level rest fuel Hkeys Hfuel.
  assert (Hnew : json.store key x acc = (acc ++ [(key, x)])%list).
  { apply store_new. rewrite fmap_app in Hkeys.
    apply NoDup_app in Hkeys as (_ & Hnot & _). intros Hin.
    apply (Hnot _ Hin). left. }
  assert (Hvalue : forall t, json.skip_ws (" " ++ json.dump float_repr (S level) x ++ t)
                             = json.dump float_repr (S level) x ++ t).
  { intros t. change (json.skip_ws (" " ++ ?u)) with (json.skip_ws u).
    apply starts_value_skip_ws. now apply dump_starts_value. }
  destruct fuel as [|fuel]; [lia |].
  destruct items as [|[key' y] items].
  - cbn [map json.join fst snd] in Hfuel |- *.
    rewrite !string_app_assoc, dump_string_app in Hfuel |- *.
    rewrite (parse_members_close _ _ _ key
               (" " ++ json.dump float_repr (S level) x
                ++ json.newline_indent level ++ "}" ++ rest) x
               (json.newline_indent level ++ "}" ++ rest) rest).
    + now rewrite Hnew.
    + apply parse_string_escape.
    + rewrite Hvalue. apply Hreads; [reflexivity |].
      revert Hfuel. clear. intros. lengths.
    + now rewrite skip_ws_newline_indent.
  - rewrite join_map_cons in Hfuel |- *. cbn [fst snd] in Hfuel |- *.
    set (tail := json.join _ (map _ (_ :: items))) in *.
    rewrite !string_app_assoc, dump_string_app in Hfuel |- *.
    rewrite (parse_members_comma _ _ _ key
               (" " ++ json.dump float_repr (S level) x
                ++ "," ++ json.newline_indent (S level)
                ++ tail ++ json.newline_indent level ++ "}" ++ rest) x
               (json.newline_indent (S level)
                ++ tail ++ json.newline_indent level ++ "}" ++ rest)).
    2:{ apply parse_string_escape. }
    2:{ rewrite Hvalue. apply Hreads; [reflexivity |].
        revert Hfuel. clear. intros. lengths. }
    rewrite skip_ws_newline_indent.
    assert (Hhead : json.skip_ws (tail ++ json.newline_indent level ++ "}" ++ rest)
                    = tail ++ json.newline_indent level ++ "}" ++ rest).
    { unfold tail. cbn [map fst snd].
      destruct (join_cons_app ("," ++ json.newline_indent (S level))
                  (json.dump_string key' ++ ": " ++ json.dump float_repr (S level) y)
                  (map (fun kv => json.dump_string kv.1 ++ ": "
                                  ++ json.dump float_repr (S level) kv.2) items)
                  (json.newline_indent level ++ "}" ++ rest))
        as [t ->].
      now rewrite !string_app_assoc, dump_string_app. }
    rewrite Hhead.
    assert (Hrest : (2 * String.length
                           (tail ++ json.newline_indent level ++ "}" ++ rest)
                     + 2 <= fuel)%nat)
      by (revert Hfuel; clear; intros; lengths).
    subst tail. rewrite Hnew.
    rewrite (IH ltac:(discriminate) Hall (acc ++ [(key, x)])%list level rest fuel).
    + now rewrite <- app_assoc.
    + now rewrite <- app_assoc.
    + exact Hrest.
Qed.

Lemma bracket_items (fuel : nat) (t : string) :
  starts_value t = true ->
  match json.skip_ws t with
  | String d rest' =>
      if Ascii.eqb d "]" then Some (json.List [], rest')
      else json.parse_items float fuel [] (String d rest')
  | EmptyString => None
  end = json.parse_items float fuel [] t.
Proof.
  intros Ht. rewrite starts_value_skip_ws by exact Ht.
  destruct t as [|d t]; [discriminate |]. cbn [starts_value] in Ht.
  apply andb_prop in Ht as [_ Ht]. apply negb_true_iff in Ht. now rewrite Ht.
Qed.

(** What [json.dump] writes for a value, [json.loads] reads as that
    value, whatever the nesting level and whatever ends the value. *)
Lemma dump_reads (v : json.value) : writable v -> reads v.
Proof.
  induction v as [|b|n|x|s|items IH|items IH] using value_ind_nested;
    intros Hv level rest fuel Hrest Hfuel;
    (destruct fuel as [|fuel]; [lia |]).
  - reflexivity.
  - now destruct b.
  - apply parse_value_number, scan_number_pretty, Hrest.
  - destruct x as [| |q|]; try reflexivity.
    apply parse_value_number. apply holds_here in Hv as [_ Hback].
    now apply Hback.
  - cbn [json.dump]. rewrite dump_string_app, parse_value_quote.
    now rewrite parse_string_escape.
  - apply holds_List in Hv as [_ Hv].
    assert (Hall : Forall (fun x => writable x /\ reads x) items).
    { clear -IH Hv. induction IH as [|x items Hx _ IHi]; [constructor |].
      apply Forall_cons in Hv as [Hvx Hv]. constructor; [| now apply IHi].
      split; [exact Hvx | now apply Hx]. }
    destruct items as [|x items]; [reflexivity |].
    change (json.dump float_repr level (json.List (x :: items)))
      with ("[" ++ json.newline_indent (S level)
            ++ json.join ("," ++ json.newline_indent (S level))
                 (map (json.dump float_repr (S level)) (x :: items))
            ++ json.newline_indent level ++ "]") in Hfuel |- *.
    rewrite !string_app_assoc in Hfuel |- *.
    rewrite string_app_cons, string_app_nil_l in Hfuel |- *.
    rewrite parse_value_bracket, skip_ws_newline_indent.
    assert (Hhead : starts_value
                      (json.join ("," ++ json.newline_indent (S level))
                         (map (json.dump float_repr (S level)) (x :: items))
                       ++ json.newline_indent level ++ "]" ++ rest) = true).
    { cbn [map].
      destruct (join_cons_app ("," ++ json.newline_indent (S level))
                  (json.dump float_repr (S level) x)
                  (map (json.dump float_repr (S level)) items)
                  (json.newline_indent level ++ "]" ++ rest)) as [t ->].
      apply dump_starts_value. now apply Forall_cons in Hall as [[Hx _] _]. }
    rewrite (bracket_items _ _ Hhead).
    apply (parse_items_dump (x :: items) ltac:(discriminate) Hall []).
    revert Hfuel. clear. intros. lengths.
  - apply holds_Dict in Hv as [[Hkeys _] Hv]. cbn [json.keys_once] in Hkeys.
    assert (Hall : Forall (fun kv => writable kv.2 /\ reads kv.2) items).
    { clear -IH Hv. induction IH as [|x items Hx _ IHi]; [constructor |].
      apply Forall_cons in Hv as [Hvx Hv]. constructor; [| now apply IHi].
      split; [exact Hvx | now apply Hx]. }
    destruct items as [|[key x] items]; [reflexivity |].
    change (json.dump float_repr level (json.Dict ((key, x) :: items)))
      with ("{" ++ json.newline_indent (S level)
            ++ json.join ("," ++ json.newline_indent (S level))
                 (map (fun kv => json.dump_string kv.1 ++ ": "
                                 ++ json.dump float_repr (S level) kv.2)
                      ((key, x) :: items))
            ++ json.newline_indent level ++ "}") in Hfuel |- *.
    rewrite !string_app_assoc in Hfuel |- *.
    rewrite string_app_cons, string_app_nil_l in Hfuel |- *.
    rewrite parse_value_brace, skip_ws_newline_indent.
    assert (Hhead : exists t,
              json.join ("," ++ json.newline_indent (S level))
                (map (fun kv => json.dump_string kv.1 ++ ": "
                                ++ json.dump float_repr (S level) kv.2)
                     ((key, x) :: items))
              ++ json.newline_indent level ++ "}" ++ rest
              = String quote t).
    { cbn [map fst snd].
      destruct (join_cons_app ("," ++ json.newline_indent (S level))
                  (json.dump_string key ++ ": " ++ json.dump float_repr (S level) x)
                  (map (fun kv => json.dump_string kv.1 ++ ": "
                                  ++ json.dump float_repr (S level) kv.2) items)
                  (json.newline_indent level ++ "}" ++ rest)) as [t ->].
      rewrite !string_app_assoc, dump_string_app. now eexists. }
    destruct Hhead as [t Ht].
    pose proof (parse_members_dump ((key, x) :: items) ltac:(discriminate) Hall
                  [] level rest fuel Hkeys) as Hparse.
    rewrite Ht in Hparse, Hfuel |- *.
    change (json.skip_ws (String quote t)) with (String quote t).
    change (Ascii.eqb quote "}") with false. cbv iota.
    apply Hparse. revert Hfuel. clear. intros. lengths.
Qed.

Lemma skip_ws_all (lead rest : string) :
  string_forall json.is_ws lead = true ->
  json.skip_ws (lead ++ rest) = json.skip_ws rest.
Proof.
  induction lead as [|c lead IH]; [reflexivity |]. cbn [string_forall].
  intros [Hc Hlead]%andb_prop. rewrite string_app_cons. cbn [json.skip_ws].
  rewrite Hc. now apply IH.
Qed.

(** What [json.dumps] writes, [json.loads] reads back, also with
    whitespace around it. *)
Lemma loads_dumps (v : json.value) (lead trail : string) :
  writable v ->
  string_forall json.is_ws lead = true ->
  string_forall json.is_ws trail = true ->
  json.loads float (lead ++ json.dumps float_repr v ++ trail) = Some v.
Proof.
  intros Hv Hlead Htrail. unfold json.loads, json.dumps.
  rewrite (skip_ws_all lead _ Hlead).
  rewrite (starts_value_skip_ws _ (dump_starts_value 0 v trail Hv)).
  assert (Hends : json.ends_value trail = true).
  { destruct trail as [|c trail]; [reflexivity |]. cbn [string_forall] in Htrail.
    apply andb_prop in Htrail as [Hc _]. cbn [json.ends_value].
    rewrite Hc. apply orb_true_r. }
  rewrite (dump_reads v Hv 0%nat trail _ Hends (Nat.le_refl _)).
  pose proof (skip_ws_all trail "" Htrail) as Hskip.
  rewrite string_app_nil_r in Hskip. now rewrite Hskip.
Qed.

End documents.

(** *** Newlines

    What [save] writes holds no carriage return, so that reading it in
    text mode gives the text as it was written. *)


Lemma string_forall_impl (P Q : ascii -> bool) (s : string) :
  (forall c, P c = true -> Q c = true) ->
  string_forall P s = true -> string_forall Q s = true.
Proof.
  intros HPQ. induction s as [|c s IH]; [reflexivity |]. cbn [string_forall].
  intros [Hc Hs]%andb_prop. now rewrite (HPQ c Hc), IH.
Qed.

Lemma universal_newlines_none (s : string) :
  string_forall no_return s = true -> universal_newlines s = s.
Proof.
  induction s as [|c s IH]; [reflexivity |]. cbn [string_forall].
  intros [Hc Hs]%andb_prop. unfold no_return in Hc. apply negb_true_iff in Hc.
  cbn [universal_newlines]. now rewrite Hc, IH.
Qed.


Lemma number_char_no_return (c : ascii) : number_char c = true -> no_return c = true.
Proof.
  unfold no_return. destruct (Ascii.eqb_spec c carriage_return) as [->|]; [| reflexivity].
  discriminate.
Qed.

Lemma is_digit_number_char (c : ascii) : json.is_digit c = true -> number_char c = true.
Proof. unfold number_char. now intros ->. Qed.

Lemma scan_digits_split (s : string) :
  s = (json.scan_digits s).1 ++ (json.scan_digits s).2
  /\ string_forall number_char (json.scan_digits s).1 = true.
Proof.
  induction s as [|c s [IH1 IH2]]; [split; reflexivity |].
  cbn [json.scan_digits]. destruct (json.is_digit c) eqn:Hc; [| split; reflexivity].
  destruct (json.scan_digits s) as [digits rest]. cbn [fst snd] in *.
  split; [now rewrite string_app_cons, <- IH1 |].
  cbn [string_forall]. now rewrite (is_digit_number_char c Hc), IH2.
Qed.

Lemma scan_int_split (s integer rest : string) :
  json.scan_int s = Some (integer, rest) ->
  s = integer ++ rest /\ string_forall number_char integer = true.
Proof.
  assert (Hplain : forall c t integer rest,
            (if Ascii.eqb c "0" then Some ("0", t)
             else if json.is_digit c then
               let '(digits, rest') := json.scan_digits t in
               Some (String c digits, rest')
             else None) = Some (integer, rest) ->
            String c t = integer ++ rest
            /\ string_forall number_char integer = true).
  { clear. intros c t integer rest.
    destruct (Ascii.eqb_spec c "0") as [->|_]; [intros [= <- <-]; now split |].
    destruct (json.is_digit c) eqn:Hc; [| discriminate].
    pose proof (scan_digits_split t) as [H1 H2].
    destruct (json.scan_digits t) as [digits rest']. cbn [fst snd] in *.
    intros [= <- <-]. split; [now rewrite string_app_cons, <- H1 |].
    cbn [string_forall]. now rewrite (is_digit_number_char c Hc), H2. }
  destruct s as [|c t]; [discriminate |].
  destruct (Ascii.eqb_spec c "-") as [->|Hc].
  - destruct t as [|d t]; [discriminate |]. rewrite scan_int_minus.
    intros Hscan.
    destruct (Hplain d t
                match integer with String _ i => i | EmptyString => "" end rest)
      as [H1 H2].
    { destruct (Ascii.eqb d "0"); [now injection Hscan as <- <- |].
      destruct (json.is_digit d); [| discriminate].
      destruct (json.scan_digits t). now injection Hscan as <- <-. }
    assert (Hinteger : integer
                       = String "-" match integer with
                                    | String _ i => i
                                    | EmptyString => ""
                                    end).
    { destruct (Ascii.eqb d "0"); [now injection Hscan as <- <- |].
      destruct (json.is_digit d); [| discriminate].
      destruct (json.scan_digits t). now injection Hscan as <- <-. }
    rewrite Hinteger. split; [now rewrite string_app_cons, <- H1 |].
    cbn [string_forall]. now rewrite H2.
  - rewrite scan_int_plain
      by (destruct (Ascii.eqb_spec c "-"); [contradiction | reflexivity]).
    apply Hplain.
Qed.

Lemma scan_frac_split (s : string) :
  s = (json.scan_frac s).1 ++ (json.scan_frac s).2
  /\ string_forall number_char (json.scan_frac s).1 = true.
Proof.
  destruct s as [|c t]; [split; reflexivity |]. unfold json.scan_frac.
  destruct (Ascii.eqb_spec c ".") as [->|_]; [| split; reflexivity].
  pose proof (scan_digits_split t) as [H1 H2].
  destruct (json.scan_digits t) as [[|d digits] rest]; [split; reflexivity |].
  cbn [fst snd] in *. split; [now rewrite string_app_cons, <- H1 |].
  cbn [string_forall] in H2 |- *. now rewrite H2.
Qed.

Lemma scan_exp_split (s : string) :
  s = (json.scan_exp s).1 ++ (json.scan_exp s).2
  /\ string_forall number_char (json.scan_exp s).1 = true.
Proof.
  destruct s as [|c t]; [split; reflexivity |]. unfold json.scan_exp.
  destruct (Ascii.eqb c "e" || Ascii.eqb c "E") eqn:Hc; [| split; reflexivity].
  assert (Hchar : number_char c = true).
  { unfold number_char. apply orb_prop in Hc as [-> | ->];
      rewrite ?orb_true_r; reflexivity. }
  assert (Htail : forall sign t',
            string_forall number_char sign = true ->
            t = sign ++ t' ->
            String c t
            = (match json.scan_digits t' with
               | (EmptyString, _) => ("", String c t)
               | (digits, rest') => (String c (sign ++ digits), rest')
               end).1
              ++ (match json.scan_digits t' with
                  | (EmptyString, _) => ("", String c t)
                  | (digits, rest') => (String c (sign ++ digits), rest')
                  end).2
            /\ string_forall number_char
                 (match json.scan_digits t' with
                  | (EmptyString, _) => ("", String c t)
                  | (digits, rest') => (String c (sign ++ digits), rest')
                  end).1 = true).
  { intros sign t' Hsign ->. pose proof (scan_digits_split t') as [H1 H2].
    destruct (json.scan_digits t') as [[|d digits] rest]; [split; reflexivity |].
    cbn [fst snd] in *. split.
    - now rewrite string_app_cons, string_app_assoc, <- H1.
    - cbn [string_forall]. now rewrite Hchar, string_forall_app, Hsign, H2. }
  destruct t as [|d t']; [split; reflexivity |].
  destruct (Ascii.eqb d "-" || Ascii.eqb d "+") eqn:Hd.
  - apply (Htail (String d "") t'); [| reflexivity].
    cbn [string_forall]. unfold number_char.
    apply orb_prop in Hd as [-> | ->]; rewrite ?orb_true_r; reflexivity.
  - apply (Htail "" (String d t')); reflexivity.
Qed.

Lemma string_app_inv_tail (a b rest : string) : a ++ rest = b ++ rest -> a = b.
Proof.
  revert b. induction a as [|x a IH]; intros [|y b] H.
  - reflexivity.
  - apply (f_equal String.length) in H. rewrite string_app_nil_l in H.
    rewrite string_length_app in H. cbn [String.length] in H. lia.
  - apply (f_equal String.length) in H. rewrite string_app_nil_l in H.
    rewrite string_length_app in H. cbn [String.length] in H. lia.
  - rewrite !string_app_cons in H. injection H as -> H. f_equal. now apply IH.
Qed.

Section written.
Variable float_repr : float64 -> string.
Variable float : string -> float64.

(** What is read as a number is made of the characters of numbers. *)
Lemma scan_number_chars (text rest : string) (v : json.value) :
  json.scan_number float (text ++ rest) = Some (v, rest) ->
  string_forall number_char text = true.
Proof.
  unfold json.scan_number.
  destruct (json.scan_int (text ++ rest)) as [[integer rest0]|] eqn:Hint;
    [| discriminate].
  apply scan_int_split in Hint as [Htext Hinteger].
  pose proof (scan_frac_split rest0) as [Hfrac1 Hfrac2].
  destruct (json.scan_frac rest0) as [frac rest1]. cbn [fst snd] in *.
  pose proof (scan_exp_split rest1) as [Hexp1 Hexp2].
  destruct (json.scan_exp rest1) as [exp rest2]. cbn [fst snd] in *.
  intros Hfound.
  assert (Hrest : rest2 = rest) by (destruct frac, exp; now injection Hfound).
  subst rest2 rest1 rest0.
  rewrite <- !string_app_assoc in Htext. apply string_app_inv_tail in Htext.
  subst text. now rewrite !string_forall_app, Hinteger, Hfrac2, Hexp2.
Qed.

Lemma escape_char_no_return (c : ascii) :
  string_forall no_return (json.escape_char c) = true.
Proof. destruct c as [[] [] [] [] [] [] [] []]; reflexivity. Qed.

Lemma escape_no_return (s : string) :
  string_forall no_return (json.escape s) = true.
Proof.
  induction s as [|c s IH]; [reflexivity |]. cbn [json.escape].
  now rewrite string_forall_app, escape_char_no_return, IH.
Qed.

Lemma spaces_no_return (n : nat) : string_forall no_return (json.spaces n) = true.
Proof. induction n as [|n IH]; [reflexivity | exact IH]. Qed.

Lemma newline_indent_no_return (level : nat) :
  string_forall no_return (json.newline_indent level) = true.
Proof. apply spaces_no_return. Qed.

Lemma join_no_return (sep : string) (parts : list string) :
  string_forall no_return sep = true ->
  Forall (fun p => string_forall no_return p = true) parts ->
  string_forall no_return (json.join sep parts) = true.
Proof.
  intros Hsep. induction 1 as [|p parts Hp Hparts IH]; [reflexivity |].
  destruct parts as [|q parts]; [exact Hp |].
  change (json.join sep (p :: q :: parts)) with (p ++ sep ++ json.join sep (q :: parts)).
  now rewrite !string_forall_app, Hp, Hsep, IH.
Qed.

Lemma pretty_no_return (n : Z) : string_forall no_return (pretty n) = true.
Proof.
  assert (Hdigits : forall p, string_forall no_return (pretty_N_go (N.pos p) "") = true).
  { intros p. apply (string_forall_impl json.is_digit); [| apply pretty_N_go_digits].
    intros c Hc. now apply number_char_no_return, is_digit_number_char. }
  destruct n as [|p|p]; [reflexivity | apply Hdigits |].
  change (pretty (Z.neg p)) with ("-" ++ pretty_N_go (N.pos p) "").
  now rewrite string_forall_app, Hdigits.
Qed.

Lemma dump_no_return (v : json.value) (level : nat) :
  writable float_repr float v ->
  string_forall no_return (json.dump float_repr level v) = true.
Proof.
  revert level.
  induction v as [|b|n|x|s|items IH|items IH] using value_ind_nested;
    intros level Hv.
  - reflexivity.
  - now destruct b.
  - apply pretty_no_return.
  - destruct x as [| |q|]; try reflexivity.
    apply holds_here in Hv as [_ Hback]. specialize (Hback "" eq_refl).
    apply scan_number_chars in Hback.
    apply (string_forall_impl number_char); [apply number_char_no_return | exact Hback].
  - cbn [json.dump]. unfold json.dump_string. cbn [string_forall].
    now rewrite string_forall_app, escape_no_return.
  - apply holds_List in Hv as [_ Hv].
    assert (Hall : Forall (fun p => string_forall no_return p = true)
                     (map (json.dump float_repr (S level)) items)).
    { apply Forall_map. clear -IH Hv.
      induction IH as [|y rest Hy _ IHi]; [constructor |].
      apply Forall_cons in Hv as [Hvy Hv]. constructor; [now apply Hy | now apply IHi]. }
    destruct items as [|x items]; [reflexivity |].
    change (json.dump float_repr level (json.List (x :: items)))
      with ("[" ++ json.newline_indent (S level)
            ++ json.join ("," ++ json.newline_indent (S level))
                 (map (json.dump float_repr (S level)) (x :: items))
            ++ json.newline_indent level ++ "]").
    rewrite !string_forall_app, !newline_indent_no_return.
    rewrite join_no_return; [reflexivity | | exact Hall].
    now rewrite string_forall_app, newline_indent_no_return.
  - apply holds_Dict in Hv as [_ Hv].
    assert (Hall : Forall (fun p => string_forall no_return p = true)
                     (map (fun kv => json.dump_string kv.1 ++ ": "
                                     ++ json.dump float_repr (S level) kv.2)
                          items)).
    { apply Forall_map. clear -IH Hv.
      induction IH as [|y rest Hy _ IHi]; [constructor |].
      apply Forall_cons in Hv as [Hvy Hv]. constructor; [| now apply IHi].
      rewrite !string_forall_app. unfold json.dump_string. cbn [string_forall].
      rewrite string_forall_app, escape_no_return. cbn [string_forall andb].
      now apply Hy. }
    destruct items as [|kv items]; [reflexivity |].
    change (json.dump float_repr level (json.Dict (kv :: items)))
      with ("{" ++ json.newline_indent (S level)
            ++ json.join ("," ++ json.newline_indent (S level))
                 (map (fun kv => json.dump_string kv.1 ++ ": "
                                 ++ json.dump float_repr (S level) kv.2)
                      (kv :: items))
            ++ json.newline_indent level ++ "}").
    rewrite !string_forall_app, !newline_indent_no_return.
    rewrite join_no_return; [reflexivity | | exact Hall].
    now rewrite string_forall_app, newline_indent_no_return.
Qed.

End written.

(** *** Comments *)

Lemma contains_pair (x y a b : ascii) (rest : string) :
  contains (String x (String y "")) (String a (String b rest))
  = Ascii.eqb x a && Ascii.eqb y b || contains (String x (String y "")) (String b rest).
Proof.
  cbn [contains strip_prefix].
  destruct (Ascii.eqb x a); [| reflexivity].
  destruct (Ascii.eqb y b); reflexivity.
Qed.

(** A text without [/*] has no block comment to strip. *)
Lemma strip_block_none (s : string) :
  contains "/*" s = false -> strip_block None s = s.
Proof.
  induction s as [|a rest IH]; [reflexivity |].
  destruct rest as [|b rest']; [reflexivity |].
  rewrite contains_pair. intros [Hab Hrest]%orb_false_elim.
  cbn [strip_block]. rewrite (Ascii.eqb_sym a), (Ascii.eqb_sym b).
  unfold slash, star. rewrite Hab. f_equal. now apply IH.
Qed.

(** A text without [//] has no line comment to strip. *)
Lemma strip_line_none (s : string) :
  contains "//" s = false -> strip_line false s = s.
Proof.
  induction s as [|a rest IH]; [reflexivity |].
  destruct rest as [|b rest']; [reflexivity |].
  rewrite contains_pair. intros [Hab Hrest]%orb_false_elim.
  cbn [strip_line]. rewrite (Ascii.eqb_sym a), (Ascii.eqb_sym b).
  unfold slash. rewrite Hab. f_equal. now apply IH.
Qed.

(** Inside a line comment everything up to the newline goes. *)
Lemma strip_line_to_newline (ln rest : string) :
  string_forall (fun c => negb (Ascii.eqb c newline)) ln = true ->
  strip_line true (ln ++ String newline rest)
  = String newline (strip_line false rest).
Proof.
  induction ln as [|c ln IH]; cbn [string_forall].
  - intros _. rewrite string_app_nil_l. cbn [strip_line].
    now rewrite Ascii.eqb_refl.
  - intros [Hc Hln]%andb_prop. apply negb_true_iff in Hc.
    rewrite string_app_cons. cbn [strip_line]. rewrite Hc. now apply IH.
Qed.

Lemma string_concat_cons (x : string) (xs : list string) :
  String.concat "" (x :: xs) = x ++ String.concat "" xs.
Proof.
  destruct xs as [|y xs]; cbn [String.concat];
    [now rewrite string_app_nil_r | reflexivity].
Qed.

Lemma strip_line_header (lines : list string) (body : string) :
  Forall (fun ln => string_forall (fun c => negb (Ascii.eqb c newline)) ln = true)
         lines ->
  strip_line false
    (String.concat "" (map (fun ln => "// " ++ ln ++ String newline "") lines) ++ body)
  = newlines (length lines) ++ strip_line false body.
Proof.
  induction 1 as [|ln lines Hln _ IH]; [reflexivity |].
  cbn [map]. rewrite string_concat_cons, !string_app_assoc.
  rewrite !string_app_cons, string_app_nil_l.
  cbn [strip_line Ascii.eqb Bool.eqb andb slash].
  rewrite (strip_line_to_newline ln _ Hln). rewrite string_app_nil_l, IH.
  reflexivity.
Qed.

Lemma string_forall_rev_app (P : ascii -> bool) (s acc : string) :
  string_forall P (String.rev_app s acc) = string_forall P s && string_forall P acc.
Proof.
  revert acc. induction s as [|c s IH]; intros acc; cbn [String.rev_app string_forall].
  - reflexivity.
  - rewrite IH. cbn [string_forall]. now destruct (P c), (string_forall P s).
Qed.

Lemma splitlines_from_no_boundary (line s : string) :
  string_forall (fun c => negb (is_line_boundary c)) line = true ->
  Forall (fun ln => string_forall (fun c => negb (is_line_boundary c)) ln = true)
         (splitlines_from line s).
Proof.
  remember (String.length s) as n eqn:Hn.
  assert (Hle : (String.length s <= n)%nat) by lia. clear Hn.
  revert s line Hle. induction n as [|n IH]; intros s line Hle Hline.
  - destruct s as [|a rest]; [| cbn in Hle; lia]. cbn [splitlines_from].
    destruct line; constructor; [| constructor].
    now rewrite string_forall_rev_app, Hline.
  - destruct s as [|a rest]; cbn [splitlines_from].
    + destruct line; constructor; [| constructor].
      now rewrite string_forall_rev_app, Hline.
    + cbn [String.length] in Hle. destruct (is_line_boundary a) eqn:Ha.
      * constructor; [now rewrite string_forall_rev_app, Hline |].
        assert (Hrest : Forall
                  (fun ln => string_forall (fun c => negb (is_line_boundary c)) ln = true)
                  (splitlines_from "" rest))
          by (apply IH; [lia | reflexivity]).
        destruct rest as [|b rest'];
          [now destruct a as [[] [] [] [] [] [] [] []] |].
        assert (Hrest' : Forall
                  (fun ln => string_forall (fun c => negb (is_line_boundary c)) ln = true)
                  (splitlines_from "" rest'))
          by (apply IH; [cbn [String.length] in Hle; lia | reflexivity]).
        destruct a as [[] [] [] [] [] [] [] []]; try exact Hrest;
          destruct b as [[] [] [] [] [] [] [] []]; first [exact Hrest | exact Hrest'].
      * apply IH; [lia |]. cbn [string_forall]. now rewrite Ha.
Qed.

Lemma splitlines_no_newline (c : string) :
  Forall (fun ln => string_forall (fun c => negb (Ascii.eqb c newline)) ln = true)
         (splitlines c).
Proof.
  eapply Forall_impl; [apply (splitlines_from_no_boundary "" c); reflexivity |].
  intros ln. induction ln as [|x ln IH]; cbn [string_forall]; [reflexivity |].
  intros [Hx Hln]%andb_prop. rewrite (IH Hln), andb_true_r.
  destruct (Ascii.eqb x newline) eqn:Hnl; [| reflexivity].
  apply Ascii.eqb_eq in Hnl. now subst x.
Qed.

Lemma skip_ws_newlines (k : nat) (s : string) :
  json.skip_ws (newlines k ++ s) = json.skip_ws s.
Proof.
  induction k as [|k IH]; [reflexivity |].
  cbn [newlines]. rewrite string_app_cons. cbn [json.skip_ws]. exact IH.
Qed.

(** Leading newlines are nothing to the reader. *)
Lemma loads_newlines (float : string -> float64) (k : nat) (s : string) :
  json.loads float (newlines k ++ s) = json.loads float s.
Proof. unfold json.loads. now rewrite skip_ws_newlines. Qed.

Lemma strip_block_pass (passed : string) (a b : ascii) (rest : string) :
  Ascii.eqb a star && Ascii.eqb b slash = false ->
  strip_block (Some passed) (String a (String b rest))
  = strip_block (Some (String a passed)) (String b rest).
Proof.
  intros Hab.
  transitivity (if Ascii.eqb a star && Ascii.eqb b slash
                then strip_block None rest
                else strip_block (Some (String a passed)) (String b rest));
    [reflexivity | now rewrite Hab].
Qed.

Lemma strip_block_close (passed rest : string) :
  strip_block (Some passed) (String star (String slash rest))
  = strip_block None rest.
Proof. reflexivity. Qed.

(** A block comment in front of a text goes, up to its closing mark. *)
Lemma strip_block_comment (passed note rest : string) :
  contains "*/" note = false ->
  strip_block (Some passed) (note ++ String star (String slash rest))
  = strip_block None rest.
Proof.
  revert passed. induction note as [|a note IH]; intros passed Hnote.
  - apply strip_block_close.
  - rewrite string_app_cons. destruct note as [|b note'].
    + rewrite string_app_nil_l.
      destruct (Ascii.eqb a star) eqn:Ha.
      * apply Ascii.eqb_eq in Ha as ->. reflexivity.
      * rewrite strip_block_pass by (now rewrite Ha). apply strip_block_close.
    + rewrite contains_pair in Hnote. apply orb_false_elim in Hnote as [Hab Hrest].
      rewrite string_app_cons, strip_block_pass.
      * rewrite <- string_app_cons. now apply IH.
      * now rewrite (Ascii.eqb_sym a), (Ascii.eqb_sym b).
Qed.


Lemma ends_with_slash_cons (a b : ascii) (rest : string) :
  ends_with_slash (String a (String b rest)) = ends_with_slash (String b rest).
Proof. reflexivity. Qed.

Lemma ends_with_slash_last (s : string) (c : ascii) :
  ends_with_slash (s ++ String c "") = Ascii.eqb c slash.
Proof.
  induction s as [|a s IH]; [reflexivity |].
  rewrite string_app_cons. destruct s as [|b s]; [exact IH |].
  rewrite string_app_cons in IH |- *. now rewrite ends_with_slash_cons.
Qed.

(** Text without [/*] that ends with no slash stays, whatever follows. *)
Lemma strip_block_plain (text rest : string) :
  contains "/*" text = false -> ends_with_slash text = false ->
  strip_block None (text ++ rest) = text ++ strip_block None rest.
Proof.
  induction text as [|a text IH]; [reflexivity |]. intros Hopen Hend.
  destruct text as [|b text].
  - cbn [ends_with_slash] in Hend. rewrite string_app_cons, string_app_nil_l.
    destruct rest as [|b rest]; [reflexivity |].
    cbn [strip_block]. now rewrite Hend.
  - rewrite contains_pair in Hopen. apply orb_false_elim in Hopen as [Hab Hopen].
    rewrite ends_with_slash_cons in Hend.
    rewrite !string_app_cons. cbn [strip_block].
    rewrite (Ascii.eqb_sym a), (Ascii.eqb_sym b). unfold slash, star. rewrite Hab.
    f_equal. rewrite <- string_app_cons. now apply IH.
Qed.

(** A [/*] that no [*/] follows stays with all that follows it. *)
Lemma strip_block_unclosed (passed rest : string) :
  contains "*/" rest = false ->
  strip_block (Some passed) rest = "/*" ++ String.rev_app passed rest.
Proof.
  revert passed. induction rest as [|a rest IH]; intros passed Hclose;
    [reflexivity |].
  destruct rest as [|b rest]; [reflexivity |].
  rewrite contains_pair in Hclose. apply orb_false_elim in Hclose as [Hab Hclose].
  rewrite strip_block_pass
    by (now rewrite (Ascii.eqb_sym a), (Ascii.eqb_sym b)).
  now rewrite IH.
Qed.

Lemma has_block_cons (a : ascii) (rest : string) :
  has_block (String a rest)
  = match rest with
    | String b rest' =>
        if Ascii.eqb a slash && Ascii.eqb b star then contains "*/" rest'
        else has_block rest
    | EmptyString => false
    end.
Proof.
  unfold has_block. cbn [after_block_open]. destruct rest as [|b rest']; [reflexivity |].
  now destruct (Ascii.eqb a slash && Ascii.eqb b star).
Qed.

(** A text without a block comment is left as it is by the first
    substitution. *)
Lemma strip_block_open (s : string) :
  has_block s = false -> strip_block None s = s.
Proof.
  induction s as [|a rest IH]; [reflexivity |].
  rewrite has_block_cons. destruct rest as [|b rest']; [reflexivity |].
  cbn [strip_block]. destruct (Ascii.eqb a slash && Ascii.eqb b star) eqn:Hab.
  - intros Hclose. rewrite (strip_block_unclosed "" rest' Hclose).
    apply andb_prop in Hab as [->%Ascii.eqb_eq ->%Ascii.eqb_eq]. reflexivity.
  - intros Hrest. f_equal. now apply IH.
Qed.

(** Text without [//] that ends with no slash stays, whatever follows. *)
Lemma strip_line_plain (text rest : string) :
  contains "//" text = false -> ends_with_slash text = false ->
  strip_line false (text ++ rest) = text ++ strip_line false rest.
Proof.
  induction text as [|a text IH]; [reflexivity |]. intros Hopen Hend.
  destruct text as [|b text].
  - cbn [ends_with_slash] in Hend. rewrite string_app_cons, string_app_nil_l.
    destruct rest as [|b rest]; [reflexivity |].
    cbn [strip_line]. now rewrite Hend.
  - rewrite contains_pair in Hopen. apply orb_false_elim in Hopen as [Hab Hopen].
    rewrite ends_with_slash_cons in Hend.
    rewrite !string_app_cons. cbn [strip_line].
    rewrite (Ascii.eqb_sym a), (Ascii.eqb_sym b). unfold slash. rewrite Hab.
    f_equal. rewrite <- string_app_cons. now apply IH.
Qed.

(** A line comment at the end of the file goes. *)
Lemma strip_line_last (in_comment : bool) (ending : string) :
  (if in_comment
   then string_forall (fun c => negb (Ascii.eqb c newline)) ending
   else last_line ending) = true ->
  strip_line in_comment ending = "".
Proof.
  revert in_comment. induction ending as [|a rest IH]; intros in_comment;
    [now destruct in_comment |].
  destruct in_comment.
  - cbn [string_forall strip_line]. intros [Ha Hrest]%andb_prop.
    apply negb_true_iff in Ha. rewrite Ha. now apply (IH true).
  - cbn [last_line]. destruct rest as [|b note]; [discriminate |].
    intros [[Ha Hb]%andb_prop Hnote]%andb_prop.
    cbn [strip_line]. rewrite Ha, Hb. cbn [andb].
    destruct note as [|c note]; [reflexivity |].
    pose proof (IH true) as IH'. cbn [strip_line] in IH'.
    apply Ascii.eqb_eq in Hb. subst b.
    change (Ascii.eqb slash newline) with false in IH'. apply IH'.
    cbn [string_forall]. exact Hnote.
Qed.


Lemma contains_prefix (needle : string) (a : ascii) (s : string) :
  contains needle (String a s) = false -> contains needle s = false.
Proof.
  cbn [contains]. destruct (strip_prefix needle (String a s)); [discriminate | trivial].
Qed.

(** The first substitution takes the block comments, and only them. *)
Lemma strip_block_pieces (pieces : list piece) (rest : string) :
  Forall (fun p => commented p = true) pieces ->
  strip_block None (pieces_text written pieces ++ rest)
  = pieces_text unblocked pieces ++ strip_block None rest.
Proof.
  induction 1 as [|p pieces Hp _ IH]; [reflexivity |].
  cbn [pieces_text]. rewrite !string_app_assoc.
  destruct p as [text|note|note]; cbn [commented written unblocked] in Hp |- *.
  - apply andb_prop in Hp as [[Hline Hopen]%andb_prop Hend].
    apply negb_true_iff in Hopen, Hend.
    now rewrite strip_block_plain, IH.
  - apply negb_true_iff in Hp. rewrite !string_app_assoc.
    change (strip_block None ("/*" ++ ?t)) with (strip_block (Some "") t).
    change ("*/" ++ ?t) with (String star (String slash t)).
    now rewrite strip_block_comment.
  - apply andb_prop in Hp as [_ Hopen]. apply negb_true_iff in Hopen.
    rewrite <- !string_app_assoc in Hopen |- *.
    rewrite (string_app_assoc _ (pieces_text written pieces) rest).
    rewrite strip_block_plain; [now rewrite IH | exact Hopen |].
    apply (ends_with_slash_last ("//" ++ note) newline).
Qed.


(** The second substitution takes the line comments, and only them. *)
Lemma strip_line_pieces (pieces : list piece) (rest : string) :
  Forall (fun p => lined p = true) pieces ->
  strip_line false (pieces_text unblocked pieces ++ rest)
  = pieces_text stripped pieces ++ strip_line false rest.
Proof.
  induction 1 as [|p pieces Hp _ IH]; [reflexivity |].
  cbn [pieces_text]. rewrite !string_app_assoc.
  destruct p as [text|note|note]; cbn [lined written unblocked stripped] in Hp |- *.
  - apply andb_prop in Hp as [Hline Hend]. apply negb_true_iff in Hline, Hend.
    now rewrite strip_line_plain, IH.
  - exact IH.
  - rewrite !string_app_assoc.
    change (strip_line false ("//" ++ ?t)) with (strip_line true t).
    change (String newline "" ++ ?t) with (String newline t).
    now rewrite (strip_line_to_newline note _ Hp), IH.
Qed.

(** The comments of a file go and the rest stays: block comments
    between the pieces of [before], line comments anywhere, the last of
    them possibly without its newline. *)
Lemma strip_json_comments_pieces (before after : list piece) (ending : string) :
  Forall (fun p => commented p = true) before ->
  Forall (fun p => commented_line p = true) after ->
  last_line ending = true ->
  has_block (pieces_text written after ++ ending) = false ->
  _strip_json_comments (pieces_text written (before ++ after)%list ++ ending)
  = pieces_text stripped (before ++ after)%list.
Proof.
  intros Hbefore Hafter Hending Hblock. unfold _strip_json_comments.
  assert (Hsplit : forall (text : piece -> string) (a b : list piece),
            pieces_text text (a ++ b)%list
            = pieces_text text a ++ pieces_text text b).
  { intros text a b. induction a as [|p a IH]; [reflexivity |].
    cbn [app pieces_text]. now rewrite IH, string_app_assoc. }
  assert (Hsame : pieces_text unblocked after = pieces_text written after).
  { clear -Hafter. induction Hafter as [|p after Hp _ IH]; [reflexivity |].
    cbn [pieces_text]. rewrite IH. now destruct p. }
  rewrite Hsplit, string_app_assoc, strip_block_pieces by exact Hbefore.
  rewrite (strip_block_open _ Hblock), <- Hsame, <- string_app_assoc, <- Hsplit.
  rewrite strip_line_pieces.
  - now rewrite (strip_line_last false ending Hending), string_app_nil_r.
  - apply Forall_app. split.
    + eapply Forall_impl; [exact Hbefore |]. intros [text|note|note]; cbn; [| trivial |].
      * intros [[-> _]%andb_prop ->]%andb_prop. reflexivity.
      * now intros [-> _]%andb_prop.
    + eapply Forall_impl; [exact Hafter |]. now intros [text|note|note].
Qed.

Import WorkspaceState.

Lemma skip_ws_idempotent (s : string) : json.skip_ws (json.skip_ws s) = json.skip_ws s.
Proof.
  induction s as [|c s IH]; [reflexivity |]. cbn [json.skip_ws].
  destruct (json.is_ws c) eqn:Hc; [exact IH |]. cbn [json.skip_ws]. now rewrite Hc.
Qed.

(** Whitespace in front of a document is nothing to the reader. *)
Lemma loads_skip_ws (float : string -> float64) (s : string) :
  json.loads float (json.skip_ws s) = json.loads float s.
Proof. unfold json.loads. now rewrite skip_ws_idempotent. Qed.

Lemma concat_no_return (parts : list string) :
  Forall (fun p => string_forall no_return p = true) parts ->
  string_forall no_return (String.concat "" parts) = true.
Proof.
  induction 1 as [|p parts Hp _ IH]; [reflexivity |].
  now rewrite string_concat_cons, string_forall_app, Hp, IH.
Qed.

Lemma header_no_return (items : list (string * json.value)) :
  string_forall no_return (header items) = true.
Proof.
  unfold header. apply concat_no_return, Forall_map.
  assert (Hlines : Forall (fun ln => string_forall no_return ln = true)
                     (comment_lines items)).
  { unfold comment_lines.
    destruct (json.lookup "_comment" items) as [[| | | |c| |]|]; try constructor.
    destruct (strip_nonempty c); [| constructor].
    eapply Forall_impl; [apply (splitlines_from_no_boundary "" c); reflexivity |].
    intros ln. apply string_forall_impl. intros a Ha. unfold no_return.
    destruct (Ascii.eqb_spec a carriage_return) as [->|]; [discriminate | reflexivity]. }
  eapply Forall_impl; [exact Hlines |]. intros ln Hln.
  rewrite !string_forall_app, Hln. reflexivity.
Qed.

Lemma comment_lines_no_newline (items : list (string * json.value)) :
  Forall (fun ln => string_forall (fun c => negb (Ascii.eqb c newline)) ln = true)
         (comment_lines items).
Proof.
  unfold comment_lines.
  destruct (json.lookup "_comment" items) as [[| | | |c| |]|]; try constructor.
  destruct (strip_nonempty c); [apply splitlines_no_newline | constructor].
Qed.

Lemma string_app_inj_l (a b c : string) : a ++ b = a ++ c -> b = c.
Proof.
  induction a as [|x a IH]; [trivial |].
  rewrite !string_app_cons. intros [= H]. now apply IH.
Qed.

Lemma tmp_not_path (self : WorkspaceState.t) : tmp self <> path self.
Proof. unfold tmp, path. intros H%string_app_inj_l. discriminate. Qed.

Section session.
Variable float_repr : float64 -> string.
Variable float : string -> float64.

(** What [load] makes of a file whose text, read in text mode and with
    its comments taken out, is [text]. *)
Lemma load_text (other : WorkspaceState.t) (fs : files) (raw : string) :
  fs !! path other = Some raw ->
  load float other fs true
  = match json.loads float (_strip_json_comments (universal_newlines raw)) with
    | Some v => (set_state v other, true)
    | None => (other, false)
    end.
Proof. intros Hraw. unfold load. now rewrite Hraw. Qed.

(** The file that [save] wrote is read back as the state it was written
    from. *)
Lemma load_document (items : list (string * json.value)) :
  writable float_repr float (json.Dict items) ->
  contains "//" (json.dumps float_repr (json.Dict items)) = false ->
  has_block (document float_repr items) = false ->
  json.loads float
    (_strip_json_comments (universal_newlines (document float_repr items)))
  = Some (json.Dict items).
Proof.
  intros Hitems Hline Hblock.
  rewrite universal_newlines_none.
  2:{ unfold document, json.dumps. rewrite string_forall_app, header_no_return.
      now apply (dump_no_return float_repr float). }
  unfold _strip_json_comments. rewrite (strip_block_open _ Hblock).
  unfold document, header.
  rewrite strip_line_header by apply comment_lines_no_newline.
  rewrite (strip_line_none _ Hline), loads_newlines.
  pose proof (loads_dumps float_repr float (json.Dict items) "" "" Hitems
                eq_refl eq_refl) as Hloads.
  now rewrite string_app_nil_l, string_app_nil_r in Hloads.
Qed.


End session.

(** The session of the examples is a state as Python holds and writes
    it. *)
Lemma session1_writable : writable demo_repr demo_float_of session1.
Proof.
  assert (Hfloat : json.reads_back demo_repr demo_float_of (json.Float (Fin 0.5))).
  { intros rest Hrest. destruct rest as [|c rest]; [reflexivity |].
    cbn [json.ends_value] in Hrest.
    destruct c as [[] [] [] [] [] [] [] []]; try discriminate; reflexivity. }
  assert (Hkeys : forall keys : list string,
            bool_decide (NoDup keys) = true -> NoDup keys)
    by (intros keys; apply bool_decide_eq_true_1).
  unfold writable, session1. cbn [json.holds json.keys_once json.reads_back snd].
  repeat split; try exact Hfloat; apply Hkeys; reflexivity.
Qed.




(** * Further properties of the code *)

(** ** Curves of a track *)

(** X1.  [add_curve] and [remove_curve] keep the curve list of a track free
    of duplicates and touch nothing else: after [add_curve] the curve
    is listed, a second [add_curve] changes nothing, [remove_curve]
    undoes the [add_curve] of a curve that was not listed, and after
    [remove_curve] a duplicate-free list does not hold the curve. *)
Theorem X1_track_curve_list (track : Track.t) (curve_name : string) :
  curve_name ∈ Track.curves (Track.add_curve curve_name track)
  /\ Track.add_curve curve_name (Track.add_curve curve_name track)
     = Track.add_curve curve_name track
  /\ (NoDup (Track.curves track) ->
      NoDup (Track.curves (Track.add_curve curve_name track))
      /\ NoDup (Track.curves (Track.remove_curve curve_name track))
      /\ curve_name ∉ Track.curves (Track.remove_curve curve_name track))
  /\ (curve_name ∉ Track.curves track ->
      Track.remove_curve curve_name (Track.add_curve curve_name track) = track)
  /\ (forall other, other <> curve_name ->
      (other ∈ Track.curves (Track.add_curve curve_name track)
       <-> other ∈ Track.curves track)
      /\ (other ∈ Track.curves (Track.remove_curve curve_name track)
          <-> other ∈ Track.curves track))
  /\ (forall changed,
      changed = Track.add_curve curve_name track
      \/ changed = Track.remove_curve curve_name track ->
      Track.name changed = Track.name track
      /\ Track.width changed = Track.width track
      /\ Track.color changed = Track.color track
      /\ Track.axis changed = Track.axis track).
Proof.
  assert (Hrem_in : forall (l : list string) x y,
            y <> x -> (y ∈ Track.list_remove x l <-> y ∈ l)).
  { intros l x y Hne. induction l as [|z l IH]; simpl; [reflexivity |].
    destruct (decide (z = x)) as [->|Hz].
    - rewrite elem_of_cons. naive_solver.
    - rewrite !elem_of_cons, IH. reflexivity. }
  assert (Hrem_nodup : forall (l : list string) x,
            NoDup l -> NoDup (Track.list_remove x l) /\ x ∉ Track.list_remove x l).
  { intros l x. induction 1 as [|z l Hz Hl IH]; simpl.
    - split; [constructor | apply not_elem_of_nil].
    - destruct (decide (z = x)) as [->|Hne]; [now split |].
      destruct IH as [IH1 IH2]. split.
      + constructor; [| exact IH1]. now rewrite Hrem_in.
      + rewrite elem_of_cons. naive_solver. }
  assert (Hrem_app : forall (l : list string) x,
            x ∉ l -> Track.list_remove x (l ++ [x])%list = l).
  { intros l x. induction l as [|z l IH]; simpl; intros Hx.
    - now destruct (decide (x = x)).
    - apply not_elem_of_cons in Hx as [Hne Hx].
      destruct (decide (z = x)); [congruence |]. now rewrite IH. }
  destruct track as [name width color curves axis].
  unfold Track.add_curve, Track.remove_curve; simpl.
  split; [| split; [| split; [| split; [| split]]]].
  - destruct (decide (curve_name ∈ curves)); simpl; [assumption |].
    apply elem_of_app. right. now left.
  - destruct (decide (curve_name ∈ curves)) as [Hin|Hnin]; simpl.
    + now destruct (decide (curve_name ∈ curves)).
    + destruct (decide _) as [|Hn]; [reflexivity |].
      exfalso. apply Hn, elem_of_app. right. now left.
  - intros Hnodup. split; [| split].
    + destruct (decide (curve_name ∈ curves)); simpl; [assumption |].
      apply NoDup_app. repeat split; [assumption | | apply NoDup_singleton].
      intros x Hx ->%list_elem_of_singleton. contradiction.
    + destruct (decide (curve_name ∈ curves)); simpl; [| assumption].
      now apply Hrem_nodup.
    + destruct (decide (curve_name ∈ curves)); simpl; [| assumption].
      now apply Hrem_nodup.
  - intros Hnin. destruct (decide (curve_name ∈ curves)); [contradiction |]. simpl.
    destruct (decide _) as [|Hn]; simpl.
    + now rewrite Hrem_app.
    + exfalso. apply Hn, elem_of_app. right. now left.
  - intros other Hne. split.
    + destruct (decide (curve_name ∈ curves)); simpl; [reflexivity |].
      rewrite elem_of_app, list_elem_of_singleton. naive_solver.
    + destruct (decide (curve_name ∈ curves)); simpl; [| reflexivity].
      now apply Hrem_in.
  - intros changed [-> | ->]; destruct (decide (curve_name ∈ curves)); now simpl.
Qed.

Lemma X1_track_curve_list_witness :
  Track.remove_curve "GR"
    (Track.add_curve "GR" (Track.__init__ "GR" (Fin 1.0) "green"))
  = Track.__init__ "GR" (Fin 1.0) "green".
Proof.
  apply (proj1 (proj2 (proj2 (proj2
           (X1_track_curve_list (Track.__init__ "GR" (Fin 1.0) "green") "GR"))))).
  apply not_elem_of_nil.
Defined.

(** ** The collection of wells *)

(** X2.  A successful [load_well] registers the well under the name it
    returns: [get_well] finds it there, every other name is found as
    before, the name is listed once by [get_well_names], and the number
    of wells grows by one, or stays when the name was taken (the older
    well is replaced). *)
Theorem X2_load_well_then_get_well
    (lasio_read : string -> option lasio.LASFile) (Path_stem : string -> string)
    (self self' : WellDataManager.t) (file_path name : string) :
  WellDataManager.load_well lasio_read Path_stem self file_path = (self', Some name) ->
  exists well,
    WellLogDataLoader.load_from_las lasio_read Path_stem
      (WellLogData.__init__ WellLogData.default_name) file_path = (well, true)
    /\ WellLogData.name well = name
    /\ WellDataManager.get_well self' name = Some well
    /\ (forall other, other <> name ->
        WellDataManager.get_well self' other = WellDataManager.get_well self other)
    /\ name ∈ WellDataManager.get_well_names self'
    /\ NoDup (WellDataManager.get_well_names self')
    /\ length (WellDataManager.get_well_names self')
       = match WellDataManager.get_well self name with
         | Some _ => length (WellDataManager.get_well_names self)
         | None => S (length (WellDataManager.get_well_names self))
         end.
Proof.
  unfold WellDataManager.load_well, WellDataManager.get_well,
    WellDataManager.get_well_names.
  destruct (WellLogDataLoader.load_from_las _ _ _ _) as [well [|]]; [| discriminate].
  intros [= <- <-]. exists well. cbn [WellDataManager.wells].
  split; [reflexivity |]. split; [reflexivity |].
  split; [apply lookup_insert_eq |].
  split; [intros other Hne; now apply lookup_insert_ne |].
  split.
  { apply list_elem_of_fmap. exists (WellLogData.name well, well).
    split; [reflexivity |]. apply elem_of_map_to_list, lookup_insert_eq. }
  split; [apply NoDup_fst_map_to_list |].
  rewrite !length_fmap, !length_map_to_list.
  destruct (WellDataManager.wells self !! WellLogData.name well) as [old|] eqn:Hold.
  - rewrite <- (insert_delete_eq (WellDataManager.wells self)).
    rewrite map_size_insert_None by apply lookup_delete_eq.
    rewrite <- (insert_id _ _ _ Hold) at 2.
    rewrite <- (insert_delete_eq (WellDataManager.wells self) _ old).
    now rewrite map_size_insert_None by apply lookup_delete_eq.
  - now apply map_size_insert_None.
Qed.

Lemma X2_load_well_then_get_well_witness :
  exists well,
    WellLogData.name well = "W-3"
    /\ WellDataManager.get_well
         (WellDataManager.load_well demo_lasio_read demo_Path_stem
            WellDataManager.__init__ "wells/w3.las").1 "W-3" = Some well.
Proof.
  destruct (X2_load_well_then_get_well demo_lasio_read demo_Path_stem
              WellDataManager.__init__
              (WellDataManager.load_well demo_lasio_read demo_Path_stem
                 WellDataManager.__init__ "wells/w3.las").1
              "wells/w3.las" "W-3") as (well & _ & Hname & Hget & _).
  - vm_compute. reflexivity.
  - exists well. split; assumption.
Defined.

(** ** What the loader writes *)

(** The curve of the file that decides the entries of a mnemonic: the
    last one carrying it. *)
Lemma foldl_add_curve (curves : list lasio.CurveItem)
    (data_dict : gmap string (option ndarray)) (self : WellLogData.t) :
  let result := foldl WellLogDataLoader.add_curve (data_dict, self) curves in
  let last_of m := last (filter (fun c => lasio.mnemonic c = m) curves) in
  (forall m, result.1 !! m
             = match last_of m with
               | Some c => Some (lasio.data c)
               | None => data_dict !! m
               end)
  /\ (forall m, WellLogData.units result.2 !! m
                = match last_of m with
                  | Some c => Some (default "" (lasio.unit c))
                  | None => WellLogData.units self !! m
                  end)
  /\ (forall m, WellLogData.descriptions result.2 !! m
                = match last_of m with
                  | Some c => Some (default "" (lasio.descr c))
                  | None => WellLogData.descriptions self !! m
                  end)
  /\ WellLogData.name result.2 = WellLogData.name self
  /\ WellLogData.curves result.2 = WellLogData.curves self
  /\ WellLogData.data result.2 = WellLogData.data self.
Proof.
  cbv zeta. revert data_dict self.
  induction curves as [|c curves IH]; intros data_dict self.
  - cbn. repeat split; reflexivity.
  - cbn [foldl]. unfold WellLogDataLoader.add_curve at 2.
    match goal with |- context [foldl _ (?d, ?s) curves] => specialize (IH d s) end.
    destruct IH as (Hd & Hu & Hdescr & Hn & Hc & Hdata).
    assert (Hlast : forall m,
              last (filter (fun c0 => lasio.mnemonic c0 = m) (c :: curves))
              = match last (filter (fun c0 => lasio.mnemonic c0 = m) curves) with
                | Some c' => Some c'
                | None => if decide (lasio.mnemonic c = m) then Some c else None
                end).
    { intros m. rewrite filter_cons. destruct (decide _); [| now destruct (last _)].
      apply last_cons. }
    split; [| split; [| split; [| split; [| split]]]]; try assumption.
    + intros m. rewrite Hd, Hlast. destruct (last _); [reflexivity |].
      destruct (decide _) as [->|Hne];
        [apply lookup_insert_eq | now apply lookup_insert_ne].
    + intros m. rewrite Hu, Hlast. destruct (last _); [reflexivity |].
      cbn [WellLogData.units].
      destruct (decide _) as [->|Hne];
        [apply lookup_insert_eq | now apply lookup_insert_ne].
    + intros m. rewrite Hdescr, Hlast. destruct (last _); [reflexivity |].
      cbn [WellLogData.descriptions].
      destruct (decide _) as [->|Hne];
        [apply lookup_insert_eq | now apply lookup_insert_ne].
Qed.



(** ** The display *)

Lemma keeps_weaken {S A} (I : S -> Prop) (E E' : exn -> Prop) (m : M S A) :
  (forall e, E e -> E' e) -> keeps I E m -> keeps I E' m.
Proof. intros HE Hm s Hs. destruct (Hm s Hs) as [H1 H2]. split; eauto. Qed.

(** The loop of [setup_display] gives the tracks from [k] on their new
    axis. *)
Lemma setup_display_loop (n k : nat) (self : WellSectionCanvas.t) :
  let body := fun i : nat =>
    modify (fun self => set_tracks (alter (new_axis (depth_range self)) i
                                          (tracks self)) self) in
  exists ts,
    for_ (seq k n) body self = (set_tracks ts self, inr ())
    /\ length ts = length (tracks self)
    /\ forall j, ts !! j
                 = if decide (k <= j < k + n)%nat
                   then new_axis (depth_range self) <$> tracks self !! j
                   else tracks self !! j.
Proof.
  cbv zeta. revert k self. induction n as [|n IH]; intros k self.
  - exists (tracks self). split; [now destruct self |]. split; [reflexivity |].
    intros j. destruct (decide _); [lia | reflexivity].
  - cbn [seq for_]. rewrite (bind_ok (modify _) _ self _ () eq_refl).
    set (self1 := set_tracks _ self).
    destruct (IH (S k) self1) as (ts & Hrun & Hlen & Hts).
    exists ts. split; [rewrite Hrun; now destruct self |].
    split; [rewrite Hlen; apply length_alter |].
    intros j. rewrite Hts. cbn [self1 tracks set_tracks depth_range].
    destruct (decide (S k <= j < S k + n)%nat), (decide (k <= j < k + S n)%nat);
      try lia.
    + now rewrite list_lookup_alter_ne by lia.
    + assert (j = k) as -> by lia. apply list_lookup_alter_eq.
    + now rewrite list_lookup_alter_ne by lia.
Qed.

Lemma setup_display_run (self : WellSectionCanvas.t) :
  setup_display self
  = (set_tracks
       (new_axis (depth_range self)
          <$> (if decide (tracks self = []) then default_tracks else tracks self))
       self, inr ()).
Proof.
  unfold setup_display. rewrite (bind_ok (modify _) _ self _ () eq_refl).
  set (self1 := if decide (tracks self = []) then _ else self).
  rewrite (bind_ok get _ self1 self1 self1 eq_refl).
  destruct (setup_display_loop (length (tracks self1)) 0 self1)
    as (ts & Hrun & Hlen & Hts).
  cbv zeta in Hrun. rewrite Hrun. clear Hrun.
  assert (Hts' : ts = new_axis (depth_range self1) <$> tracks self1).
  { apply list_eq. intros j. rewrite Hts, list_lookup_fmap.
    destruct (decide (0 <= j < 0 + length (tracks self1))%nat) as [|Hout];
      [reflexivity |].
    rewrite (lookup_ge_None_2 (tracks self1) j) by lia. reflexivity. }
  rewrite Hts'. unfold self1. now destruct (decide (tracks self = [])).
Qed.

(** X4.  [setup_display] works on the five default tracks when the
    canvas has none and on the tracks it has otherwise, and writes to
    nothing but the tracks, of which it leaves name, width, colour and
    curves alone.  When it returns, every track has a new axis, titled
    with the name of the track and without any line. *)
Theorem X4_setup_display_result (self : WellSectionCanvas.t) :
  let ts := if decide (tracks self = []) then default_tracks else tracks self in
  let self' := (setup_display self).1 in
  Track.layout <$> tracks self' = Track.layout <$> ts
  /\ set_tracks [] self' = set_tracks [] self
  /\ ((setup_display self).2 = inr () ->
      rendered self'
      /\ forall i track,
           tracks self' !! i = Some track ->
           exists ax,
             Track.axis track = Some ax
             /\ Axes.title ax = Track.name track
             /\ Axes.lines ax = []).
Proof.
  cbv zeta. rewrite (setup_display_run self). cbn [fst snd tracks set_tracks].
  set (ts := if decide (tracks self = []) then default_tracks else tracks self).
  assert (Hne : ts <> []) by (unfold ts; now destruct (decide _)).
  split; [rewrite <- list_fmap_compose; now apply list_fmap_ext |].
  split; [now destruct self |]. intros _. split.
  - split.
    + intros Hnil%fmap_nil_inv. contradiction.
    + apply Forall_fmap, Forall_forall. intros track _. now eexists.
  - intros i track Hi. rewrite list_lookup_fmap in Hi.
    destruct (ts !! i) as [track0|]; [| discriminate]. injection Hi as <-.
    eexists. split; [reflexivity |]. split; reflexivity.
Qed.

Lemma X4_setup_display_result_witness :
  rendered (setup_display canvas_without_tracks).1.
Proof.
  exact (proj1 (proj2 (proj2 (X4_setup_display_result canvas_without_tracks))
                  eq_refl)).
Defined.

Section rendered.
Variable n : nat.
Hypothesis Hn : (0 < n)%nat.

Let I (self : WellSectionCanvas.t) : Prop :=
  length (tracks self) = n
  /\ Forall (fun track => is_Some (Track.axis track)) (tracks self).

Lemma with_axis_rendered i call :
  (i < n)%nat -> keeps I (fun _ => False) (with_axis i call).
Proof.
  intros Hi self [Hlen Hax]. unfold with_axis.
  destruct (tracks self !! i) as [track|] eqn:Hlook.
  - pose proof (proj1 (Forall_lookup _ _) Hax i track Hlook) as [ax Htrack].
    rewrite Htrack. unfold I. cbn [fst snd tracks set_tracks].
    split; [| discriminate]. split; [now rewrite length_insert |].
    apply Forall_insert; [exact Hax | now eexists].
  - apply lookup_ge_None in Hlook. lia.
Qed.

Lemma plot_curve_rendered well depth_data curve_name :
  keeps I (fun e => e = ValueError) (plot_curve well depth_data curve_name).
Proof.
  unfold plot_curve.
  destruct (WellLogData.get_curve_data _ _) as [curve_data|]; [| apply keeps_pass].
  apply keeps_get. intros self [Hlen Hax].
  destruct (decide _); [apply keeps_pass |].
  assert (_get_track_for_curve curve_name < n)%nat by lia.
  apply keeps_bind;
    [eapply keeps_weaken; [| now apply with_axis_rendered]; contradiction |].
  intros ?. destruct (decide _); [| apply keeps_pass].
  destruct (np_nanmin curve_data), (np_nanmax curve_data);
    try (now apply keeps_raise).
  destruct (_ && _); [| apply keeps_pass].
  eapply keeps_weaken; [| now apply with_axis_rendered]. contradiction.
Qed.

Lemma update_display_rendered :
  keeps I (fun e => e = TypeError \/ e = ValueError) update_display.
Proof.
  unfold update_display. apply keeps_get. intros self [Hlen Hax].
  destruct (well_data self) as [well|]; [| apply keeps_pass].
  assert (Hloop : forall k call,
            keeps I (fun e => e = TypeError \/ e = ValueError)
                  (for_ (seq k (length (tracks self) - k)) (fun i => with_axis i call))).
  { intros k call. apply keeps_for. intros i Hi%elem_of_seq.
    eapply keeps_weaken; [| apply with_axis_rendered; lia]. contradiction. }
  apply keeps_bind.
  { specialize (Hloop 0%nat). now rewrite Nat.sub_0_r in Hloop. }
  intros ?. apply keeps_bind.
  { destruct (_ ≫= _).
    - apply keeps_ret.
    - apply keeps_bind; [apply keeps_not_None; now left |]. intros df. apply keeps_ret. }
  intros depth_data. apply keeps_bind.
  { apply keeps_for. intros.
    eapply keeps_weaken; [| apply plot_curve_rendered]. intros e ->. now right. }
  intros ?. apply keeps_bind.
  { eapply keeps_weaken; [| now apply with_axis_rendered]. contradiction. }
  intros ?. apply keeps_bind; [apply Hloop |]. intros ?. apply Hloop.
Qed.

Lemma set_range_rendered r : keeps I (fun _ => False) (modify (set_depth_range r)).
Proof. now apply keeps_modify. Qed.

Lemma zoom_to_depth_range_rendered lo hi :
  keeps I (fun _ => False) (zoom_to_depth_range lo hi).
Proof.
  unfold zoom_to_depth_range. apply keeps_bind; [apply set_range_rendered |].
  intros ?. apply keeps_get. intros self [Hlen Hax].
  apply keeps_for. intros i Hi%elem_of_seq. apply with_axis_rendered. lia.
Qed.

Lemma set_well_data_rendered well :
  keeps I (fun e => e = TypeError \/ e = ValueError) (set_well_data well).
Proof.
  unfold set_well_data. apply keeps_bind; [now apply keeps_modify |]. intros ?.
  apply keeps_get. intros self Hs.
  apply keeps_bind; [| intros ?; apply update_display_rendered].
  destruct (truthy _); [| apply keeps_pass].
  destruct (WellLogData.get_curve_data _ _) as [depth_data|]; [| apply keeps_pass].
  destruct (np_min depth_data), (np_max depth_data);
    try (apply keeps_raise; now right).
  now apply keeps_modify.
Qed.

Lemma fit_to_data_rendered :
  keeps I (fun e => e = ValueError) WellSectionCanvas.fit_to_data.
Proof.
  unfold WellSectionCanvas.fit_to_data. apply keeps_get. intros self Hs.
  destruct (well_data self); [| apply keeps_pass].
  destruct (truthy _); [| apply keeps_pass].
  destruct (WellLogData.get_curve_data _ _) as [depth_data|]; [| apply keeps_pass].
  destruct (np_min depth_data), (np_max depth_data); try (now apply keeps_raise).
  apply keeps_bind; [now apply keeps_modify |]. intros ?.
  eapply keeps_weaken; [| apply zoom_to_depth_range_rendered]. contradiction.
Qed.

Lemma on_scroll_rendered event : keeps I (fun _ => False) (on_scroll event).
Proof.
  unfold on_scroll, zoom_about_center.
  destruct (button event); try apply keeps_pass;
    apply keeps_get; intros self Hs; apply zoom_to_depth_range_rendered.
Qed.

Lemma setup_display_rendered : keeps I (fun _ => False) setup_display.
Proof.
  intros self [Hlen Hax].
  rewrite (setup_display_run self). unfold I. cbn [fst snd tracks set_tracks].
  split; [| discriminate].
  destruct (decide (tracks self = [])) as [Hnil|_].
  - rewrite Hnil in Hlen. cbn in Hlen. lia.
  - split; [now rewrite length_fmap |].
    apply Forall_fmap, Forall_forall. intros track _. now eexists.
Qed.

End rendered.

Lemma on_motion_rendered (n : nat) (event : MouseEvent) :
  (0 < n)%nat ->
  keeps (fun self => length (tracks self) = n
                     /\ Forall (fun track => is_Some (Track.axis track)) (tracks self))
        (fun e => e = TypeError \/ e = ValueError)
        (on_motion event).
Proof.
  intros Hn. unfold on_motion. apply keeps_get. intros self [Hlen Hax].
  assert (Hdone : forall r : option ParentCall,
            keeps (fun self => length (tracks self) = n
                     /\ Forall (fun track => is_Some (Track.axis track)) (tracks self))
                  (fun e => e = TypeError \/ e = ValueError) (mret r))
    by (intros; apply keeps_ret).
  destruct (dragging self); [| destruct (_ && _); apply Hdone].
  destruct (drag_track_idx self) as [idx|]; [| destruct (_ && _); apply Hdone].
  destruct (xdata event) as [current_x|]; [| destruct (_ && _); apply Hdone].
  apply keeps_bind; [apply keeps_not_None; now left |]. intros start.
  destruct (tracks self !! idx) as [track|] eqn:Hidx; [| apply Hdone].
  apply keeps_bind.
  { apply keeps_modify. intros s [Hs1 Hs2]. cbn [tracks set_tracks].
    split; [now rewrite length_insert |].
    apply Forall_insert; [exact Hax |].
    apply (proj1 (Forall_lookup _ _) Hax idx track Hidx). }
  intros ?. apply keeps_bind.
  { eapply keeps_weaken; [| now apply setup_display_rendered]. contradiction. }
  intros ?. apply keeps_get. intros self2 Hs2.
  apply keeps_bind; [| intros ?; apply Hdone].
  destruct (well_data self2); [now apply set_well_data_rendered | apply keeps_pass].
Qed.

(** X5.  On a canvas that went through [setup_display], no handler indexes
    the track list out of bounds or meets a track without axis:
    [update_display], [set_well_data], [zoom_to_depth_range],
    [fit_to_data], [on_scroll], [on_motion] and [setup_display] itself
    raise neither IndexError nor AttributeError, whatever else they
    raise, and leave a canvas with as many tracks, each with its axis. *)
Theorem X5_rendered_canvas_stays_rendered
    (self : WellSectionCanvas.t) (event : MouseEvent) (well : WellLogData.t)
    (min_depth max_depth : float64) :
  rendered self ->
  let safe := fun (A : Type) (m : M WellSectionCanvas.t A) =>
    rendered (m self).1
    /\ length (tracks (m self).1) = length (tracks self)
    /\ (m self).2 <> inl IndexError
    /\ (m self).2 <> inl AttributeError in
  safe _ update_display
  /\ safe _ (set_well_data well)
  /\ safe _ (zoom_to_depth_range min_depth max_depth)
  /\ safe _ WellSectionCanvas.fit_to_data
  /\ safe _ (on_scroll event)
  /\ safe _ (on_motion event)
  /\ safe _ setup_display.
Proof.
  intros [Hne Hax]. cbv zeta.
  assert (Hpos : (0 < length (tracks self))%nat)
    by (destruct (tracks self); [congruence | simpl; lia]).
  assert (Hsafe : forall (A : Type) (m : M WellSectionCanvas.t A)
                         (E : exn -> Prop),
            keeps (fun s => length (tracks s) = length (tracks self)
                     /\ Forall (fun track => is_Some (Track.axis track)) (tracks s))
                  E m ->
            ~ E IndexError -> ~ E AttributeError ->
            rendered (m self).1
            /\ length (tracks (m self).1) = length (tracks self)
            /\ (m self).2 <> inl IndexError
            /\ (m self).2 <> inl AttributeError).
  { intros A m E Hkeeps H1 H2.
    destruct (Hkeeps self (conj eq_refl Hax)) as [[Hlen Hax'] Hexn].
    split; [split; [| exact Hax'] |].
    - intros Hnil. rewrite Hnil in Hlen. simpl in Hlen. lia.
    - split; [exact Hlen |]. split; intros Hraise; apply Hexn in Hraise; contradiction. }
  split; [| split; [| split; [| split; [| split; [| split]]]]].
  - apply (Hsafe _ _ (fun e => e = TypeError \/ e = ValueError));
      [now apply update_display_rendered | intros [?|?]; discriminate ..].
  - apply (Hsafe _ _ (fun e => e = TypeError \/ e = ValueError));
      [now apply set_well_data_rendered | intros [?|?]; discriminate ..].
  - apply (Hsafe _ _ (fun _ => False));
      [now apply zoom_to_depth_range_rendered | tauto ..].
  - apply (Hsafe _ _ (fun e => e = ValueError));
      [now apply fit_to_data_rendered | discriminate ..].
  - apply (Hsafe _ _ (fun _ => False));
      [now apply on_scroll_rendered | tauto ..].
  - apply (Hsafe _ _ (fun e => e = TypeError \/ e = ValueError));
      [now apply on_motion_rendered | intros [?|?]; discriminate ..].
  - apply (Hsafe _ _ (fun _ => False));
      [now apply setup_display_rendered | tauto ..].
Qed.

Lemma X5_rendered_canvas_stays_rendered_witness :
  rendered (update_display canvas_bound).1
  /\ (update_display canvas_bound).2 <> inl AttributeError.
Proof.
  assert (Hr : rendered canvas_bound).
  { split; [discriminate |]. vm_compute. repeat constructor; now eexists. }
  destruct (X5_rendered_canvas_stays_rendered canvas_bound motion_left
              well_example (Fin 0) (Fin 1) Hr) as ((H1 & _ & _ & H2) & _).
  split; assumption.
Defined.

(** ** Comments of a workspace file *)

Lemma contains_slashes_cons (c : ascii) (t : string) :
  contains "//" (String c t)
  = match t with
    | String d _ => Ascii.eqb c slash && Ascii.eqb d slash
    | EmptyString => false
    end || contains "//" t.
Proof.
  destruct t as [|d t].
  - cbn [contains strip_prefix]. now destruct (Ascii.eqb _ c).
  - rewrite contains_pair. now rewrite (Ascii.eqb_sym c), (Ascii.eqb_sym d).
Qed.

(** What [strip_line] gives starts with the first character of the
    text or, after a comment, with a newline. *)
Lemma strip_line_head (in_comment : bool) (s : string) :
  match strip_line in_comment s with
  | String c _ =>
      c = newline
      \/ (in_comment = false /\ exists rest, s = String c rest)
  | EmptyString => True
  end.
Proof.
  revert in_comment. induction s as [|a rest IH]; intros in_comment; [exact I |].
  destruct in_comment.
  - cbn [strip_line]. destruct (Ascii.eqb a newline) eqn:Ha.
    + left. now apply Ascii.eqb_eq.
    + specialize (IH true). destruct (strip_line true rest); [exact I |].
      destruct IH as [?|[[=] _]]. now left.
  - destruct rest as [|b rest']; [right; eauto |].
    cbn [strip_line]. destruct (Ascii.eqb a slash && Ascii.eqb b slash) eqn:Hab.
    + specialize (IH true). cbn [strip_line] in IH.
      apply andb_prop in Hab as [_ Hb]. apply Ascii.eqb_eq in Hb. subst b.
      change (Ascii.eqb slash newline) with false in IH.
      destruct (strip_line true rest'); [exact I |].
      destruct IH as [?|[[=] _]]. now left.
    + right. eauto.
Qed.

Lemma strip_line_step (a b : ascii) (rest : string) :
  strip_line false (String a (String b rest))
  = if Ascii.eqb a slash && Ascii.eqb b slash
    then strip_line true rest
    else String a (strip_line false (String b rest)).
Proof. reflexivity. Qed.

Lemma strip_line_no_slashes (in_comment : bool) (s : string) :
  contains "//" (strip_line in_comment s) = false.
Proof.
  revert in_comment. induction s as [|a rest IH]; intros in_comment.
  { now destruct in_comment. }
  destruct in_comment.
  - cbn [strip_line]. destruct (Ascii.eqb a newline) eqn:Ha; [| apply IH].
    apply Ascii.eqb_eq in Ha. subst a.
    rewrite contains_slashes_cons, IH.
    change (Ascii.eqb newline slash) with false. now destruct (strip_line false rest).
  - destruct rest as [|b rest'].
    { cbn [strip_line]. now rewrite contains_slashes_cons. }
    rewrite strip_line_step.
    destruct (Ascii.eqb a slash && Ascii.eqb b slash) eqn:Hab.
    + apply andb_prop in Hab as [_ Hb]. apply Ascii.eqb_eq in Hb. subst b.
      specialize (IH true). cbn [strip_line] in IH.
      now change (Ascii.eqb slash newline) with false in IH.
    + rewrite contains_slashes_cons, IH, orb_false_r.
      pose proof (strip_line_head false (String b rest')) as Hhead.
      destruct (strip_line false (String b rest')) as [|d t]; [reflexivity |].
      destruct (Ascii.eqb a slash) eqn:Ha; [| reflexivity]. simpl in Hab |- *.
      destruct Hhead as [->|[_ [rest'' [= -> _]]]]; [reflexivity | exact Hab].
Qed.

Lemma string_length_rev_app (s acc : string) :
  String.length (String.rev_app s acc) = (String.length s + String.length acc)%nat.
Proof.
  revert acc. induction s as [|c s IH]; intros acc; cbn [String.rev_app String.length].
  - reflexivity.
  - rewrite IH. cbn [String.length]. lia.
Qed.

Lemma strip_line_length (in_comment : bool) (s : string) :
  (String.length (strip_line in_comment s) <= String.length s)%nat.
Proof.
  revert in_comment. induction s as [|a rest IH]; intros in_comment.
  { now destruct in_comment. }
  destruct in_comment.
  - cbn [strip_line]. destruct (Ascii.eqb a newline); cbn [String.length].
    + specialize (IH false). lia.
    + specialize (IH true). lia.
  - destruct rest as [|b rest']; [reflexivity |].
    rewrite strip_line_step. destruct (Ascii.eqb a slash && Ascii.eqb b slash) eqn:Hab.
    + apply andb_prop in Hab as [_ Hb]. apply Ascii.eqb_eq in Hb. subst b.
      pose proof (IH true) as H. cbn [strip_line] in H.
      change (Ascii.eqb slash newline) with false in H.
      cbn [String.length] in H |- *. lia.
    + specialize (IH false). cbn [String.length] in IH |- *. lia.
Qed.

Lemma strip_block_length (n : nat) (skipped : option string) (s : string) :
  (String.length s <= n)%nat ->
  (String.length (strip_block skipped s)
   <= match skipped with
      | None => 0
      | Some passed => 2 + String.length passed
      end + String.length s)%nat.
Proof.
  revert skipped s. induction n as [|n IH]; intros skipped s Hn.
  { destruct s; [| simpl in Hn; lia].
    destruct skipped as [passed|]; cbn [strip_block]; [| simpl; lia].
    rewrite string_length_app, string_length_rev_app. simpl. lia. }
  destruct s as [|a rest].
  { destruct skipped as [passed|]; cbn [strip_block]; [| simpl; lia].
    rewrite string_length_app, string_length_rev_app. simpl. lia. }
  cbn [String.length] in Hn.
  destruct rest as [|b rest'].
  { destruct skipped as [passed|]; cbn [strip_block]; [| simpl; lia].
    rewrite string_length_app, string_length_rev_app. simpl. lia. }
  cbn [String.length] in Hn.
  destruct skipped as [passed|].
  - destruct (Ascii.eqb a star && Ascii.eqb b slash) eqn:Hab.
    + apply andb_prop in Hab as [Ha Hb].
      apply Ascii.eqb_eq in Ha, Hb. subst a b. rewrite strip_block_close.
      specialize (IH None rest' ltac:(lia)). simpl in IH |- *. lia.
    + rewrite strip_block_pass by exact Hab.
      specialize (IH (Some (String a passed)) (String b rest') ltac:(simpl; lia)).
      simpl in IH |- *. lia.
  - cbn [strip_block]. destruct (Ascii.eqb a slash && Ascii.eqb b star).
    + specialize (IH (Some "") rest' ltac:(lia)). simpl in IH |- *. lia.
    + specialize (IH None (String b rest') ltac:(simpl; lia)).
      simpl in IH |- *. lia.
Qed.

(** X6.  What [_strip_json_comments] returns holds no [//] any more and is
    never longer than the text; a text with neither [/*] nor [//] is
    returned as it is. *)
Theorem X6_strip_json_comments_result (s : string) :
  contains "//" (_strip_json_comments s) = false
  /\ (String.length (_strip_json_comments s) <= String.length s)%nat
  /\ (contains "/*" s = false -> contains "//" s = false ->
      _strip_json_comments s = s).
Proof.
  unfold _strip_json_comments. split; [apply strip_line_no_slashes |]. split.
  - etransitivity; [apply strip_line_length |].
    apply (strip_block_length (String.length s) None s). lia.
  - intros Hblock Hline. rewrite strip_block_none by exact Hblock.
    now apply strip_line_none.
Qed.

Lemma X6_strip_json_comments_result_witness :
  _strip_json_comments "{ }" = "{ }".
Proof.
  apply (proj2 (proj2 (X6_strip_json_comments_result "{ }"))); reflexivity.
Defined.

(** ** The workspace file *)

Section workspace_file.
Variable float_repr : float64 -> string.
Variable float : string -> float64.

(** X7.  [save] returns True exactly when the state is a dict and nothing
    stops the writing.  It then leaves the document under [path] and no
    temporary file, and saving again changes nothing.  When it returns
    False, every file but the temporary one is as before, the file
    under [path] in particular; a state that is no dict stops it before
    any file is opened.  Files other than these two are never touched.
    [load] accepts any JSON value, so that a file holding a value that
    is no dict is loaded and makes every later [save] fail; a [load]
    that fails leaves the state as it was. *)
Theorem X7_workspace_save_and_load (self : WorkspaceState.t) (fs : files)
    (io : outcome) (readable : bool) :
  let fs' := (save float_repr self fs io).1 in
  let saved := (save float_repr self fs io).2 in
  (saved = true <-> (exists items, state self = json.Dict items) /\ io = Done)
  /\ (saved = false -> forall p, p <> tmp self -> fs' !! p = fs !! p)
  /\ ((forall items, state self <> json.Dict items) -> fs' = fs)
  /\ (saved = true ->
      fs' !! tmp self = None /\ is_Some (fs' !! path self)
      /\ save float_repr self fs' Done = (fs', true))
  /\ (forall p, p <> path self -> p <> tmp self -> fs' !! p = fs !! p)
  /\ project_path (load float self fs readable).1 = project_path self
  /\ ((load float self fs readable).2 = false ->
      (load float self fs readable).1 = self)
  /\ (forall raw v,
        fs !! path self = Some raw ->
        json.loads float (_strip_json_comments (universal_newlines raw)) = Some v ->
        load float self fs true = (set_state v self, true)
        /\ ((forall items, v <> json.Dict items) ->
            save float_repr (set_state v self) fs io = (fs, false))).
Proof.
  pose proof (tmp_not_path self) as Hne. cbv zeta.
  assert (Hload : forall raw v,
            fs !! path self = Some raw ->
            json.loads float (_strip_json_comments (universal_newlines raw)) = Some v ->
            load float self fs true = (set_state v self, true)
            /\ ((forall items, v <> json.Dict items) ->
                save float_repr (set_state v self) fs io = (fs, false))).
  { intros raw v Hraw Hv. unfold load. rewrite Hraw, Hv. split; [reflexivity |].
    intros Hnodict. unfold save. cbn [state set_state].
    destruct v; try reflexivity. now destruct (Hnodict items). }
  assert (Hfail : (load float self fs readable).2 = false ->
                  (load float self fs readable).1 = self).
  { unfold load. destruct (fs !! path self); [| reflexivity].
    destruct readable; [| reflexivity]. now destruct (json.loads _ _). }
  assert (Hpath : project_path (load float self fs readable).1 = project_path self).
  { unfold load. destruct (fs !! path self); [| reflexivity].
    destruct readable; [| reflexivity]. now destruct (json.loads _ _). }
  assert (Hrest : forall other : Prop, other -> other) by trivial.
  unfold save.
  destruct (state self) as [| | | | | |items] eqn:Hstate; cbn [fst snd].
  1-6: split; [split; [discriminate | intros [[? [=]] _]] |];
       split; [reflexivity |]; split; [reflexivity |]; split; [discriminate |];
       split; [reflexivity |]; auto.
  destruct io as [|written| |]; cbn [fst snd].
  - split; [split; [discriminate | intros [_ [=]]] |].
    split; [reflexivity |]. split; [intros H; now destruct (H items) |].
    split; [discriminate |]. split; [reflexivity |]. auto.
  - split; [split; [discriminate | intros [_ [=]]] |].
    split; [intros; now rewrite lookup_insert_ne by congruence |].
    split; [intros H; now destruct (H items) |].
    split; [discriminate |].
    split; [intros; now rewrite lookup_insert_ne by congruence |]. auto.
  - split; [split; [discriminate | intros [_ [=]]] |].
    split; [intros; now rewrite lookup_insert_ne by congruence |].
    split; [intros H; now destruct (H items) |].
    split; [discriminate |].
    split; [intros; now rewrite lookup_insert_ne by congruence |]. auto.
  - split; [split; eauto |]. split; [discriminate |].
    split; [intros H; now destruct (H items) |]. split.
    { intros _. split; [| split].
      - rewrite lookup_insert_ne by congruence. apply lookup_delete_eq.
      - rewrite lookup_insert_eq. eauto.
      - f_equal. rewrite delete_insert_ne by exact Hne.
        now rewrite delete_delete_eq, insert_insert_eq. }
    split; [| auto].
    intros p Hp1 Hp2. rewrite lookup_insert_ne by congruence.
    now rewrite lookup_delete_ne by congruence.
Qed.

End workspace_file.

Lemma X7_workspace_save_and_load_witness :
  let fs : files := {[ "proj/workspace.json" := "[]" ]} in
  load demo_float_of workspace1 fs true
  = (set_state (json.List []) workspace1, true)
  /\ save demo_repr (set_state (json.List []) workspace1) fs Done = (fs, false).
Proof.
  intros fs.
  destruct (X7_workspace_save_and_load demo_repr demo_float_of workspace1 fs
              Done true)
    as (_ & _ & _ & _ & _ & _ & _ & H).
  destruct (H "[]" (json.List [])) as [Hload Hsave].
  - reflexivity.
  - vm_compute. reflexivity.
  - split; [exact Hload |]. apply Hsave. discriminate.
Defined.

(** ** Zooming *)

(** A loop of axis calls over the tracks from [k] on, all with an axis. *)
Lemma with_axis_loop (call : Track.t -> Axes.t -> Axes.t) (n k : nat)
    (self : WellSectionCanvas.t) :
  (k + n <= length (tracks self))%nat ->
  Forall (fun track => is_Some (Track.axis track)) (tracks self) ->
  exists ts,
    for_ (seq k n) (fun i => with_axis i call) self = (set_tracks ts self, inr ())
    /\ length ts = length (tracks self)
    /\ forall j, ts !! j
                 = if decide (k <= j < k + n)%nat
                   then axis_call call <$> tracks self !! j
                   else tracks self !! j.
Proof.
  revert k self. induction n as [|n IH]; intros k self Hlen Hax.
  - exists (tracks self). split; [now destruct self |]. split; [reflexivity |].
    intros j. destruct (decide _); [lia | reflexivity].
  - destruct (lookup_lt_is_Some_2 (tracks self) k ltac:(lia)) as [track Htrack].
    destruct (proj1 (Forall_lookup _ _) Hax k track Htrack) as [ax Hax_k].
    cbn [seq for_]. rewrite (bind_ok _ _ _ _ () (with_axis_ok _ _ call _ _ Htrack Hax_k)).
    set (self1 := set_tracks _ self).
    destruct (IH (S k) self1) as (ts & Hrun & Hlen' & Hts).
    { unfold self1. cbn [tracks set_tracks]. rewrite length_insert. lia. }
    { unfold self1. cbn [tracks set_tracks].
      apply Forall_insert; [exact Hax | now eexists]. }
    exists ts. split; [rewrite Hrun; now destruct self |].
    split; [rewrite Hlen'; apply length_insert |].
    intros j. rewrite Hts. cbn [self1 tracks set_tracks].
    destruct (decide (S k <= j < S k + n)%nat), (decide (k <= j < k + S n)%nat);
      try lia.
    + now rewrite list_lookup_insert_ne by lia.
    + assert (j = k) as -> by lia.
      rewrite list_lookup_insert_eq by lia. rewrite Htrack. cbn [fmap option_fmap option_map].
      unfold axis_call. now rewrite Hax_k.
    + now rewrite list_lookup_insert_ne by lia.
Qed.

Lemma with_axis_all (call : Track.t -> Axes.t -> Axes.t) (self : WellSectionCanvas.t) :
  Forall (fun track => is_Some (Track.axis track)) (tracks self) ->
  for_ (seq 0 (length (tracks self))) (fun i => with_axis i call) self
  = (set_tracks (axis_call call <$> tracks self) self, inr ()).
Proof.
  intros Hax.
  destruct (with_axis_loop call (length (tracks self)) 0 self ltac:(lia) Hax)
    as (ts & Hrun & Hlen & Hts).
  rewrite Hrun. do 2 f_equal.
  apply list_eq. intros j. rewrite Hts, list_lookup_fmap.
  destruct (decide (0 <= j < 0 + length (tracks self))%nat) as [|Hout];
    [reflexivity |].
  rewrite (lookup_ge_None_2 (tracks self) j) by lia. reflexivity.
Qed.

(** The loop stops with AttributeError at the first track without axis. *)
Lemma with_axis_loop_raises (call : Track.t -> Axes.t -> Axes.t) (n k : nat)
    (self : WellSectionCanvas.t) :
  (k + n = length (tracks self))%nat ->
  Exists (fun track => Track.axis track = None) (drop k (tracks self)) ->
  (for_ (seq k n) (fun i => with_axis i call) self).2 = inl AttributeError.
Proof.
  revert k self. induction n as [|n IH]; intros k self Hlen Hnone.
  - rewrite drop_ge in Hnone by lia. now apply Exists_nil in Hnone.
  - destruct (lookup_lt_is_Some_2 (tracks self) k ltac:(lia)) as [track Htrack].
    rewrite (drop_S _ _ _ Htrack) in Hnone.
    cbn [seq for_]. destruct (Track.axis track) as [ax|] eqn:Hax_k.
    + rewrite (bind_ok _ _ _ _ () (with_axis_ok _ _ call _ _ Htrack Hax_k)).
      apply IH.
      * cbn [tracks set_tracks]. rewrite length_insert. lia.
      * cbn [tracks set_tracks]. rewrite drop_insert_lt by lia.
        apply Exists_cons in Hnone as [Hk|Hrest]; [congruence | exact Hrest].
    + unfold mbind, M_bind, with_axis. now rewrite Htrack, Hax_k.
Qed.

Lemma zoom_to_depth_range_run (min_depth max_depth : float64)
    (self : WellSectionCanvas.t) :
  Forall (fun track => is_Some (Track.axis track)) (tracks self) ->
  zoom_to_depth_range min_depth max_depth self
  = (set_tracks (axis_call (fun _ => Axes.set_ylim max_depth min_depth) <$> tracks self)
       (set_depth_range (min_depth, max_depth) self), inr ()).
Proof.
  intros Hax. unfold zoom_to_depth_range.
  rewrite (bind_ok (modify _) _ self _ () eq_refl).
  set (self1 := set_depth_range _ self).
  rewrite (bind_ok get _ self1 self1 self1 eq_refl).
  now rewrite (with_axis_all _ self1 Hax).
Qed.

Lemma zoom_to_depth_range_frame (min_depth max_depth : float64)
    (self : WellSectionCanvas.t) :
  let self' := (zoom_to_depth_range min_depth max_depth self).1 in
  (well_data self', depth_curve self', dragging self', drag_track_idx self',
   drag_start_x self')
  = (well_data self, depth_curve self, dragging self, drag_track_idx self,
     drag_start_x self).
Proof.
  cbv zeta.
  assert (Hkeeps :
    keeps (fun s => (well_data s, depth_curve s, dragging s,
                     drag_track_idx s, drag_start_x s)
                    = (well_data self, depth_curve self, dragging self,
                       drag_track_idx self, drag_start_x self))
          (fun _ => True) (zoom_to_depth_range min_depth max_depth)).
  { unfold zoom_to_depth_range.
    apply keeps_bind; [now apply keeps_modify |]. intros ?.
    apply keeps_get. intros s Hs. apply keeps_for. intros i _ s' Hs'.
    unfold with_axis, mbind, M_bind, get.
    destruct (tracks s' !! i) as [track|]; [| now split].
    destruct (Track.axis track); now split. }
  exact (proj1 (Hkeeps self eq_refl)).
Qed.

(** X8.  [zoom_to_depth_range] takes any two numbers, in any order: the
    range is the pair given whether it returns or raises, and name,
    width, colour and curves of the tracks, the well, the depth curve
    and the drag state are as before.  When it returns, every track has
    its axis, with title, lines and x-limits as before.  With finite
    bounds and a track without axis it raises AttributeError. *)
Theorem X8_zoom_to_depth_range_result (min_depth max_depth : float64)
    (self : WellSectionCanvas.t) :
  let self' := (zoom_to_depth_range min_depth max_depth self).1 in
  depth_range self' = (min_depth, max_depth)
  /\ Track.layout <$> tracks self' = Track.layout <$> tracks self
  /\ (well_data self', depth_curve self', dragging self',
      drag_track_idx self', drag_start_x self')
     = (well_data self, depth_curve self, dragging self,
        drag_track_idx self, drag_start_x self)
  /\ ((zoom_to_depth_range min_depth max_depth self).2 = inr () ->
      forall i track,
        tracks self !! i = Some track ->
        exists track' ax ax',
          tracks self' !! i = Some track'
          /\ Track.axis track = Some ax /\ Track.axis track' = Some ax'
          /\ (Axes.title ax', Axes.lines ax', Axes.xlim ax')
             = (Axes.title ax, Axes.lines ax, Axes.xlim ax))
  /\ (isfinite min_depth = true -> isfinite max_depth = true ->
      ~ Forall (fun track => is_Some (Track.axis track)) (tracks self) ->
      (zoom_to_depth_range min_depth max_depth self).2 = inl AttributeError).
Proof.
  cbv zeta.
  assert (Hraises :
    ~ Forall (fun track => is_Some (Track.axis track)) (tracks self) ->
    (zoom_to_depth_range min_depth max_depth self).2 = inl AttributeError).
  { intros Hnot. unfold zoom_to_depth_range.
    rewrite (bind_ok (modify _) _ self _ () eq_refl).
    set (self1 := set_depth_range _ self).
    rewrite (bind_ok get _ self1 self1 self1 eq_refl).
    apply with_axis_loop_raises; [reflexivity |].
    rewrite drop_0. cbn [self1 tracks set_depth_range].
    apply not_Forall_Exists in Hnot; [| intros track; apply _].
    eapply Exists_impl; [exact Hnot |]. intros track Hn. cbn in Hn.
    destruct (Track.axis track); [destruct Hn; now eexists | reflexivity]. }
  split; [apply zoom_to_depth_range_sets |].
  split; [apply (zoom_to_depth_range_keeps_layout _ _ _ self eq_refl) |].
  split; [apply zoom_to_depth_range_frame |].
  split; [| intros _ _; exact Hraises].
  intros Hret.
  destruct (decide (Forall (fun track => is_Some (Track.axis track)) (tracks self)))
    as [Hax|Hnot]; [| rewrite (Hraises Hnot) in Hret; discriminate].
  rewrite (zoom_to_depth_range_run _ _ _ Hax).
  cbn [fst tracks set_tracks set_depth_range].
  intros i track Hi.
  destruct (proj1 (Forall_lookup _ _) Hax i track Hi) as [ax Hax_i].
  exists (axis_call (fun _ => Axes.set_ylim max_depth min_depth) track), ax,
         (Axes.set_ylim max_depth min_depth ax).
  split; [now rewrite list_lookup_fmap, Hi |].
  split; [exact Hax_i |]. unfold axis_call. rewrite Hax_i.
  split; reflexivity.
Qed.

Lemma X8_zoom_to_depth_range_result_witness :
  (zoom_to_depth_range (Fin 500) (Fin 100)
     (set_tracks default_tracks canvas_bound)).2 = inl AttributeError
  /\ exists track',
       tracks (zoom_to_depth_range (Fin 500) (Fin 100) canvas_bound).1 !! 0%nat
       = Some track'.
Proof.
  split.
  - apply (X8_zoom_to_depth_range_result (Fin 500) (Fin 100)
             (set_tracks default_tracks canvas_bound)); try reflexivity.
    intros H. apply Forall_inv in H. destruct H as [? [=]].
  - destruct (proj1 (proj2 (proj2 (proj2
                (X8_zoom_to_depth_range_result (Fin 500) (Fin 100) canvas_bound))))
                eq_refl 0%nat _ eq_refl) as (track' & _ & _ & Htrack' & _).
    now exists track'.
Defined.

Lemma on_canvas_run {A} (m : M WellSectionCanvas.t A)
    (self : EnhancedWellSectionWidget.t) :
  on_canvas m self = (set_canvas (m (canvas self)).1 self, (m (canvas self)).2).
Proof. unfold on_canvas. now destruct (m (canvas self)). Qed.

Lemma zoom_about_center_layout (factor : Q) (self : WellSectionCanvas.t) :
  Track.layout <$> tracks (zoom_about_center factor self).1
  = Track.layout <$> tracks self.
Proof.
  unfold zoom_about_center.
  rewrite (bind_ok get _ self self self eq_refl).
  apply (zoom_to_depth_range_keeps_layout _ _ _ self eq_refl).
Qed.

Lemma zoom_button_run (format_0f : float64 -> string) (factor : Q)
    (self : EnhancedWellSectionWidget.t) :
  let run := (on_canvas (zoom_about_center factor);;
              update_depth_inputs format_0f) self in
  current_well run.1 = current_well self
  /\ status_label run.1 = status_label self
  /\ Track.layout <$> tracks (canvas run.1) = Track.layout <$> tracks (canvas self)
  /\ canvas run.1 = (zoom_about_center factor (canvas self)).1
  /\ run.2 = (zoom_about_center factor (canvas self)).2
  /\ (run.2 = inr () ->
      min_depth_edit run.1 = format_0f (depth_range (canvas run.1)).1
      /\ max_depth_edit run.1 = format_0f (depth_range (canvas run.1)).2)
  /\ (run.2 <> inr () ->
      min_depth_edit run.1 = min_depth_edit self
      /\ max_depth_edit run.1 = max_depth_edit self).
Proof.
  cbv zeta. pose proof (zoom_about_center_layout factor (canvas self)) as Hlayout.
  unfold mbind, M_bind. rewrite on_canvas_run.
  destruct (zoom_about_center factor (canvas self)) as [c [e|[]]].
  - cbn [fst snd canvas set_canvas current_well status_label min_depth_edit
         max_depth_edit] in *.
    repeat (split; [first [reflexivity | exact Hlayout] |]).
    split; [discriminate | split; reflexivity].
  - unfold update_depth_inputs, modify.
    cbn [fst snd canvas set_canvas] in *.
    destruct (depth_range c) as [min_d max_d] eqn:Hr.
    cbn [fst snd canvas set_canvas set_depth_edits current_well status_label
         min_depth_edit max_depth_edit].
    rewrite Hr.
    repeat (split; [first [reflexivity | exact Hlayout] |]).
    split; [split; reflexivity | intros H; now destruct H].
Qed.

Lemma zoom_about_center_frame (factor : Q) (self : WellSectionCanvas.t) :
  let self' := (zoom_about_center factor self).1 in
  (well_data self', depth_curve self', dragging self', drag_track_idx self',
   drag_start_x self')
  = (well_data self, depth_curve self, dragging self, drag_track_idx self,
     drag_start_x self).
Proof.
  cbv zeta. unfold zoom_about_center.
  rewrite (bind_ok get _ self self self eq_refl).
  apply zoom_to_depth_range_frame.
Qed.

(** Half of a span that is not negative, taken off and put on a centre,
    gives two bounds in order, unless one of them is no number. *)
Lemma bounds_about_center (center half : float64) :
  fleb (Fin 0) half = true ->
  isnan (fsub center half) = false -> isnan (fadd center half) = false ->
  fleb (fsub center half) (fadd center half) = true.
Proof.
  destruct center as [| |c|], half as [| |h|]; try discriminate; try reflexivity.
  cbn [fleb fsub fadd]. intros Hh _ _. apply Qle_bool_iff in Hh.
  apply finite_mono. lra.
Qed.

Lemma half_span_not_negative (factor lo hi : Q) :
  (0 < factor)%Q -> (lo <= hi)%Q ->
  fleb (Fin 0) (fdiv (fmul (fsub (Fin hi) (Fin lo)) (Fin factor)) (Fin 2)) = true.
Proof.
  intros Hfactor Hle. pose proof overflow_bound_pos as Hbound.
  assert (Hzero : finite 0 = Fin 0) by reflexivity.
  assert (Hspan : fleb (Fin 0) (fsub (Fin hi) (Fin lo)) = true)
    by (cbn [fsub]; rewrite <- Hzero; apply finite_mono; lra).
  assert (Hnew : fleb (Fin 0) (fmul (fsub (Fin hi) (Fin lo)) (Fin factor)) = true).
  { destruct (fsub (Fin hi) (Fin lo)) as [| |span|]; try discriminate.
    - cbn [fmul]. rewrite <- Hzero. apply finite_mono.
      apply Qle_bool_iff in Hspan. nra.
    - cbn [fmul fsign inf_of_sign].
      destruct (Qcompare_spec factor 0) as [H|H|H]; try (exfalso; lra). reflexivity. }
  destruct (fmul _ _) as [| |new_span|]; try discriminate; [| reflexivity].
  cbn [fdiv]. change (Qeq_bool 2 0) with false. cbv iota.
  rewrite <- Hzero. apply finite_mono. apply Qle_bool_iff in Hnew.
  apply Qle_shift_div_l; lra.
Qed.

(** X9.  The mouse wheel.  Whatever the event, name, width, colour and
    curves of the tracks, the well, the depth curve and the drag state
    are as before, whether the handler returns or raises.  An event
    whose button is neither wheel direction changes nothing.  On a
    finite depth range whose bounds are in order a wheel step leaves
    bounds in order, unless one of them is NaN, which they are when the
    centre and the new span both overflow. *)
Theorem X9_on_scroll_zoom (self : WellSectionCanvas.t) (event : MouseEvent) :
  let self' := (on_scroll event self).1 in
  Track.layout <$> tracks self' = Track.layout <$> tracks self
  /\ (well_data self', depth_curve self', dragging self', drag_track_idx self',
      drag_start_x self')
     = (well_data self, depth_curve self, dragging self, drag_track_idx self,
        drag_start_x self)
  /\ match button event with
     | MouseButton _ => on_scroll event self = (self, inr ())
     | _ => True
     end
  /\ (forall lo hi : Q,
        depth_range self = (Fin lo, Fin hi) -> (lo <= hi)%Q ->
        isnan (depth_range self').1 = false ->
        isnan (depth_range self').2 = false ->
        fleb (depth_range self').1 (depth_range self').2 = true).
Proof.
  cbv zeta.
  assert (Hstep : forall factor lo hi,
            (0 < factor)%Q ->
            depth_range self = (Fin lo, Fin hi) -> (lo <= hi)%Q ->
            isnan (depth_range (zoom_about_center factor self).1).1 = false ->
            isnan (depth_range (zoom_about_center factor self).1).2 = false ->
            fleb (depth_range (zoom_about_center factor self).1).1
                 (depth_range (zoom_about_center factor self).1).2 = true).
  { intros factor lo hi Hfactor Hr Hle. unfold zoom_about_center.
    rewrite (bind_ok get _ self self self eq_refl). cbv beta zeta.
    rewrite zoom_to_depth_range_sets. rewrite Hr. cbn [fst snd].
    apply bounds_about_center. now apply half_span_not_negative. }
  unfold on_scroll. destruct (button event).
  - split; [reflexivity |]. split; [reflexivity |]. split; [reflexivity |].
    intros lo hi Hr Hle _ _.
    change (fleb (depth_range self).1 (depth_range self).2 = true).
    rewrite Hr. cbn [fst snd fleb]. now apply Qle_bool_iff.
  - split; [apply zoom_about_center_layout |].
    split; [apply zoom_about_center_frame |]. split; [exact I |].
    intros lo hi. apply Hstep. reflexivity.
  - split; [apply zoom_about_center_layout |].
    split; [apply zoom_about_center_frame |]. split; [exact I |].
    intros lo hi. apply Hstep. reflexivity.
Qed.

(** X10.  The zoom buttons of the widget, [zoom_in] and [zoom_out]: the
    selected well, the status line and name, width, colour and curves of
    the tracks are as before, whether the button returns or raises.  When
    it returns, the two edits show the depth range the canvas then has;
    when it raises, the edits are as before. *)
Theorem X10_zoom_buttons (format_0f : float64 -> string)
    (self : EnhancedWellSectionWidget.t) :
  let zoomed (run : EnhancedWellSectionWidget.t * (exn + unit)) :=
    current_well run.1 = current_well self
    /\ status_label run.1 = status_label self
    /\ Track.layout <$> tracks (canvas run.1) = Track.layout <$> tracks (canvas self)
    /\ (run.2 = inr () ->
        min_depth_edit run.1 = format_0f (depth_range (canvas run.1)).1
        /\ max_depth_edit run.1 = format_0f (depth_range (canvas run.1)).2)
    /\ (run.2 <> inr () ->
        min_depth_edit run.1 = min_depth_edit self
        /\ max_depth_edit run.1 = max_depth_edit self) in
  zoomed (zoom_in format_0f self) /\ zoomed (zoom_out format_0f self).
Proof.
  cbv zeta. unfold zoom_in, zoom_out.
  pose proof (zoom_button_run format_0f 0.7 self) as Hin.
  pose proof (zoom_button_run format_0f 1.4 self) as Hout.
  cbv zeta in Hin, Hout.
  destruct Hin as (Hin1 & Hin2 & Hin3 & _ & _ & Hin4 & Hin5).
  destruct Hout as (Hout1 & Hout2 & Hout3 & _ & _ & Hout4 & Hout5).
  split; (split; [| split; [| split; [| split]]]); assumption.
Qed.

(** ** Binding a well to the canvas *)

(** What holds of the canvas whatever its axes hold is kept by
    [update_display]. *)
Section axes_only.
Variable I : WellSectionCanvas.t -> Prop.
Hypothesis with_axis_keeps :
  forall i call, keeps I (fun _ => True) (with_axis i call).

Lemma plot_curve_keeps well depth_data curve_name :
  keeps I (fun _ => True) (plot_curve well depth_data curve_name).
Proof.
  unfold plot_curve.
  destruct (WellLogData.get_curve_data _ _) as [curve_data|]; [| apply keeps_pass].
  apply keeps_get. intros self Hs.
  destruct (decide _); [apply keeps_pass |].
  apply keeps_bind; [apply with_axis_keeps |]. intros ?.
  destruct (decide _); [| apply keeps_pass].
  destruct (np_nanmin curve_data), (np_nanmax curve_data);
    try (now apply keeps_raise).
  destruct (_ && _); [apply with_axis_keeps | apply keeps_pass].
Qed.

Lemma update_display_keeps : keeps I (fun _ => True) update_display.
Proof.
  unfold update_display. apply keeps_get. intros self Hs.
  destruct (well_data self) as [well|]; [| apply keeps_pass].
  apply keeps_bind; [apply keeps_for; intros; apply with_axis_keeps |].
  intros ?. apply keeps_bind.
  { destruct (_ ≫= _).
    - apply keeps_ret.
    - apply keeps_bind; [now apply keeps_not_None |]. intros df. apply keeps_ret. }
  intros depth_data.
  apply keeps_bind; [apply keeps_for; intros; apply plot_curve_keeps |].
  intros ?. apply keeps_bind; [apply with_axis_keeps |].
  intros ?. apply keeps_bind; [apply keeps_for; intros; apply with_axis_keeps |].
  intros ?. apply keeps_for; intros; apply with_axis_keeps.
Qed.

End axes_only.

(** [update_display] writes to the tracks only. *)
Lemma update_display_frame (self : WellSectionCanvas.t) :
  set_tracks [] (update_display self).1 = set_tracks [] self.
Proof.
  apply (update_display_keeps (fun s => set_tracks [] s = set_tracks [] self));
    [| reflexivity].
  intros i call s Hs. unfold with_axis.
  destruct (tracks s !! i) as [track|]; [| now split].
  destruct (Track.axis track); now split.
Qed.

Lemma bind_raise {S A B} (m : M S A) (f : A -> M S B) s s' e :
  m s = (s', inl e) -> (m ≫= f) s = (s', inl e).
Proof. intros H. unfold mbind, M_bind. now rewrite H. Qed.

Lemma first_candidate_found (cs : gmap string ndarray) (candidates : list string)
    (c : string) :
  WellLogData.first_candidate cs candidates = Some c ->
  c ∈ candidates /\ is_Some (cs !! c).
Proof.
  induction candidates as [|c' rest IH]; [discriminate |].
  cbn [WellLogData.first_candidate]. destruct (decide _) as [Hc|_].
  - intros [= <-]. split; [left | exact Hc].
  - intros [Hin Hc]%IH. split; [now right | exact Hc].
Qed.

(** [np.min] and [np.max] of an array without NaN are samples of the
    array that bound the others. *)
Lemma fleb_refl (x : float64) : isnan x = false -> fleb x x = true.
Proof. destruct x; try discriminate; try reflexivity. intros _. qsolve. Qed.

Lemma fleb_trans (x y z : float64) :
  fleb x y = true -> fleb y z = true -> fleb x z = true.
Proof. destruct x, y, z; try discriminate; try reflexivity; intros; qsolve. Qed.

Lemma fltb_fleb (x y : float64) : fltb x y = true -> fleb x y = true.
Proof. destruct x, y; try discriminate; try reflexivity; intros; qsolve. Qed.

Lemma not_fltb_fleb (x y : float64) :
  isnan x = false -> isnan y = false -> fltb y x = false -> fleb x y = true.
Proof. destruct x, y; try discriminate; try reflexivity; intros; qsolve. Qed.

Lemma foldl_np_minimum (acc : float64) (l : ndarray) :
  isnan acc = false ->
  Forall (fun x => isnan x = false) l ->
  let m := foldl np_minimum acc l in
  (m = acc \/ m ∈ l) /\ isnan m = false
  /\ fleb m acc = true /\ Forall (fun x => fleb m x = true) l.
Proof.
  cbv zeta. revert acc. induction l as [|x l IH]; intros acc Hacc Hl.
  - cbn [foldl]. split; [now left |]. split; [exact Hacc |].
    split; [now apply fleb_refl | constructor].
  - apply Forall_cons in Hl as [Hx Hl]. cbn [foldl].
    assert (Hstep : np_minimum acc x = (if fltb x acc then x else acc))
      by (unfold np_minimum; now rewrite Hacc, Hx).
    assert (Hnan : isnan (np_minimum acc x) = false)
      by (rewrite Hstep; now destruct (fltb x acc)).
    destruct (IH (np_minimum acc x) Hnan Hl) as (Hin & Hm & Hle & Hall).
    assert (Hle_acc : fleb (np_minimum acc x) acc = true).
    { rewrite Hstep. destruct (fltb x acc) eqn:Hlt;
        [now apply fltb_fleb | now apply fleb_refl]. }
    assert (Hle_x : fleb (np_minimum acc x) x = true).
    { rewrite Hstep. destruct (fltb x acc) eqn:Hlt;
        [now apply fleb_refl | now apply not_fltb_fleb]. }
    split; [| split; [exact Hm | split]].
    + destruct Hin as [->|Hin]; [| right; now right].
      rewrite Hstep. destruct (fltb x acc); [right; left | now left].
    + eapply fleb_trans; [exact Hle | exact Hle_acc].
    + constructor; [| exact Hall]. eapply fleb_trans; [exact Hle | exact Hle_x].
Qed.

Lemma foldl_np_maximum (acc : float64) (l : ndarray) :
  isnan acc = false ->
  Forall (fun x => isnan x = false) l ->
  let m := foldl np_maximum acc l in
  (m = acc \/ m ∈ l) /\ isnan m = false
  /\ fleb acc m = true /\ Forall (fun x => fleb x m = true) l.
Proof.
  cbv zeta. revert acc. induction l as [|x l IH]; intros acc Hacc Hl.
  - cbn [foldl]. split; [now left |]. split; [exact Hacc |].
    split; [now apply fleb_refl | constructor].
  - apply Forall_cons in Hl as [Hx Hl]. cbn [foldl].
    assert (Hstep : np_maximum acc x = (if fltb acc x then x else acc))
      by (unfold np_maximum; now rewrite Hacc, Hx).
    assert (Hnan : isnan (np_maximum acc x) = false)
      by (rewrite Hstep; now destruct (fltb acc x)).
    destruct (IH (np_maximum acc x) Hnan Hl) as (Hin & Hm & Hle & Hall).
    assert (Hle_acc : fleb acc (np_maximum acc x) = true).
    { rewrite Hstep. destruct (fltb acc x) eqn:Hlt;
        [now apply fltb_fleb | now apply fleb_refl]. }
    assert (Hle_x : fleb x (np_maximum acc x) = true).
    { rewrite Hstep. destruct (fltb acc x) eqn:Hlt;
        [now apply fleb_refl | now apply not_fltb_fleb]. }
    split; [| split; [exact Hm | split]].
    + destruct Hin as [->|Hin]; [| right; now right].
      rewrite Hstep. destruct (fltb acc x); [right; left | now left].
    + eapply fleb_trans; [exact Hle_acc | exact Hle].
    + constructor; [| exact Hall]. eapply fleb_trans; [exact Hle_x | exact Hle].
Qed.

(** A NaN sample makes both of them NaN. *)
Lemma foldl_nan_wins (op : float64 -> float64 -> float64) (acc : float64)
    (l : ndarray) :
  (forall a b, isnan a = true \/ isnan b = true -> op a b = NaN) ->
  isnan acc = true \/ Exists (fun x => isnan x = true) l ->
  foldl op acc l = NaN.
Proof.
  intros Hop. revert acc. induction l as [|x l IH]; intros acc Hnan; cbn [foldl].
  - destruct Hnan as [Hacc|Hl]; [now destruct acc | now apply Exists_nil in Hl].
  - apply IH. destruct Hnan as [Hacc|[Hx|Hl]%Exists_cons].
    + left. rewrite Hop; auto.
    + left. rewrite Hop; auto.
    + now right.
Qed.

Lemma np_minimum_nan (a b : float64) :
  isnan a = true \/ isnan b = true -> np_minimum a b = NaN.
Proof. unfold np_minimum. destruct a, b; simpl; intros [[=]|[=]]; reflexivity. Qed.

Lemma np_maximum_nan (a b : float64) :
  isnan a = true \/ isnan b = true -> np_maximum a b = NaN.
Proof. unfold np_maximum. destruct a, b; simpl; intros [[=]|[=]]; reflexivity. Qed.

Lemma np_min_max_bounds (a : ndarray) :
  a <> [] ->
  exists lo hi,
    np_min a = Some lo /\ np_max a = Some hi
    /\ (Forall (fun x => isnan x = false) a ->
        lo ∈ a /\ hi ∈ a
        /\ Forall (fun x => fleb lo x = true /\ fleb x hi = true) a)
    /\ (Exists (fun x => isnan x = true) a -> lo = NaN /\ hi = NaN).
Proof.
  destruct a as [|x rest]; [congruence |]. intros _.
  eexists _, _. split; [reflexivity |]. split; [reflexivity |]. split.
  - intros [Hx Hrest]%Forall_cons.
    destruct (foldl_np_minimum x rest Hx Hrest) as (Hin1 & _ & Hle1 & Hall1).
    destruct (foldl_np_maximum x rest Hx Hrest) as (Hin2 & _ & Hle2 & Hall2).
    split; [destruct Hin1 as [->|?]; [left | now right] |].
    split; [destruct Hin2 as [->|?]; [left | now right] |].
    constructor; [now split |].
    apply Forall_forall. intros y Hy. split.
    + exact (proj1 (Forall_forall _ _) Hall1 y Hy).
    + exact (proj1 (Forall_forall _ _) Hall2 y Hy).
  - intros Hnan. apply Exists_cons in Hnan. split.
    + apply (foldl_nan_wins _ _ _ np_minimum_nan). tauto.
    + apply (foldl_nan_wins _ _ _ np_maximum_nan). tauto.
Qed.

Lemma same_but_tracks (s s' : WellSectionCanvas.t) :
  set_tracks [] s = set_tracks [] s' ->
  depth_range s = depth_range s' /\ well_data s = well_data s'
  /\ depth_curve s = depth_curve s'
  /\ (dragging s, drag_track_idx s, drag_start_x s)
     = (dragging s', drag_track_idx s', drag_start_x s').
Proof. destruct s, s'. unfold set_tracks. cbn. intros [= -> -> -> -> -> ->]. auto. Qed.

Lemma set_well_data_run (well : WellLogData.t) (self : WellSectionCanvas.t) :
  set_well_data well self
  = let self1 := set_well (Some well) (WellLogData._find_depth_curve well) self in
    match WellLogData._find_depth_curve well ≫= WellLogData.get_curve_data well with
    | Some depth_data =>
        match np_min depth_data, np_max depth_data with
        | Some lo, Some hi => update_display (set_depth_range (lo, hi) self1)
        | _, _ => (self1, inl ValueError)
        end
    | None => update_display self1
    end.
Proof.
  unfold set_well_data. rewrite (bind_ok (modify _) _ self _ () eq_refl).
  set (self1 := set_well _ _ self). cbv zeta.
  rewrite (bind_ok get _ self1 self1 self1 eq_refl).
  change (depth_curve self1) with (WellLogData._find_depth_curve well).
  destruct (WellLogData._find_depth_curve well) as [dc|] eqn:Hfind;
    [| reflexivity].
  apply first_candidate_found in Hfind as [Hin _].
  assert (Htruthy : truthy (Some dc) = Some dc).
  { unfold WellLogData.depth_candidates in Hin.
    rewrite !elem_of_cons, elem_of_nil in Hin.
    destruct Hin as [->|[->|[->|[->|[]]]]]; reflexivity. }
  rewrite Htruthy. cbn [mbind option_bind].
  destruct (WellLogData.get_curve_data well dc) as [depth_data|]; [| reflexivity].
  destruct (np_min depth_data) as [lo|], (np_max depth_data) as [hi|];
    reflexivity.
Qed.

(** X11.  [set_well_data] binds the well and the depth curve found for it,
    whatever happens afterwards, and leaves the drag state alone.  With
    a depth curve of at least one sample the depth range becomes
    (minimum, maximum) of the samples: samples that bound all the others
    when none is NaN, and (NaN, NaN) as soon as one is.  A depth curve
    without samples raises ValueError before anything is displayed;
    without depth curve the range stays. *)
Theorem X11_set_well_data_binds (well : WellLogData.t) (self : WellSectionCanvas.t) :
  let self' := (set_well_data well self).1 in
  well_data self' = Some well
  /\ depth_curve self' = WellLogData._find_depth_curve well
  /\ (dragging self', drag_track_idx self', drag_start_x self')
     = (dragging self, drag_track_idx self, drag_start_x self)
  /\ match WellLogData._find_depth_curve well with
     | None => depth_range self' = depth_range self
     | Some dc =>
         exists depth_data,
           WellLogData.curves well !! dc = Some depth_data
           /\ (depth_data = [] ->
               set_well_data well self
               = (set_well (Some well) (Some dc) self, inl ValueError))
           /\ (depth_data <> [] ->
               exists lo hi,
                 depth_range self' = (lo, hi)
                 /\ (Forall (fun x => isnan x = false) depth_data ->
                     lo ∈ depth_data /\ hi ∈ depth_data
                     /\ Forall (fun x => fleb lo x = true /\ fleb x hi = true)
                               depth_data)
                 /\ (Exists (fun x => isnan x = true) depth_data ->
                     lo = NaN /\ hi = NaN))
     end.
Proof.
  cbv zeta. rewrite set_well_data_run. cbv zeta.
  set (self1 := set_well _ _ self).
  assert (Hframe : forall s r,
            set_tracks [] s = set_tracks [] self1
            \/ set_tracks [] s = set_tracks [] (set_depth_range r self1) ->
            well_data s = Some well
            /\ depth_curve s = WellLogData._find_depth_curve well
            /\ (dragging s, drag_track_idx s, drag_start_x s)
               = (dragging self, drag_track_idx self, drag_start_x self)).
  { intros s r [Hs|Hs]; apply same_but_tracks in Hs as (_ & H1 & H2 & H3);
      rewrite H1, H2, H3; auto. }
  destruct (WellLogData._find_depth_curve well) as [dc|] eqn:Hfind.
  - destruct (first_candidate_found _ _ _ Hfind) as [_ [depth_data Hdata]].
    cbn [mbind option_bind]. unfold WellLogData.get_curve_data. rewrite Hdata.
    destruct depth_data as [|x rest].
    + cbn [np_min np_max fst].
      destruct (Hframe self1 (NaN, NaN) (or_introl eq_refl)) as (H1 & H2 & H3).
      split; [exact H1 |]. split; [exact H2 |]. split; [exact H3 |].
      exists []. split; [reflexivity |]. split; [reflexivity | congruence].
    + destruct (np_min_max_bounds (x :: rest) ltac:(discriminate))
        as (lo & hi & Hlo & Hhi & Hbounds & Hnan).
      rewrite Hlo, Hhi.
      pose proof (update_display_frame (set_depth_range (lo, hi) self1)) as Hs.
      destruct (Hframe _ (lo, hi) (or_intror Hs)) as (H1 & H2 & H3).
      split; [exact H1 |]. split; [exact H2 |]. split; [exact H3 |].
      exists (x :: rest). split; [reflexivity |]. split; [discriminate |].
      intros _. exists lo, hi.
      split; [exact (proj1 (same_but_tracks _ _ Hs)) |]. split; assumption.
  - cbn [mbind option_bind].
    pose proof (update_display_frame self1) as Hs.
    destruct (Hframe _ (NaN, NaN) (or_introl Hs)) as (H1 & H2 & H3).
    split; [exact H1 |]. split; [exact H2 |]. split; [exact H3 |].
    exact (proj1 (same_but_tracks _ _ Hs)).
Qed.

(** ** Clicks and drags *)

(** What holds of the canvas whatever its tracks, its depth range and
    its well are is kept by the display methods. *)
Section drag_state.
Variable I : WellSectionCanvas.t -> Prop.
Hypothesis set_tracks_keeps : forall ts s, I s -> I (set_tracks ts s).
Hypothesis set_depth_range_keeps : forall r s, I s -> I (set_depth_range r s).
Hypothesis set_well_keeps : forall w dc s, I s -> I (set_well w dc s).

Let E (e : exn) : Prop := True.

Lemma with_axis_keeps_drag i call : keeps I E (with_axis i call).
Proof.
  intros s Hs. unfold with_axis.
  destruct (tracks s !! i) as [track|]; [| now split].
  destruct (Track.axis track); [| now split].
  split; [now apply set_tracks_keeps | done].
Qed.

Lemma update_display_keeps_drag : keeps I E update_display.
Proof. apply update_display_keeps, with_axis_keeps_drag. Qed.

Lemma set_well_data_keeps_drag well : keeps I E (set_well_data well).
Proof.
  unfold set_well_data.
  apply keeps_bind; [apply keeps_modify; intros; now apply set_well_keeps |].
  intros ?. apply keeps_get. intros self Hs.
  apply keeps_bind; [| intros ?; apply update_display_keeps_drag].
  destruct (truthy _); [| apply keeps_pass].
  destruct (WellLogData.get_curve_data _ _) as [depth_data|]; [| apply keeps_pass].
  destruct (np_min depth_data), (np_max depth_data);
    try (now apply keeps_raise).
  apply keeps_modify. intros. now apply set_depth_range_keeps.
Qed.

Lemma zoom_to_depth_range_keeps_drag lo hi : keeps I E (zoom_to_depth_range lo hi).
Proof.
  unfold zoom_to_depth_range.
  apply keeps_bind; [apply keeps_modify; intros; now apply set_depth_range_keeps |].
  intros ?. apply keeps_get. intros self Hs.
  apply keeps_for; intros; apply with_axis_keeps_drag.
Qed.

Lemma fit_to_data_keeps_drag : keeps I E WellSectionCanvas.fit_to_data.
Proof.
  unfold WellSectionCanvas.fit_to_data. apply keeps_get. intros self Hs.
  destruct (well_data self); [| apply keeps_pass].
  destruct (truthy _); [| apply keeps_pass].
  destruct (WellLogData.get_curve_data _ _) as [depth_data|]; [| apply keeps_pass].
  destruct (np_min depth_data), (np_max depth_data); try (now apply keeps_raise).
  apply keeps_bind; [apply keeps_modify; intros; now apply set_depth_range_keeps |].
  intros ?. apply zoom_to_depth_range_keeps_drag.
Qed.

Lemma on_scroll_keeps_drag event : keeps I E (on_scroll event).
Proof.
  unfold on_scroll, zoom_about_center.
  destruct (button event); try apply keeps_pass;
    apply keeps_get; intros self Hs; apply zoom_to_depth_range_keeps_drag.
Qed.

Lemma setup_display_keeps_drag : keeps I E setup_display.
Proof.
  intros s Hs. rewrite setup_display_run. split; [| done].
  now apply set_tracks_keeps.
Qed.

Lemma on_motion_keeps_drag event : keeps I E (on_motion event).
Proof.
  unfold on_motion. apply keeps_get. intros self Hs.
  assert (Hdone : forall r : option ParentCall, keeps I E (mret r))
    by (intros; apply keeps_ret).
  destruct (dragging self); [| destruct (_ && _); apply Hdone].
  destruct (drag_track_idx self) as [idx|]; [| destruct (_ && _); apply Hdone].
  destruct (xdata event) as [current_x|]; [| destruct (_ && _); apply Hdone].
  apply keeps_bind; [now apply keeps_not_None |]. intros start.
  destruct (tracks self !! idx) as [track|]; [| apply Hdone].
  apply keeps_bind; [apply keeps_modify; intros; now apply set_tracks_keeps |].
  intros ?. apply keeps_bind; [apply setup_display_keeps_drag |].
  intros ?. apply keeps_get. intros self2 Hs2.
  apply keeps_bind; [| intros ?; apply Hdone].
  destruct (well_data self2); [apply set_well_data_keeps_drag | apply keeps_pass].
Qed.

End drag_state.

Lemma track_at_bounds (x_pixel fig_width total cumulative_width : float64)
    (i j : nat) (ts : list Track.t) :
  track_at x_pixel fig_width total cumulative_width i ts = Some j ->
  (i <= j < i + length ts)%nat.
Proof.
  revert cumulative_width i. induction ts as [|track rest IH];
    intros cumulative_width i; cbn [track_at]; [discriminate |].
  destruct (_ && _).
  - destruct (fleb _ _); [| discriminate]. intros [= <-]. simpl. lia.
  - intros H%IH. simpl. lia.
Qed.

Lemma _get_track_at_position_run (x_pixel : float64) (x_data : option float64)
    (self : WellSectionCanvas.t) :
  _get_track_at_position x_pixel x_data self
  = (self,
     if decide (tracks self = []) then inr None
     else if feqb (total_width (tracks self)) (Fin 0) then inl ZeroDivisionError
     else inr (track_at x_pixel (fig_width self) (total_width (tracks self))
                        (Fin 0) 0 (tracks self))).
Proof.
  unfold _get_track_at_position, mbind, M_bind, get.
  destruct (decide _); [reflexivity |]. now destruct (feqb _ _).
Qed.

(** What a click does to the canvas. *)
Lemma on_click_run (event : MouseEvent) (self : WellSectionCanvas.t) :
  let cursor :=
    if parent self then Some (update_depth_cursor (ydata event)) else None in
  on_click event self
  = match button event, inaxes event with
    | MouseButton 1, true =>
        if decide (tracks self = []) then (self, inr cursor)
        else if feqb (total_width (tracks self)) (Fin 0)
        then (self, inl ZeroDivisionError)
        else
          match track_at (x event) (fig_width self) (total_width (tracks self))
                         (Fin 0) 0 (tracks self) with
          | Some (S i) => (set_drag true (Some (S i)) (xdata event) self, inr None)
          | _ => (self, inr cursor)
          end
    | _, _ => (self, inr None)
    end.
Proof.
  cbv zeta. unfold on_click.
  destruct (button event) as [[|[|n]]| |]; try reflexivity;
    try (now destruct (inaxes event)).
  destruct (inaxes event); [| reflexivity].
  pose proof (_get_track_at_position_run (x event) (xdata event) self) as Hat.
  destruct (decide (tracks self = [])) as [Hnil|Hne].
  { rewrite (bind_ok _ _ _ _ _ Hat). unfold mbind, M_bind, get.
    now destruct (parent self). }
  destruct (feqb _ _).
  { now rewrite (bind_raise _ _ _ _ _ Hat). }
  rewrite (bind_ok _ _ _ _ _ Hat).
  destruct (track_at _ _ _ _ _ _) as [[|idx]|]; try reflexivity;
    unfold mbind, M_bind, get; now destruct (parent self).
Qed.

Lemma on_release_run (event : MouseEvent) (self : WellSectionCanvas.t) :
  on_release event self
  = (if dragging self && bool_decide (is_Some (drag_track_idx self))
     then set_drag false None None self else self, inr ()).
Proof.
  unfold on_release, mbind, M_bind, get. now destruct (_ && _).
Qed.

Lemma on_motion_drag_state (event : MouseEvent) (self : WellSectionCanvas.t) :
  (dragging (on_motion event self).1, drag_track_idx (on_motion event self).1,
   drag_start_x (on_motion event self).1)
  = (dragging self, drag_track_idx self, drag_start_x self).
Proof.
  apply (on_motion_keeps_drag
           (fun s => (dragging s, drag_track_idx s, drag_start_x s)
                     = (dragging self, drag_track_idx self, drag_start_x self)));
    auto.
Qed.

Lemma on_motion_length (event : MouseEvent) (self : WellSectionCanvas.t) :
  length (tracks (on_motion event self).1) = length (tracks self).
Proof.
  pose proof (f_equal length (on_motion_layout self event)) as Hlen.
  rewrite !length_fmap in Hlen. rewrite Hlen.
  destruct (dragging self), (drag_track_idx self), (xdata event),
           (drag_start_x self); try reflexivity.
  apply length_alter.
Qed.

Lemma on_motion_depth_track (event : MouseEvent) (self : WellSectionCanvas.t) :
  drag_ok self ->
  Track.width <$> tracks (on_motion event self).1 !! 0%nat
  = Track.width <$> tracks self !! 0%nat.
Proof.
  intros Hdrag.
  assert (Hwidth : forall ts : list Track.t,
            Track.width <$> ts !! 0%nat
            = (fun shape : string * float64 * string * list string => shape.1.1.2)
                <$> (Track.layout <$> ts) !! 0%nat).
  { intros ts. rewrite list_lookup_fmap. now destruct (ts !! 0%nat). }
  rewrite !Hwidth, on_motion_layout.
  destruct (dragging self) eqn:Hd; [| reflexivity].
  destruct (Hdrag Hd) as (idx & Hsome & Hidx). rewrite Hsome.
  destruct (xdata event), (drag_start_x self); try reflexivity.
  rewrite !list_lookup_fmap. now rewrite list_lookup_alter_ne by lia.
Qed.

(** X12.  The drag protocol of the canvas.  A click writes to the drag state
    only, and starts a drag only with the left button inside the axes,
    of a track that exists and is not the depth track, from the x of the
    click.  A release never raises and ends the drag.  A motion leaves
    the drag state and the number of tracks as they are and never
    resizes the depth track.  So a drag in progress is always one of a
    track other than the first. *)
Theorem X12_drag_protocol (self : WellSectionCanvas.t) (event : MouseEvent) :
  drag_ok self ->
  let clicked := (on_click event self).1 in
  let released := (on_release event self).1 in
  let moved := (on_motion event self).1 in
  drag_ok clicked
  /\ set_drag false None None clicked = set_drag false None None self
  /\ (clicked <> self ->
      button event = MouseButton 1 /\ inaxes event = true
      /\ (on_click event self).2 = inr None
      /\ dragging clicked = true
      /\ drag_start_x clicked = xdata event
      /\ exists idx, drag_track_idx clicked = Some idx
                     /\ (0 < idx < length (tracks self))%nat)
  /\ (on_release event self).2 = inr ()
  /\ dragging released = false
  /\ set_drag false None None released = set_drag false None None self
  /\ drag_ok released
  /\ drag_ok moved
  /\ (dragging moved, drag_track_idx moved, drag_start_x moved)
     = (dragging self, drag_track_idx self, drag_start_x self)
  /\ length (tracks moved) = length (tracks self)
  /\ Track.width <$> tracks moved !! 0%nat = Track.width <$> tracks self !! 0%nat.
Proof.
  intros Hdrag. cbv zeta.
  assert (Hclick :
    on_click event self = (self, (on_click event self).2)
    \/ exists idx,
         button event = MouseButton 1 /\ inaxes event = true
         /\ (0 < idx < length (tracks self))%nat
         /\ on_click event self
            = (set_drag true (Some idx) (xdata event) self, inr None)).
  { rewrite on_click_run. cbv zeta.
    destruct (button event) as [[|[|n]]| |]; try (now left).
    destruct (inaxes event); [| now left].
    destruct (decide _); [now left |]. destruct (feqb _ _); [now left |].
    destruct (track_at _ _ _ _ _ _) as [[|idx]|] eqn:Hat; try (now left).
    right. exists (S idx). apply track_at_bounds in Hat.
    split; [reflexivity |]. split; [reflexivity |]. split; [lia | reflexivity]. }
  split; [| split; [| split]].
  - destruct Hclick as [->|(idx & _ & _ & Hidx & ->)]; [exact Hdrag |].
    intros _. exists idx. split; [reflexivity | exact Hidx].
  - destruct Hclick as [->|(idx & _ & _ & _ & ->)]; [reflexivity |].
    now destruct self.
  - intros Hchanged. destruct Hclick as [Hsame|(idx & Hb & Hin & Hidx & Hrun)].
    { rewrite Hsame in Hchanged. now destruct Hchanged. }
    rewrite Hrun. cbn [fst snd dragging drag_start_x drag_track_idx set_drag].
    do 5 (split; [reflexivity || assumption |]). exists idx. now split.
  - rewrite on_release_run. cbn [fst snd]. split; [reflexivity |].
    assert (Hreleased :
      dragging (if dragging self && bool_decide (is_Some (drag_track_idx self))
                then set_drag false None None self else self) = false).
    { destruct (dragging self) eqn:Hd; [| exact Hd].
      destruct (Hdrag Hd) as (idx & Hsome & _). rewrite Hsome.
      now rewrite bool_decide_eq_true_2 by eauto. }
    split; [exact Hreleased |]. split.
    { destruct (_ && _); [now destruct self | reflexivity]. }
    split; [intros Hd; rewrite Hreleased in Hd; discriminate |].
    pose proof (on_motion_drag_state event self) as Hstate.
    split; [| split; [exact Hstate |
              split; [apply on_motion_length | now apply on_motion_depth_track]]].
    intros Hd. injection Hstate as Hd' Hidx' _. rewrite Hd' in Hd.
    destruct (Hdrag Hd) as (idx & Hidx & Hlt).
    exists idx. rewrite Hidx', on_motion_length. now split.
Qed.

Lemma X12_drag_protocol_witness :
  dragging (on_release motion_left canvas_dragging).1 = false
  /\ Track.width <$> tracks (on_motion motion_left canvas_dragging).1 !! 0%nat
     = Some (Fin 0.5).
Proof.
  assert (Hdrag : drag_ok canvas_dragging).
  { intros _. exists 1%nat. split; [reflexivity |]. vm_compute. lia. }
  destruct (X12_drag_protocol canvas_dragging motion_left Hdrag)
    as (_ & _ & _ & _ & Hreleased & _ & _ & _ & _ & _ & Hdepth).
  split; [exact Hreleased |]. rewrite Hdepth. reflexivity.
Defined.

(** ** The section a canvas is built with *)

Lemma fit_to_data_keeps_layout shp :
  keeps (fun self => Track.layout <$> tracks self = shp) (fun _ => True)
        WellSectionCanvas.fit_to_data.
Proof.
  unfold WellSectionCanvas.fit_to_data. apply keeps_get. intros self Hs.
  destruct (well_data self); [| apply keeps_pass].
  destruct (truthy _); [| apply keeps_pass].
  destruct (WellLogData.get_curve_data _ _) as [depth_data|]; [| apply keeps_pass].
  destruct (np_min depth_data), (np_max depth_data); try (now apply keeps_raise).
  apply keeps_bind; [now apply keeps_modify |].
  intros ?. apply zoom_to_depth_range_keeps_layout.
Qed.

Lemma on_scroll_keeps_layout shp event :
  keeps (fun self => Track.layout <$> tracks self = shp) (fun _ => True)
        (on_scroll event).
Proof.
  unfold on_scroll, zoom_about_center.
  destruct (button event); try apply keeps_pass;
    apply keeps_get; intros self Hs; apply zoom_to_depth_range_keeps_layout.
Qed.

Lemma positive_plus_width (acc w : float64) :
  fleb (Fin 0) acc = true -> fleb (Fin 0.1) w = true ->
  fltb (Fin 0) (fadd acc w) = true.
Proof.
  destruct acc as [| |a|], w as [| |b|]; try discriminate; try reflexivity.
  intros Ha Hb. pose proof overflow_bound_pos as Hbound.
  unfold fleb in Ha, Hb. apply Qle_bool_iff in Ha, Hb.
  unfold fadd, finite.
  destruct (Qle_bool overflow_bound (a + b)); [reflexivity |].
  destruct (Qle_bool (a + b) (- overflow_bound)) eqn:Hneg.
  - apply Qle_bool_iff in Hneg. lra.
  - unfold fltb. apply Qltb_lt. lra.
Qed.

Lemma total_width_not_zero (ts : list Track.t) :
  ts <> [] ->
  Forall (fun track => fleb (Fin 0.1) (Track.width track) = true) ts ->
  feqb (total_width ts) (Fin 0) = false.
Proof.
  assert (Hrest : forall rest acc,
            fltb (Fin 0) acc = true ->
            Forall (fun track => fleb (Fin 0.1) (Track.width track) = true) rest ->
            fltb (Fin 0)
                 (foldl (fun acc track => fadd acc (Track.width track)) acc rest)
            = true).
  { induction rest as [|track rest IH]; intros acc Hacc Hall; [exact Hacc |].
    apply Forall_cons in Hall as [Hw Hall]. cbn [foldl]. apply IH; [| exact Hall].
    apply positive_plus_width; [now apply fltb_fleb | exact Hw]. }
  destruct ts as [|track rest]; [congruence |]. intros _ [Hw Hall]%Forall_cons.
  unfold total_width. cbn [foldl].
  specialize (Hrest rest (fadd (Fin 0) (Track.width track))
                (positive_plus_width (Fin 0) _ eq_refl Hw) Hall).
  destruct (foldl _ _ rest); try discriminate; try reflexivity. qsolve.
Qed.

(** Name, colour, curves and width of the tracks are read off their
    layout. *)
Lemma default_section_layout (ts : list Track.t) (self' : WellSectionCanvas.t) :
  Track.layout <$> tracks self' = Track.layout <$> ts ->
  rendered self' -> drag_ok self' ->
  (fun track => (Track.name track, Track.color track, Track.curves track)) <$> ts
  = (fun track => (Track.name track, Track.color track, Track.curves track))
      <$> default_tracks ->
  Forall (fun track => fleb (Fin 0.1) (Track.width track) = true) ts ->
  Track.width <$> ts !! 0%nat = Some (Fin 0.5) ->
  default_section self'.
Proof.
  intros Hlayout Hrendered Hdrag Hnames Hwidths Hdepth.
  split; [exact Hrendered |]. split; [| split; [| split; [| exact Hdrag]]].
  - rewrite <- Hnames.
    change (fun track => (Track.name track, Track.color track, Track.curves track))
      with ((fun shape : string * float64 * string * list string =>
               (shape.1.1.1, shape.1.2, shape.2)) ∘ Track.layout).
    rewrite !(list_fmap_compose Track.layout). now rewrite Hlayout.
  - change (fun track => fleb (Fin 0.1) (Track.width track) = true)
      with ((fun shape : string * float64 * string * list string =>
               fleb (Fin 0.1) shape.1.1.2 = true) ∘ Track.layout) in Hwidths |- *.
    apply Forall_fmap. rewrite Hlayout. now apply Forall_fmap.
  - rewrite <- Hdepth.
    assert (Hwidth : forall ts : list Track.t,
              Track.width <$> ts !! 0%nat
              = (fun shape : string * float64 * string * list string => shape.1.1.2)
                  <$> (Track.layout <$> ts) !! 0%nat).
    { intros ts0. rewrite list_lookup_fmap. now destruct (ts0 !! 0%nat). }
    now rewrite !Hwidth, Hlayout.
Qed.

(** A method that writes neither to the layout of the tracks nor to the
    drag state keeps the section. *)
Lemma default_section_kept {A} (m : M WellSectionCanvas.t A) (E : exn -> Prop)
    (self : WellSectionCanvas.t) :
  (forall n, (0 < n)%nat ->
     keeps (fun s => length (tracks s) = n
                     /\ Forall (fun track => is_Some (Track.axis track)) (tracks s))
           E m) ->
  (forall shp,
     keeps (fun s => Track.layout <$> tracks s = shp) (fun _ => True) m) ->
  (forall v,
     keeps (fun s => (dragging s, drag_track_idx s, drag_start_x s) = v)
           (fun _ => True) m) ->
  default_section self ->
  default_section (m self).1 /\ forall e, (m self).2 = inl e -> E e.
Proof.
  intros Hrendered Hlayout Hstate ([Hne Hax] & Hnames & Hwidths & Hdepth & Hdrag).
  assert (Hpos : (0 < length (tracks self))%nat)
    by (destruct (tracks self); [congruence | simpl; lia]).
  destruct (Hrendered _ Hpos self (conj eq_refl Hax)) as [[Hlen Hax'] Hexn].
  destruct (Hlayout _ self eq_refl) as [Hshape _].
  destruct (Hstate _ self eq_refl) as [Hkept _].
  split; [| exact Hexn].
  apply (default_section_layout (tracks self)); try assumption.
  - split; [| exact Hax']. intros Hnil. rewrite Hnil in Hlen. simpl in Hlen. lia.
  - injection Hkept as Hd Hidx _. intros Hdragging. rewrite Hd in Hdragging.
    destruct (Hdrag Hdragging) as (idx & Hsome & Hlt).
    exists idx. rewrite Hidx, Hlen. now split.
Qed.



(** ** The derivation buttons of the widget *)

Lemma store_and_refresh_run (self : EnhancedWellSectionWidget.t)
    (well' : WellLogData.t) (text : string) :
  (modify (set_current_well well');;
   on_canvas update_display;;
   modify (set_status text)) self
  = let self1 := set_current_well well' self in
    let shown := update_display (canvas self1) in
    match shown.2 with
    | inr _ => (set_status text (set_canvas shown.1 self1), inr ())
    | inl e => (set_canvas shown.1 self1, inl e)
    end.
Proof.
  cbv zeta. rewrite (bind_ok (modify _) _ self _ () eq_refl).
  set (self1 := set_current_well well' self).
  pose proof (on_canvas_run update_display self1) as Hrun.
  destruct (update_display (canvas self1)) as [c [e|[]]] eqn:Hshown;
    cbn [fst snd] in Hrun |- *.
  - now rewrite (bind_raise _ _ _ _ _ Hrun).
  - now rewrite (bind_ok _ _ _ _ _ Hrun).
Qed.

Lemma calculate_shale_volume_run (self : EnhancedWellSectionWidget.t)
    (well : WellLogData.t) (gr : ndarray) :
  current_well self = Some well ->
  WellLogData.curves well !! "GR" = Some gr ->
  EnhancedWellSectionWidget.calculate_shale_volume self
  = let self1 :=
      set_current_well
        (store_curve "VSH" ((fun g => Vsh g 30 150) <$> gr) "fraction"
                     "Shale Volume" well) self in
    let shown := update_display (canvas self1) in
    match shown.2 with
    | inr _ => (set_status "Shale volume calculated" (set_canvas shown.1 self1),
                inr ())
    | inl e => (set_canvas shown.1 self1, inl e)
    end.
Proof.
  intros Hwell Hgr. unfold EnhancedWellSectionWidget.calculate_shale_volume.
  rewrite (bind_ok get _ self self self eq_refl), Hwell.
  unfold WellLogData.default_gr_curve, WellLogData.default_gr_clean,
         WellLogData.default_gr_shale.
  rewrite (calculate_shale_volume_Some well "GR" 30 150 gr Hgr).
  apply store_and_refresh_run.
Qed.

Lemma calculate_porosity_run (self : EnhancedWellSectionWidget.t)
    (well : WellLogData.t) (rhob : ndarray) :
  current_well self = Some well ->
  WellLogData.curves well !! "RHOB" = Some rhob ->
  EnhancedWellSectionWidget.calculate_porosity self
  = let self1 :=
      set_current_well
        (store_curve "PHI" ((fun r => Phi r 2.65 1) <$> rhob) "fraction"
                     "Porosity" well) self in
    let shown := update_display (canvas self1) in
    match shown.2 with
    | inr _ => (set_status "Porosity calculated" (set_canvas shown.1 self1), inr ())
    | inl e => (set_canvas shown.1 self1, inl e)
    end.
Proof.
  intros Hwell Hrhob. unfold EnhancedWellSectionWidget.calculate_porosity.
  rewrite (bind_ok get _ self self self eq_refl), Hwell.
  unfold WellLogData.default_density_curve, WellLogData.default_fluid_density,
         WellLogData.default_matrix_density.
  rewrite (calculate_porosity_Some well "RHOB" 1 2.65 rhob Hrhob).
  apply store_and_refresh_run.
Qed.

(** After a store and a refresh the widget and its canvas hold the
    well stored, the status is written only when the refresh returned,
    and the edits are untouched. *)
Lemma store_and_refresh_result (self : EnhancedWellSectionWidget.t)
    (well' : WellLogData.t) (text : string) :
  let self1 := set_current_well well' self in
  let shown := update_display (canvas self1) in
  let run : EnhancedWellSectionWidget.t * (exn + unit) :=
    match shown.2 with
    | inr _ => (set_status text (set_canvas shown.1 self1), inr ())
    | inl e => (set_canvas shown.1 self1, inl e)
    end in
  current_well run.1 = Some well'
  /\ well_data (canvas run.1) = Some well'
  /\ depth_curve (canvas run.1) = depth_curve (canvas self)
  /\ depth_range (canvas run.1) = depth_range (canvas self)
  /\ (min_depth_edit run.1, max_depth_edit run.1)
     = (min_depth_edit self, max_depth_edit self)
  /\ (run.2 = inr () -> status_label run.1 = text)
  /\ (run.2 <> inr () -> status_label run.1 = status_label self).
Proof.
  cbv zeta. set (self1 := set_current_well well' self).
  destruct (same_but_tracks _ _ (update_display_frame (canvas self1)))
    as (Hrange & Hwell & Hcurve & _).
  destruct (update_display (canvas self1)) as [c [e|[]]];
    cbn [fst snd] in *; cbn [current_well canvas set_canvas set_status
                              min_depth_edit max_depth_edit status_label];
    (split; [reflexivity |]); (split; [exact Hwell |]);
    (split; [exact Hcurve |]); (split; [exact Hrange |]);
    (split; [reflexivity |]); split; try reflexivity; try discriminate;
    intros H; now destruct H.
Qed.

(** X14.  The two derivation buttons.  With a well selected that has the
    input curve, the button stores the derived curve in that well, which
    the canvas shows, under VSH (PHI) with unit [fraction]: every other
    curve, unit and description of the well is as before, and so are the
    depth range and the edits.  The status line reports it only when the
    display could be refreshed.  Both curves are drawn on the second
    track.  Pressing one button after the other leaves the same well in
    either order. *)
Theorem X14_derivation_buttons (self : EnhancedWellSectionWidget.t)
    (well : WellLogData.t) (gr rhob : ndarray) :
  current_well self = Some well ->
  WellLogData.curves well !! "GR" = Some gr ->
  WellLogData.curves well !! "RHOB" = Some rhob ->
  let with_vsh :=
    store_curve "VSH" ((fun g => Vsh g 30 150) <$> gr) "fraction" "Shale Volume" in
  let with_phi :=
    store_curve "PHI" ((fun r => Phi r 2.65 1) <$> rhob) "fraction" "Porosity" in
  let shale := EnhancedWellSectionWidget.calculate_shale_volume self in
  let porosity := EnhancedWellSectionWidget.calculate_porosity self in
  (current_well shale.1 = Some (with_vsh well)
   /\ well_data (canvas shale.1) = Some (with_vsh well)
   /\ depth_range (canvas shale.1) = depth_range (canvas self)
   /\ (min_depth_edit shale.1, max_depth_edit shale.1)
      = (min_depth_edit self, max_depth_edit self)
   /\ (shale.2 = inr () -> status_label shale.1 = "Shale volume calculated")
   /\ (shale.2 <> inr () -> status_label shale.1 = status_label self))
  /\ (current_well porosity.1 = Some (with_phi well)
      /\ well_data (canvas porosity.1) = Some (with_phi well)
      /\ depth_range (canvas porosity.1) = depth_range (canvas self)
      /\ (min_depth_edit porosity.1, max_depth_edit porosity.1)
         = (min_depth_edit self, max_depth_edit self)
      /\ (porosity.2 = inr () -> status_label porosity.1 = "Porosity calculated")
      /\ (porosity.2 <> inr () -> status_label porosity.1 = status_label self))
  /\ (forall c, c <> "VSH" ->
        WellLogData.curves (with_vsh well) !! c = WellLogData.curves well !! c
        /\ WellLogData.units (with_vsh well) !! c = WellLogData.units well !! c
        /\ WellLogData.descriptions (with_vsh well) !! c
           = WellLogData.descriptions well !! c)
  /\ WellLogData.units (with_vsh well) !! "VSH" = Some "fraction"
  /\ WellLogData.units (with_phi well) !! "PHI" = Some "fraction"
  /\ _get_track_for_curve "VSH" = 1%nat
  /\ _get_track_for_curve "PHI" = 1%nat
  /\ current_well (EnhancedWellSectionWidget.calculate_porosity shale.1).1
     = current_well (EnhancedWellSectionWidget.calculate_shale_volume porosity.1).1
  /\ current_well (EnhancedWellSectionWidget.calculate_shale_volume shale.1).1
     = current_well shale.1.
Proof.
  intros Hwell Hgr Hrhob. cbv zeta.
  set (with_vsh := store_curve "VSH" _ "fraction" "Shale Volume").
  set (with_phi := store_curve "PHI" _ "fraction" "Porosity").
  assert (Hshale : forall (s : EnhancedWellSectionWidget.t) (w : WellLogData.t),
            current_well s = Some w ->
            WellLogData.curves w !! "GR" = Some gr ->
            current_well (EnhancedWellSectionWidget.calculate_shale_volume s).1
            = Some (with_vsh w)).
  { intros s w Hs Hw. rewrite (calculate_shale_volume_run s w gr Hs Hw).
    apply store_and_refresh_result. }
  assert (Hporosity : forall (s : EnhancedWellSectionWidget.t) (w : WellLogData.t),
            current_well s = Some w ->
            WellLogData.curves w !! "RHOB" = Some rhob ->
            current_well (EnhancedWellSectionWidget.calculate_porosity s).1
            = Some (with_phi w)).
  { intros s w Hs Hw. rewrite (calculate_porosity_run s w rhob Hs Hw).
    apply store_and_refresh_result. }
  split.
  { rewrite (calculate_shale_volume_run self well gr Hwell Hgr).
    destruct (store_and_refresh_result self (with_vsh well) "Shale volume calculated")
      as (H1 & H2 & _ & H4 & H5 & H6 & H7).
    repeat (split; [assumption |]). assumption. }
  split.
  { rewrite (calculate_porosity_run self well rhob Hwell Hrhob).
    destruct (store_and_refresh_result self (with_phi well) "Porosity calculated")
      as (H1 & H2 & _ & H4 & H5 & H6 & H7).
    repeat (split; [assumption |]). assumption. }
  split.
  { intros c Hc. unfold with_vsh, store_curve.
    cbn [WellLogData.curves WellLogData.units WellLogData.descriptions].
    now rewrite !lookup_insert_ne by congruence. }
  split; [apply lookup_insert_eq |]. split; [apply lookup_insert_eq |].
  split; [reflexivity |]. split; [reflexivity |].
  split.
  - rewrite (Hporosity _ (with_vsh well)), (Hshale _ (with_phi well)).
    + f_equal. unfold with_vsh, with_phi, store_curve.
      cbn [WellLogData.name WellLogData.data WellLogData.curves WellLogData.units
           WellLogData.descriptions].
      f_equal; apply insert_insert_ne; discriminate.
    + now apply Hporosity.
    + unfold with_phi, store_curve. cbn [WellLogData.curves].
      now rewrite lookup_insert_ne by discriminate.
    + now apply Hshale.
    + unfold with_vsh, store_curve. cbn [WellLogData.curves].
      now rewrite lookup_insert_ne by discriminate.
  - rewrite (Hshale _ (with_vsh well)).
    + rewrite (Hshale _ well Hwell Hgr). f_equal.
      unfold with_vsh, store_curve.
      cbn [WellLogData.name WellLogData.data WellLogData.curves WellLogData.units
           WellLogData.descriptions].
      f_equal; apply insert_insert_eq.
    + now apply Hshale.
    + unfold with_vsh, store_curve. cbn [WellLogData.curves].
      now rewrite lookup_insert_ne by discriminate.
Qed.

Lemma X14_derivation_buttons_witness :
  current_well
    (EnhancedWellSectionWidget.calculate_shale_volume
       (widget_with_edits "100" "500")).1
  = Some (store_curve "VSH" ((fun g => Vsh g 30 150) <$> [Fin 45; NaN; Fin 120])
            "fraction" "Shale Volume" well_with_null).
Proof.
  assert (Hgr : WellLogData.curves well_with_null !! "GR"
                = Some [Fin 45; NaN; Fin 120]) by reflexivity.
  assert (Hrhob : WellLogData.curves well_with_null !! "RHOB"
                  = Some [Fin 2.65; Fin 2.32; NaN]) by reflexivity.
  destruct (X14_derivation_buttons (widget_with_edits "100" "500") well_with_null
              [Fin 45; NaN; Fin 120] [Fin 2.65; Fin 2.32; NaN] eq_refl Hgr Hrhob)
    as [[H _] _].
  exact H.
Defined.

(** ** Saturation of the derivations *)

(** The clipped quotient of the differences [n] and [d], for a positive
    [d], is 0 up to [n = 0] and 1 from [n = d] on, unless both
    differences overflow. *)
Lemma clip_ramp (n d : Q) :
  (0 < d)%Q ->
  let v := np_clip (fdiv (finite n) (finite d)) (Fin 0) (Fin 1) in
  ((n <= 0)%Q -> isnan v = false -> feqb v (Fin 0) = true)
  /\ ((d <= n)%Q -> isnan v = false -> feqb v (Fin 1) = true).
Proof.
  intros Hd. cbv zeta. pose proof overflow_bound_pos as Hbound.
  assert (Hzero : Qeq_bool d 0 = false) by (apply Qeq_bool_ne; lra).
  assert (Hlow : (n <= 0 -> n / d <= 0)%Q)
    by (intros; apply Qle_shift_div_r; lra).
  assert (Hhigh : (d <= n -> 1 <= n / d)%Q)
    by (intros; apply Qle_shift_div_l; lra).
  unfold np_clip, np_maximum, np_minimum, finite.
  destruct (Qle_bool overflow_bound d) eqn:Hd1;
    [| destruct (Qle_bool d (- overflow_bound)) eqn:Hd2;
       [apply Qle_bool_iff in Hd2; lra |]];
    (destruct (Qle_bool overflow_bound n) eqn:Hn1;
       [| destruct (Qle_bool n (- overflow_bound)) eqn:Hn2]);
    unfold fdiv; rewrite ?Hzero; unfold finite;
    generalize dependent (n / d)%Q; intros x Hlow Hhigh;
    (split; intros Hn Hnan; [specialize (Hlow Hn) | specialize (Hhigh Hn)]);
    qsolve.
Qed.

(** With a divisor of zero the quotient is an infinity or NaN, and the
    clipped value a step. *)
Lemma clip_step (n d : Q) :
  (d == 0)%Q ->
  let v := np_clip (fdiv (finite n) (finite d)) (Fin 0) (Fin 1) in
  ((n < 0)%Q -> feqb v (Fin 0) = true)
  /\ ((0 < n)%Q -> feqb v (Fin 1) = true)
  /\ ((n == 0)%Q -> v = NaN).
Proof.
  intros Hd. cbv zeta. pose proof overflow_bound_pos as Hbound.
  assert (Hzero : Qeq_bool d 0 = true) by now apply Qeq_bool_iff.
  assert (Hfin : finite d = Fin d).
  { unfold finite.
    destruct (Qle_bool overflow_bound d) eqn:Hd1;
      [apply Qle_bool_iff in Hd1; lra |].
    destruct (Qle_bool d (- overflow_bound)) eqn:Hd2;
      [apply Qle_bool_iff in Hd2; lra | reflexivity]. }
  assert (Hnot : Qltb d 0 = false) by (apply Qltb_ge; lra).
  rewrite Hfin. unfold finite.
  destruct (Qle_bool overflow_bound n) eqn:Hn1;
    [| destruct (Qle_bool n (- overflow_bound)) eqn:Hn2];
    unfold np_clip, np_maximum, np_minimum, fdiv, fsign; rewrite ?Hzero, ?Hnot;
    qprop;
    (split; [| split]); intros Hn;
    try (exfalso; lra);
    try reflexivity;
    destruct (Qcompare_spec n 0) as [H|H|H]; try (exfalso; lra); reflexivity.
Qed.

(** X15.  The derivations saturate.  With [gr_clean < gr_shale] the shale
    volume of a finite sample is 0 up to [gr_clean] and 1 from
    [gr_shale] on; with [fluid_density < matrix_density] the porosity is
    0 from the matrix density on and 1 up to the fluid density; in both
    cases unless the value is NaN, which it is when both differences
    overflow.  When the two calibration points are equal nothing is
    raised: the result is a step, 0 on one side, 1 on the other and NaN
    at the point itself.  The result has one value for each sample. *)
Theorem X15_derivation_saturation (self : WellLogData.t) (curve : string)
    (a b : Q) (samples : ndarray) (i : nat) (q : Q) :
  WellLogData.curves self !! curve = Some samples ->
  samples !! i = Some (Fin q) ->
  (exists vsh v,
     (WellLogData.calculate_shale_volume self curve a b).2 = Some vsh
     /\ length vsh = length samples
     /\ vsh !! i = Some v
     /\ ((a < b)%Q ->
         ((q <= a)%Q -> isnan v = false -> feqb v (Fin 0) = true)
         /\ ((b <= q)%Q -> isnan v = false -> feqb v (Fin 1) = true))
     /\ ((a == b)%Q ->
         ((q < a)%Q -> feqb v (Fin 0) = true)
         /\ ((a < q)%Q -> feqb v (Fin 1) = true)
         /\ ((q == a)%Q -> v = NaN)))
  /\ (exists phi p,
        (WellLogData.calculate_porosity self curve a b).2 = Some phi
        /\ length phi = length samples
        /\ phi !! i = Some p
        /\ ((a < b)%Q ->
            ((b <= q)%Q -> isnan p = false -> feqb p (Fin 0) = true)
            /\ ((q <= a)%Q -> isnan p = false -> feqb p (Fin 1) = true))
        /\ ((a == b)%Q ->
            ((b < q)%Q -> feqb p (Fin 0) = true)
            /\ ((q < b)%Q -> feqb p (Fin 1) = true)
            /\ ((q == b)%Q -> p = NaN))).
Proof.
  intros Hcurve Hi. split.
  - rewrite (calculate_shale_volume_Some _ _ _ _ _ Hcurve).
    eexists _, _. split; [reflexivity |]. split; [apply length_fmap |].
    split; [now rewrite list_lookup_fmap, Hi |].
    unfold Vsh. cbn [fsub]. split.
    + intros Hab. destruct (clip_ramp (q - a) (b - a) ltac:(lra)) as (H0 & H1).
      split; [intros; apply H0; [lra | assumption] |].
      intros; apply H1; [lra | assumption].
    + intros Hab. destruct (clip_step (q - a) (b - a) ltac:(lra)) as (H0 & H1 & Hnan).
      split; [intros; apply H0; lra |]. split; [intros; apply H1; lra |].
      intros; apply Hnan; lra.
  - rewrite (calculate_porosity_Some _ _ _ _ _ Hcurve).
    eexists _, _. split; [reflexivity |]. split; [apply length_fmap |].
    split; [now rewrite list_lookup_fmap, Hi |].
    unfold Phi. cbn [fsub]. split.
    + intros Hab. destruct (clip_ramp (b - q) (b - a) ltac:(lra)) as (H0 & H1).
      split; [intros; apply H0; [lra | assumption] |].
      intros; apply H1; [lra | assumption].
    + intros Hab. destruct (clip_step (b - q) (b - a) ltac:(lra)) as (H0 & H1 & Hnan).
      split; [intros; apply H0; lra |]. split; [intros; apply H1; lra |].
      intros; apply Hnan; lra.
Qed.

Lemma X15_derivation_saturation_witness :
  exists vsh v,
    (WellLogData.calculate_shale_volume well_with_null "GR" 30 100).2 = Some vsh
    /\ vsh !! 2%nat = Some v
    /\ feqb v (Fin 1) = true.
Proof.
  destruct (X15_derivation_saturation well_with_null "GR" 30 100
              [Fin 45; NaN; Fin 120] 2 120 eq_refl eq_refl)
    as [(vsh & v & Hvsh & _ & Hv & Hramp & _) _].
  exists vsh, v. split; [exact Hvsh |]. split; [exact Hv |].
  apply Hramp; [reflexivity | discriminate |].
  vm_compute in Hvsh. injection Hvsh as <-.
  vm_compute in Hv. injection Hv as <-. reflexivity.
Defined.

(** ** What the display shows *)

Section shown.
Variable well : WellLogData.t.
Variable depth_data : ndarray.
Variable limits : float64 * float64.

(** The axis of track [i] is titled with the name of the track, has the
    limits given and holds lines of curves of the well assigned to
    track [i] only, drawn against the depth data. *)
Let P (i : nat) (track : Track.t) (ax : Axes.t) : Prop :=
  Axes.title ax = Track.name track
  /\ Axes.ylim ax = limits
  /\ Forall (fun line =>
       WellLogData.curves well !! Axes.label line = Some (Axes.xdata line)
       /\ _get_track_for_curve (Axes.label line) = i
       /\ Axes.ydata line = depth_data
       /\ Axes.color line = default "black" (curve_colors !! Axes.label line))
     (Axes.lines ax).

Let J (self : WellSectionCanvas.t) : Prop :=
  forall i track,
    tracks self !! i = Some track ->
    exists ax, Track.axis track = Some ax /\ P i track ax.

Lemma with_axis_keeps_shown i call :
  (forall track ax, P i track ax -> P i track (call track ax)) ->
  keeps J (fun _ => True) (with_axis i call).
Proof.
  intros Hcall self Hs. unfold with_axis.
  destruct (tracks self !! i) as [track|] eqn:Hi; [| now split].
  destruct (Track.axis track) as [ax|] eqn:Hax; [| now split].
  split; [| done]. cbn [fst]. intros j track' Hj. cbn [tracks set_tracks] in Hj.
  destruct (decide (j = i)) as [->|Hne].
  - rewrite list_lookup_insert_eq in Hj by (eapply lookup_lt_Some; eauto).
    injection Hj as <-. eexists. split; [reflexivity |].
    destruct (Hs i track Hi) as (ax0 & Hax0 & HP).
    rewrite Hax in Hax0. injection Hax0 as <-. exact (Hcall _ _ HP).
  - rewrite list_lookup_insert_ne in Hj by auto. now apply Hs.
Qed.

Lemma plot_curve_keeps_shown curve_name :
  keeps J (fun _ => True) (plot_curve well depth_data curve_name).
Proof.
  unfold plot_curve.
  destruct (WellLogData.get_curve_data well curve_name) as [curve_data|] eqn:Hdata;
    [| apply keeps_pass].
  apply keeps_get. intros self Hs.
  destruct (decide _); [apply keeps_pass |].
  apply keeps_bind.
  { apply with_axis_keeps_shown. intros track ax (Htitle & Hlim & Hlines).
    split; [exact Htitle |]. split; [exact Hlim |].
    cbn [Axes.lines Axes.plot]. apply Forall_app. split; [exact Hlines |].
    constructor; [| constructor]. cbn [Axes.label Axes.xdata Axes.ydata Axes.color].
    split; [exact Hdata |]. now repeat split. }
  intros ?. destruct (decide _); [| apply keeps_pass].
  destruct (np_nanmin curve_data), (np_nanmax curve_data);
    try (now apply keeps_raise).
  destruct (_ && _); [| apply keeps_pass].
  apply with_axis_keeps_shown. intros track ax HP. exact HP.
Qed.

Lemma plots_keep_shown (n : nat) :
  keeps J (fun _ => True)
    (for_ (WellLogData.get_curve_names well) (plot_curve well depth_data);;
     with_axis 0 (fun _ => Axes.set_xlim (Fin 0) (Fin 1));;
     for_ (seq 1 (n - 1)) (fun i => with_axis i (fun _ ax => ax));;
     for_ (seq 1 (n - 1)) (fun i => with_axis i (fun _ ax => ax))).
Proof.
  apply keeps_bind; [apply keeps_for; intros; apply plot_curve_keeps_shown |].
  intros ?. apply keeps_bind.
  { apply with_axis_keeps_shown. intros track ax HP. exact HP. }
  intros ?. apply keeps_bind.
  { apply keeps_for. intros. apply with_axis_keeps_shown. intros track ax HP. exact HP. }
  intros ?. apply keeps_for. intros.
  apply with_axis_keeps_shown. intros track ax HP. exact HP.
Qed.

End shown.

(** The depth data [update_display] plots against. *)
Lemma update_display_cleared (self : WellSectionCanvas.t) (well : WellLogData.t) :
  well_data self = Some well ->
  Forall (fun track => is_Some (Track.axis track)) (tracks self) ->
  let cleared :=
    set_tracks
      (axis_call (fun track ax =>
                    Axes.set_ylim (depth_range self).2 (depth_range self).1
                      (Axes.set_title (Track.name track) (Axes.clear ax)))
         <$> tracks self) self in
  update_display self
  = match truthy (depth_curve self) ≫= WellLogData.get_curve_data well with
    | Some depth_data =>
        (for_ (WellLogData.get_curve_names well) (plot_curve well depth_data);;
         with_axis 0 (fun _ => Axes.set_xlim (Fin 0) (Fin 1));;
         for_ (seq 1 (length (tracks self) - 1)) (fun i => with_axis i (fun _ ax => ax));;
         for_ (seq 1 (length (tracks self) - 1)) (fun i => with_axis i (fun _ ax => ax)))
          cleared
    | None =>
        match WellLogData.data well with
        | Some df =>
            (for_ (WellLogData.get_curve_names well)
                  (plot_curve well (np_arange (DataFrame_len df)));;
             with_axis 0 (fun _ => Axes.set_xlim (Fin 0) (Fin 1));;
             for_ (seq 1 (length (tracks self) - 1))
                  (fun i => with_axis i (fun _ ax => ax));;
             for_ (seq 1 (length (tracks self) - 1))
                  (fun i => with_axis i (fun _ ax => ax)))
              cleared
        | None => (cleared, inl TypeError)
        end
    end.
Proof.
  intros Hwell Hax. cbv zeta. unfold update_display.
  rewrite (bind_ok get _ self self self eq_refl), Hwell.
  rewrite (bind_ok _ _ _ _ () (with_axis_all _ self Hax)).
  set (cleared := set_tracks _ self).
  destruct (truthy (depth_curve self) ≫= WellLogData.get_curve_data well)
    as [depth_data|].
  - now rewrite (bind_ok (mret depth_data) _ cleared cleared depth_data eq_refl).
  - destruct (WellLogData.data well) as [df|].
    + now rewrite (bind_ok (not_None (Some df) ≫= _) _ cleared cleared
                     (np_arange (DataFrame_len df)) eq_refl).
    + now rewrite (bind_raise (not_None None ≫= _) _ cleared cleared TypeError eq_refl).
Qed.

Lemma update_display_lines (self : WellSectionCanvas.t) (well : WellLogData.t) :
  well_data self = Some well ->
  Forall (fun track => is_Some (Track.axis track)) (tracks self) ->
  forall i track,
    tracks (update_display self).1 !! i = Some track ->
    exists ax,
      Track.axis track = Some ax
      /\ Axes.title ax = Track.name track
      /\ Axes.ylim ax = ((depth_range self).2, (depth_range self).1)
      /\ forall line,
           line ∈ Axes.lines ax ->
           WellLogData.curves well !! Axes.label line = Some (Axes.xdata line)
           /\ _get_track_for_curve (Axes.label line) = i
           /\ Axes.color line = default "black" (curve_colors !! Axes.label line)
           /\ Some (Axes.ydata line)
              = match truthy (depth_curve self) ≫= WellLogData.get_curve_data well with
                | Some depth_data => Some depth_data
                | None => (fun df => np_arange (DataFrame_len df))
                            <$> WellLogData.data well
                end.
Proof.
  intros Hwell Hax.
  rewrite (update_display_cleared self well Hwell Hax). cbv zeta.
  set (cleared := set_tracks _ self).
  assert (Hcleared : forall depth_data i track,
            tracks cleared !! i = Some track ->
            exists ax,
              Track.axis track = Some ax
              /\ Axes.title ax = Track.name track
              /\ Axes.ylim ax = ((depth_range self).2, (depth_range self).1)
              /\ Forall (fun line =>
                   WellLogData.curves well !! Axes.label line = Some (Axes.xdata line)
                   /\ _get_track_for_curve (Axes.label line) = i
                   /\ Axes.ydata line = depth_data
                   /\ Axes.color line = default "black" (curve_colors !! Axes.label line))
                 (Axes.lines ax)).
  { intros depth_data i track Hi. unfold cleared in Hi. cbn [tracks set_tracks] in Hi.
    rewrite list_lookup_fmap in Hi.
    destruct (tracks self !! i) as [track0|] eqn:Hi0; [| discriminate].
    injection Hi as <-.
    destruct (proj1 (Forall_lookup _ _) Hax i track0 Hi0) as [ax0 Hax0].
    unfold axis_call. rewrite Hax0. eexists. split; [reflexivity |].
    split; [reflexivity |]. split; [reflexivity | constructor]. }
  assert (Hshown : forall depth_data (s : WellSectionCanvas.t * (exn + unit)),
            s = (for_ (WellLogData.get_curve_names well) (plot_curve well depth_data);;
                 with_axis 0 (fun _ => Axes.set_xlim (Fin 0) (Fin 1));;
                 for_ (seq 1 (length (tracks self) - 1))
                      (fun i => with_axis i (fun _ ax => ax));;
                 for_ (seq 1 (length (tracks self) - 1))
                      (fun i => with_axis i (fun _ ax => ax))) cleared ->
            forall i track,
              tracks s.1 !! i = Some track ->
              exists ax,
                Track.axis track = Some ax
                /\ Axes.title ax = Track.name track
                /\ Axes.ylim ax = ((depth_range self).2, (depth_range self).1)
                /\ forall line,
                     line ∈ Axes.lines ax ->
                     WellLogData.curves well !! Axes.label line = Some (Axes.xdata line)
                     /\ _get_track_for_curve (Axes.label line) = i
                     /\ Axes.color line
                        = default "black" (curve_colors !! Axes.label line)
                     /\ Some (Axes.ydata line) = Some depth_data).
  { intros depth_data s -> i track Hi.
    destruct (plots_keep_shown well depth_data
                ((depth_range self).2, (depth_range self).1)
                (length (tracks self)) cleared (Hcleared depth_data)) as [Hkept _].
    destruct (Hkept i track Hi) as (ax & Hax' & Htitle & Hlim & Hlines).
    exists ax. split; [exact Hax' |]. split; [exact Htitle |]. split; [exact Hlim |].
    intros line Hline.
    destruct (proj1 (Forall_forall _ _) Hlines line Hline) as (H1 & H2 & H3 & H4).
    split; [exact H1 |]. split; [exact H2 |]. split; [exact H4 |]. now rewrite H3. }
  destruct (truthy (depth_curve self) ≫= WellLogData.get_curve_data well)
    as [depth_data|].
  - apply (Hshown depth_data _ eq_refl).
  - destruct (WellLogData.data well) as [df|].
    + apply (Hshown (np_arange (DataFrame_len df)) _ eq_refl).
    + cbn [fst]. intros i track Hi.
      destruct (Hcleared [] i track Hi) as (ax & Hax' & Htitle & Hlim & Hlines).
      exists ax. split; [exact Hax' |]. split; [exact Htitle |]. split; [exact Hlim |].
      intros line Hline. unfold cleared in Hi. cbn [tracks set_tracks] in Hi.
      rewrite list_lookup_fmap in Hi.
      destruct (tracks self !! i) as [track0|] eqn:Hi0; [| discriminate].
      injection Hi as <-.
      destruct (proj1 (Forall_lookup _ _) Hax i track0 Hi0) as [ax0 Hax0].
      unfold axis_call in Hax'. rewrite Hax0 in Hax'. injection Hax' as <-.
      now apply elem_of_nil in Hline.
Qed.

(** X16.  What [update_display] leaves on a canvas whose tracks have their
    axis, whose depth range is finite and that is bound to a well,
    whether it returns or raises: the tracks as configured, each axis
    titled with the name of its track; and on the axis of track [i] only
    lines of curves of the well that [_get_track_for_curve] sends to
    [i], labelled with the curve name, in its colour (black when it has
    none), drawn against the depth curve, or against the row numbers of
    the data when there is none. *)
Theorem X16_update_display_shows (self : WellSectionCanvas.t) (well : WellLogData.t) :
  well_data self = Some well ->
  Forall (fun track => is_Some (Track.axis track)) (tracks self) ->
  isfinite (depth_range self).1 = true ->
  isfinite (depth_range self).2 = true ->
  let self' := (update_display self).1 in
  Track.layout <$> tracks self' = Track.layout <$> tracks self
  /\ forall i track,
       tracks self' !! i = Some track ->
       exists ax,
         Track.axis track = Some ax
         /\ Axes.title ax = Track.name track
         /\ forall line,
              line ∈ Axes.lines ax ->
              WellLogData.curves well !! Axes.label line = Some (Axes.xdata line)
              /\ _get_track_for_curve (Axes.label line) = i
              /\ Axes.color line = default "black" (curve_colors !! Axes.label line)
              /\ Some (Axes.ydata line)
                 = match truthy (depth_curve self) ≫= WellLogData.get_curve_data well with
                   | Some depth_data => Some depth_data
                   | None => (fun df => np_arange (DataFrame_len df))
                               <$> WellLogData.data well
                   end.
Proof.
  intros Hwell Hax _ _. cbv zeta.
  split; [apply (update_display_keeps_layout _ self eq_refl) |].
  intros i track Hi.
  destruct (update_display_lines self well Hwell Hax i track Hi)
    as (ax & Haxis & Htitle & _ & Hlines).
  exists ax. split; [exact Haxis |]. split; [exact Htitle | exact Hlines].
Qed.

Lemma X16_update_display_shows_witness :
  Track.layout <$> tracks (update_display canvas_bound).1
  = Track.layout <$> tracks canvas_bound.
Proof.
  assert (Hax : Forall (fun track => is_Some (Track.axis track)) (tracks canvas_bound)).
  { vm_compute. repeat constructor; now eexists. }
  exact (proj1 (X16_update_display_shows canvas_bound well_with_null eq_refl Hax
                  eq_refl eq_refl)).
Defined.

Lemma bind_inr_inv {S A B} (m : M S A) (f : A -> M S B) s s' b :
  (m ≫= f) s = (s', inr b) ->
  exists s1 a, m s = (s1, inr a) /\ f a s1 = (s', inr b).
Proof.
  unfold mbind, M_bind. destruct (m s) as [s1 [e|a]]; [discriminate | eauto].
Qed.

(** A loop that returns went through the body for each element, and
    what that body established and the others keep holds at the end. *)
Lemma for_reaches {S A} (Inv K : S -> Prop) (E : exn -> Prop)
    (body : A -> M S unit) (c : A) (l : list A) (s : S) :
  (forall x, keeps Inv E (body x)) ->
  (forall x, keeps K (fun _ => True) (body x)) ->
  (forall s, Inv s -> K (body c s).1) ->
  Inv s -> c ∈ l -> (for_ l body s).2 = inr () -> K (for_ l body s).1.
Proof.
  intros HInv HK Hc. revert s. induction l as [|x rest IH]; intros s Hs Hin Hret.
  { now apply elem_of_nil in Hin. }
  cbn [for_] in Hret |- *. unfold mbind, M_bind in Hret |- *.
  pose proof (HInv x s Hs) as [Hs1 _]. pose proof (Hc s Hs) as HKc.
  apply elem_of_cons in Hin as [->|Hin].
  - destruct (body x s) as [s1 [e|[]]]; [discriminate |]. cbn [fst] in *.
    now apply (keeps_for K (fun _ => True) rest body (fun y _ => HK y) s1).
  - destruct (body x s) as [s1 [e|[]]]; [discriminate |]. cbn [fst] in *.
    now apply IH.
Qed.

Section on_axis.
Variable j : nat.
Variable Q : Axes.t -> Prop.

(** The axis of track [j] satisfies [Q]. *)
Let K (self : WellSectionCanvas.t) : Prop :=
  exists track ax,
    tracks self !! j = Some track /\ Track.axis track = Some ax /\ Q ax.

Lemma with_axis_keeps_on i call :
  (forall track ax, Q ax -> Q (call track ax)) ->
  keeps K (fun _ => True) (with_axis i call).
Proof.
  intros Hcall self (track & ax & Hj & Hax & HQ). unfold with_axis.
  destruct (tracks self !! i) as [track_i|] eqn:Hi; [| split; [| done]; now exists track, ax].
  destruct (Track.axis track_i) as [ax_i|] eqn:Hax_i;
    [| split; [| done]; now exists track, ax].
  split; [| done]. cbn [fst]. unfold K. cbn [tracks set_tracks].
  destruct (decide (j = i)) as [->|Hne].
  - rewrite Hj in Hi. injection Hi as <-. rewrite Hax in Hax_i. injection Hax_i as <-.
    eexists _, _. split; [apply list_lookup_insert_eq; eapply lookup_lt_Some; eauto |].
    split; [reflexivity | now apply Hcall].
  - exists track, ax. now rewrite list_lookup_insert_ne by auto.
Qed.

Hypothesis plot_keeps : forall line ax, Q ax -> Q (Axes.plot line ax).
Hypothesis set_xlim_keeps : forall lo hi ax, Q ax -> Q (Axes.set_xlim lo hi ax).

Lemma plot_curve_keeps_on well depth_data curve_name :
  keeps K (fun _ => True) (plot_curve well depth_data curve_name).
Proof.
  unfold plot_curve.
  destruct (WellLogData.get_curve_data well curve_name) as [curve_data|];
    [| apply keeps_pass].
  apply keeps_get. intros self Hs.
  destruct (decide _); [apply keeps_pass |].
  apply keeps_bind; [apply with_axis_keeps_on; intros; now apply plot_keeps |].
  intros ?. destruct (decide _); [| apply keeps_pass].
  destruct (np_nanmin curve_data), (np_nanmax curve_data);
    try (now apply keeps_raise).
  destruct (_ && _); [| apply keeps_pass].
  apply with_axis_keeps_on. intros. now apply set_xlim_keeps.
Qed.

End on_axis.

(** X17.  When [update_display] returns, every curve of the well whose track
    exists is on the axis of that track, with its samples, and the depth
    track has the x-limits 0 and 1. *)
Theorem X17_update_display_complete (self : WellSectionCanvas.t)
    (well : WellLogData.t) :
  well_data self = Some well ->
  rendered self ->
  (update_display self).2 = inr () ->
  let self' := (update_display self).1 in
  (forall c data,
     WellLogData.curves well !! c = Some data ->
     (_get_track_for_curve c < length (tracks self))%nat ->
     exists track ax line,
       tracks self' !! _get_track_for_curve c = Some track
       /\ Track.axis track = Some ax
       /\ line ∈ Axes.lines ax
       /\ Axes.label line = c
       /\ Axes.xdata line = data)
  /\ (exists track ax,
        tracks self' !! 0%nat = Some track
        /\ Track.axis track = Some ax
        /\ Axes.xlim ax = (Fin 0, Fin 1)).
Proof.
  intros Hwell [Hne Hax] Hret. cbv zeta.
  pose proof (update_display_lines self well Hwell Hax) as Hlines.
  assert (Hpos : (0 < length (tracks self))%nat)
    by (destruct (tracks self); [congruence | simpl; lia]).
  rewrite (update_display_cleared self well Hwell Hax) in Hret, Hlines |- *.
  cbv zeta in Hret, Hlines |- *.
  set (cleared := set_tracks _ self) in *.
  assert (Hcleared : length (tracks cleared) = length (tracks self)
                     /\ Forall (fun track => is_Some (Track.axis track))
                               (tracks cleared)).
  { unfold cleared. cbn [tracks set_tracks]. split; [apply length_fmap |].
    apply Forall_fmap, Forall_forall. intros track Hin. cbn. unfold axis_call.
    destruct (proj1 (Forall_forall _ _) Hax track Hin) as [ax ->]. now eexists. }
  assert (Hrest : forall depth_data s',
            (for_ (WellLogData.get_curve_names well) (plot_curve well depth_data);;
             with_axis 0 (fun _ => Axes.set_xlim (Fin 0) (Fin 1));;
             for_ (seq 1 (length (tracks self) - 1))
                  (fun i => with_axis i (fun _ ax => ax));;
             for_ (seq 1 (length (tracks self) - 1))
                  (fun i => with_axis i (fun _ ax => ax))) cleared = (s', inr ()) ->
            (forall c data,
               WellLogData.curves well !! c = Some data ->
               (_get_track_for_curve c < length (tracks self))%nat ->
               exists track ax,
                 tracks s' !! _get_track_for_curve c = Some track
                 /\ Track.axis track = Some ax
                 /\ exists line, line ∈ Axes.lines ax /\ Axes.label line = c)
            /\ (exists track ax,
                  tracks s' !! 0%nat = Some track
                  /\ Track.axis track = Some ax
                  /\ Axes.xlim ax = (Fin 0, Fin 1))).
  { intros depth_data s' Hrun.
    apply bind_inr_inv in Hrun as (s1 & [] & Hplots & Hrun).
    apply bind_inr_inv in Hrun as (s2 & [] & Hdepth & Hrun).
    assert (Hticks : forall (Q : Axes.t -> Prop) j,
              keeps (fun s => exists track ax,
                       tracks s !! j = Some track /\ Track.axis track = Some ax /\ Q ax)
                    (fun _ => True)
                    (for_ (seq 1 (length (tracks self) - 1))
                          (fun i => with_axis i (fun _ ax => ax));;
                     for_ (seq 1 (length (tracks self) - 1))
                          (fun i => with_axis i (fun _ ax => ax)))).
    { intros Q j. apply keeps_bind; [| intros ?];
        apply keeps_for; intros; apply with_axis_keeps_on; intros ? ? HQ; exact HQ. }
    split.
    - intros c data Hc Hidx.
      pose (Qc := fun ax : Axes.t =>
                    exists line : Axes.Line,
                      line ∈ Axes.lines ax /\ Axes.label line = c).
      pose (Kc := fun s : WellSectionCanvas.t =>
                    exists track ax,
                      tracks s !! _get_track_for_curve c = Some track
                      /\ Track.axis track = Some ax /\ Qc ax).
      change (Kc s').
      pose proof (Hticks Qc (_get_track_for_curve c) s2) as Hkept.
      rewrite Hrun in Hkept. apply Hkept. clear Hkept.
      pose proof (with_axis_keeps_on (_get_track_for_curve c) Qc
                    0 (fun _ => Axes.set_xlim (Fin 0) (Fin 1))
                    ltac:(intros ? ? HQ; exact HQ) s1) as Hkept.
      rewrite Hdepth in Hkept. apply Hkept. clear Hkept.
      pose proof (for_reaches
                    (fun s => length (tracks s) = length (tracks self)
                              /\ Forall (fun track => is_Some (Track.axis track))
                                        (tracks s))
                    Kc
                    (fun e => e = ValueError)
                    (plot_curve well depth_data) c
                    (WellLogData.get_curve_names well) cleared) as Hreach.
      rewrite Hplots in Hreach. apply Hreach; try assumption; try reflexivity.
      + intros x. now apply plot_curve_rendered.
      + intros x. apply plot_curve_keeps_on.
        * intros line ax (line0 & Hin & Hlabel). exists line0.
          split; [| exact Hlabel]. cbn [Axes.lines Axes.plot].
          apply elem_of_app. now left.
        * intros lo hi ax HQ. exact HQ.
      + intros s [Hlen Hax_s].
        destruct (lookup_lt_is_Some_2 (tracks s) (_get_track_for_curve c)
                    ltac:(lia)) as [track Htrack].
        destruct (proj1 (Forall_lookup _ _) Hax_s _ _ Htrack) as [ax Hax_t].
        destruct (plot_curve_plots s well depth_data c data track ax Hc Htrack Hax_t)
          as (track' & ax' & Htrack' & Hax' & Hlabels).
        exists track', ax'. split; [exact Htrack' |]. split; [exact Hax' |].
        unfold Qc. rewrite Hlabels. eexists.
        split; [apply elem_of_app; right; left | reflexivity].
      + unfold WellLogData.get_curve_names. apply list_elem_of_fmap.
        exists (c, data). split; [reflexivity |]. now apply elem_of_map_to_list.
    - pose (Q0 := fun ax : Axes.t => Axes.xlim ax = (Fin 0, Fin 1)).
      pose proof (Hticks Q0 0%nat s2) as Hkept.
      rewrite Hrun in Hkept. apply Hkept. clear Hkept.
      unfold with_axis in Hdepth.
      destruct (tracks s1 !! 0%nat) as [track|] eqn:Htrack; [| discriminate].
      destruct (Track.axis track) as [ax|] eqn:Hax_t; [| discriminate].
      injection Hdepth as <-. cbn [tracks set_tracks].
      eexists _, _. split; [apply list_lookup_insert_eq; eapply lookup_lt_Some; eauto |].
      split; reflexivity. }
  assert (Hgoal : forall s' : WellSectionCanvas.t,
            (forall i track,
               tracks s' !! i = Some track ->
               exists ax,
                 Track.axis track = Some ax
                 /\ Axes.title ax = Track.name track
                 /\ Axes.ylim ax = ((depth_range self).2, (depth_range self).1)
                 /\ forall line,
                      line ∈ Axes.lines ax ->
                      WellLogData.curves well !! Axes.label line
                      = Some (Axes.xdata line)
                      /\ _get_track_for_curve (Axes.label line) = i
                      /\ Axes.color line
                         = default "black" (curve_colors !! Axes.label line)
                      /\ Some (Axes.ydata line)
                         = match truthy (depth_curve self)
                                 ≫= WellLogData.get_curve_data well with
                           | Some depth_data => Some depth_data
                           | None => (fun df => np_arange (DataFrame_len df))
                                       <$> WellLogData.data well
                           end) ->
            (forall c data,
               WellLogData.curves well !! c = Some data ->
               (_get_track_for_curve c < length (tracks self))%nat ->
               exists track ax,
                 tracks s' !! _get_track_for_curve c = Some track
                 /\ Track.axis track = Some ax
                 /\ exists line, line ∈ Axes.lines ax /\ Axes.label line = c) ->
            forall c data,
              WellLogData.curves well !! c = Some data ->
              (_get_track_for_curve c < length (tracks self))%nat ->
              exists track ax line,
                tracks s' !! _get_track_for_curve c = Some track
                /\ Track.axis track = Some ax
                /\ line ∈ Axes.lines ax
                /\ Axes.label line = c
                /\ Axes.xdata line = data).
  { intros s' Hsound Hall c data Hc Hidx.
    destruct (Hall c data Hc Hidx) as (track & ax & Htrack & Hax_t & line & Hin & Hlabel).
    exists track, ax, line. do 4 (split; [assumption |]).
    destruct (Hsound _ _ Htrack) as (ax0 & Hax0 & _ & _ & Hshown).
    rewrite Hax_t in Hax0. injection Hax0 as <-.
    destruct (Hshown line Hin) as (Hdata & _). rewrite Hlabel, Hc in Hdata.
    now injection Hdata. }
  destruct (truthy (depth_curve self) ≫= WellLogData.get_curve_data well)
    as [depth_data|].
  - match type of Hret with (?run).2 = _ => destruct run as [s' [e|[]]] eqn:Hrun end;
      [discriminate |].
    destruct (Hrest depth_data s' Hrun) as [Hall Hxlim].
    split; [| exact Hxlim]. now apply Hgoal.
  - destruct (WellLogData.data well) as [df|]; [| discriminate].
    match type of Hret with (?run).2 = _ => destruct run as [s' [e|[]]] eqn:Hrun end;
      [discriminate |].
    destruct (Hrest _ s' Hrun) as [Hall Hxlim].
    split; [| exact Hxlim]. now apply Hgoal.
Qed.

Lemma X17_update_display_complete_witness :
  exists track ax,
    tracks (update_display canvas_bound).1 !! 0%nat = Some track
    /\ Track.axis track = Some ax
    /\ Axes.xlim ax = (Fin 0, Fin 1).
Proof.
  assert (Hrendered : rendered canvas_bound).
  { split; [discriminate |]. vm_compute. repeat constructor; now eexists. }
  assert (Hret : (update_display canvas_bound).2 = inr ()) by (vm_compute; reflexivity).
  exact (proj2 (X17_update_display_complete canvas_bound well_with_null eq_refl
                  Hrendered Hret)).
Defined.
